(** * simple-table-refine: the rule-matching engine, embedded and verified

    A shallow embedding of the JavaScript sources of simple-table-refine
    (refine_util.js, row_filter.js, col_filter.js and the refine
    orchestrator) together with the properties of the rule combiner, the
    row filter, the column filter and the operation dispatch.

    Conventions of the embedding.
    - A JavaScript array is a [list]; [arr[i]] is [js_get arr i], which is
      [None] where JavaScript yields [undefined].
    - Indices, and numeric cells, are integers ([Z]).  [parseInt(i, 10)] is
      only ever applied to loop counters and collected indices, on which it
      is the identity, and is therefore not written.
    - A JavaScript exception is the [Throw] case of [Result]; evaluation
      order is kept, so the first exception raised by the source is the one
      returned by the model.
    - [console.log] calls of the source have no effect on tables or
      callbacks and are left out. *)

From stdpp Require Import base decidable option list gmap sets strings.
From Stdlib Require Import ZArith QArith Lia FunctionalExtensionality.

Local Open Scope Z_scope.
#[local] Set Warnings "-clear-no-such-hyp,-register-all".

(** ** JavaScript values, arrays and exceptions *)

(** A cell holds a dynamically typed scalar. *)
Inductive Value :=
  | VStr (s : string)
  | VNum (n : Z)
  | VBool (b : bool).

#[global] Instance Value_eq_dec : EqDecision Value.
Proof. solve_decision. Defined.

Abbreviation Row := (list Value).
Abbreviation Table := (list (list Value)).

Inductive JsError :=
  | TypeError
  | Error (msg : string).

Inductive Result (A : Type) :=
  | Ok (a : A)
  | Throw (e : JsError).
Arguments Ok {A} a.
Arguments Throw {A} e.

Definition bind {A B} (m : Result A) (k : A -> Result B) : Result B :=
  match m with
  | Ok a => k a
  | Throw e => Throw e
  end.

Notation "x <- m ;; k" := (bind m (fun x => k))
  (at level 100, m at next level, right associativity).

(** [xs.map(f)] for an [f] that may throw: left to right, stopping at the
    first exception. *)
Fixpoint mapM {A B} (f : A -> Result B) (xs : list A) : Result (list B) :=
  match xs with
  | [] => Ok []
  | x :: xs' => y <- f x ;; ys <- mapM f xs' ;; Ok (y :: ys)
  end.

(** [arr[i]] for an integer [i]. *)
Definition js_get {A} (arr : list A) (i : Z) : option A :=
  if decide (0 <= i) then arr !! Z.to_nat i else None.

(** [arr.length]. *)
Definition js_length {A} (arr : list A) : Z := Z.of_nat (length arr).

(** [arr.indexOf(x)]: position of the first element strictly equal to [x],
    or [-1]. *)
Fixpoint indexOf `{EqDecision A} (arr : list A) (x : A) : Z :=
  match arr with
  | [] => -1
  | y :: arr' =>
      if decide (y = x) then 0
      else let k := indexOf arr' x in
           if decide (k = -1) then -1 else k + 1
  end.

(** A JavaScript number, as far as comparisons with an integer index can
    tell: every finite double is a rational. *)
Inductive JsNumber :=
  | NaN
  | NegInfinity
  | PosInfinity
  | Finite (q : Q).

(** [op == value], [op < value] and [op <= value] for an integer [op]. *)
Definition num_eq (op : Z) (value : JsNumber) : bool :=
  match value with
  | Finite q => Qeq_bool (inject_Z op) q
  | _ => false
  end.

Definition num_lt (op : Z) (value : JsNumber) : bool :=
  match value with
  | Finite q => negb (Qle_bool q (inject_Z op))
  | PosInfinity => true
  | _ => false
  end.

Definition num_le (op : Z) (value : JsNumber) : bool :=
  match value with
  | Finite q => Qle_bool (inject_Z op) q
  | PosInfinity => true
  | _ => false
  end.

Definition num_gt (op : Z) (value : JsNumber) : bool :=
  match value with
  | Finite q => negb (Qle_bool (inject_Z op) q)
  | NegInfinity => true
  | _ => false
  end.

Definition num_ge (op : Z) (value : JsNumber) : bool :=
  match value with
  | Finite q => Qle_bool q (inject_Z op)
  | NegInfinity => true
  | _ => false
  end.

(** What the sources use of the host language: the builtin [Number]
    conversion of a string. *)
Class JsHost := { Number : string -> JsNumber }.

(** ** Rules *)

(** The [index] field of a rule: a number, an array of numbers, or an
    equality-expression string. *)
Inductive IndexSpec :=
  | IndexNum (n : Z)
  | IndexList (l : list Z)
  | IndexStr (s : string).

(** The [col] or [row] field of a rule. *)
Inductive SelectorInput :=
  | SelUndefined
  | SelAny
  | SelIndex (n : Z)
  | SelList (l : list Z).

(** A rule object.  The sources probe for the presence of fields, so a rule
    is a record of optional fields ([None] is [undefined]) and not a tagged
    variant. *)
Inductive Rule := mkRule {
  index : option IndexSpec;
  col : SelectorInput;
  row : SelectorInput;
  val : option Value;
  allOf : option (list Rule)
}.

Definition indexRule (i : IndexSpec) : Rule :=
  mkRule (Some i) SelUndefined SelUndefined None None.
Definition colValRule (c : SelectorInput) (v : Value) : Rule :=
  mkRule None c SelUndefined (Some v) None.
Definition rowValRule (r : SelectorInput) (v : Value) : Rule :=
  mkRule None SelUndefined r (Some v) None.
Definition allOfRule (rules : list Rule) : Rule :=
  mkRule None SelUndefined SelUndefined None (Some rules).

(** The three [rules.filter(...)] predicates of the sources. *)
Definition hasIndex (e : Rule) : Prop := index e <> None.
Definition hasVal (e : Rule) : Prop := val e <> None.
Definition hasAllOf (e : Rule) : Prop := allOf e <> None.

#[global] Instance IndexSpec_eq_dec : EqDecision IndexSpec.
Proof. solve_decision. Defined.
#[global] Instance hasIndex_dec e : Decision (hasIndex e).
Proof. unfold hasIndex. apply _. Defined.
#[global] Instance hasVal_dec e : Decision (hasVal e).
Proof. unfold hasVal. apply _. Defined.
#[global] Instance hasAllOf_dec e : Decision (hasAllOf e).
Proof. unfold hasAllOf. destruct (allOf e); [left|right]; naive_solver. Defined.

(** ** refine_util.js: selectors and equality expressions *)

Inductive PreparedIndices :=
  | ANY_OPT
  | Indices (l : list Z).

Definition prepareListOfIndices (input : SelectorInput) : PreparedIndices :=
  match input with
  | SelUndefined | SelAny => ANY_OPT
  | SelList l => Indices l
  | SelIndex n => Indices [n]
  end.

Definition Evaluator := Z -> bool.

(** The operator table.  Its keys are two characters long; no property that
    an object inherits has a two-character name, so a lookup sees the own
    keys only. *)
Definition equalityStrategies : gmap string (JsNumber -> Evaluator) :=
  {[ "==" := fun value op => num_eq op value;
     "> " := fun value op => num_gt op value;
     ">=" := fun value op => num_ge op value;
     "< " := fun value op => num_lt op value;
     "<=" := fun value op => num_le op value;
     "!=" := fun value op => negb (num_eq op value) ]}.

Section refine_util.
Context `{JsHost}.

(** Returns [Ok None] for [null].  Calling the result of the table lookup
    comes before the test for [undefined] in the source, so an operator
    that is not a key raises a [TypeError]. *)
Definition createEqualityEvaluator (inequality : string)
  : Result (option Evaluator) :=
  if decide (String.length inequality < 3)%nat then Ok None
  else
    let operator := String.substring 0 2 inequality in
    let value :=
      Number (String.substring 2 (String.length inequality - 2) inequality) in
    match equalityStrategies !! operator with
    | None => Throw TypeError
    | Some strategy => Ok (Some (strategy value))
    end.

(** The [ignoreRowRules.map(...)] of [createKeepIndexChecker], which fills
    [ignoreRows] and [ignoreRowEvaluators] as it goes. *)
Fixpoint collectIndexRules (ignoreRowRules : list Rule)
    (ignoreRows : list Z) (ignoreRowEvaluators : list (option Evaluator))
  : Result (list Z * list (option Evaluator)) :=
  match ignoreRowRules with
  | [] => Ok (ignoreRows, ignoreRowEvaluators)
  | e :: rest =>
      match index e with
      | Some (IndexList l) =>
          collectIndexRules rest (ignoreRows ++ l) ignoreRowEvaluators
      | Some (IndexStr s) =>
          ev <- createEqualityEvaluator s ;;
          collectIndexRules rest ignoreRows (ignoreRowEvaluators ++ [ev])
      | Some (IndexNum n) =>
          collectIndexRules rest (ignoreRows ++ [n]) ignoreRowEvaluators
      | None => collectIndexRules rest ignoreRows ignoreRowEvaluators
      end
  end.

(** The evaluator loop of the returned checker; calling a [null]
    evaluator raises a [TypeError]. *)
Fixpoint runEvaluators (ignoreRowEvaluators : list (option Evaluator))
    (rowIndex : Z) (passesEqualityTests : bool) : Result bool :=
  match ignoreRowEvaluators with
  | [] => Ok passesEqualityTests
  | None :: _ => Throw TypeError
  | Some ev :: rest =>
      runEvaluators rest rowIndex
        (if negb (ev rowIndex) then false else passesEqualityTests)
  end.

Definition keepIndexChecker (ignoreRows : list Z)
    (ignoreRowEvaluators : list (option Evaluator)) (rowIndex : Z)
  : Result bool :=
  let ignoreByIndex := bool_decide (indexOf ignoreRows rowIndex <> -1) in
  let numEvaluators := js_length ignoreRowEvaluators in
  passesEqualityTests <- runEvaluators ignoreRowEvaluators rowIndex true ;;
  Ok (negb ignoreByIndex
      && (bool_decide (numEvaluators = 0) || negb passesEqualityTests)).

Definition createKeepIndexChecker (rules : list Rule)
  : Result (Z -> Result bool) :=
  let ignoreRowRules := filter hasIndex rules in
  collected <- collectIndexRules ignoreRowRules [] [] ;;
  if decide (length ignoreRowRules = 0%nat) then Ok (fun rowIndex => Ok true)
  else Ok (keepIndexChecker collected.1 collected.2).
End refine_util.

(** ** refine_util.js: RuleCombiner *)

Record RuleCombiner := mkRuleCombiner {
  combineWithAnd : bool;
  clauseResults : list bool
}.

(** [new RuleCombiner(combineWithAnd)]. *)
Definition newRuleCombiner (cwa : bool) : RuleCombiner :=
  mkRuleCombiner cwa [].

(** [this.clauseResults.push(clauseResult)]. *)
Definition reportShouldKeep (rc : RuleCombiner) (clauseResult : bool)
  : RuleCombiner :=
  mkRuleCombiner (combineWithAnd rc) (clauseResults rc ++ [clauseResult]).

Definition shouldKeep (rc : RuleCombiner) : bool :=
  if combineWithAnd rc then
    bool_decide (indexOf (clauseResults rc) false = -1)
  else
    let allClausesFailed := bool_decide (indexOf (clauseResults rc) true = -1) in
    negb allClausesFailed.

(** Reporting a sequence of clause results, one call after the other. *)
Definition reportAll (rc : RuleCombiner) (results : list bool) : RuleCombiner :=
  foldl reportShouldKeep rc results.

(** ** Callbacks *)

(** What a call of [refine], or of one strategy, amounts to for its caller.
    The sources call [onSuccess] and [onError] in tail position only, so the
    caller's two callbacks are modelled as the continuations of the call. *)
Inductive Outcome :=
  | SuccessCalled (result : Table)
  | ErrorCalled (msg : string)
  | Uncaught (e : JsError)
  | Returned.

(** [Returned]: the call came back without having invoked a callback. *)

(** ** row_filter.js *)

Definition KeepFunc := Row -> Z -> Result bool.

(** The scan of a rule whose selector is [ANY_OPT]. *)
Fixpoint keepRowValAny (targetVal : option Value) (cells : Row) : bool :=
  match cells with
  | [] => true
  | cell :: rest =>
      if bool_decide (Some cell = targetVal) then false
      else keepRowValAny targetVal rest
  end.

(** The scan of a rule with a list of columns. *)
Fixpoint keepRowValCols (targetVal : option Value) (targetCols : list Z)
    (row : Row) : bool :=
  match targetCols with
  | [] => true
  | currentCol :: rest =>
      let hasCol := bool_decide (currentCol < js_length row) in
      if hasCol && bool_decide (js_get row currentCol = targetVal) then false
      else keepRowValCols targetVal rest row
  end.

(** The function built for one rule by the [map] of
    [createKeepRowValFuncs]. *)
Definition keepRowValFunc (rule : Rule) : KeepFunc :=
  let targetCol := col rule in
  let targetVal := val rule in
  let targetCols := prepareListOfIndices targetCol in
  match targetCols with
  | ANY_OPT => fun row rowIndex => Ok (keepRowValAny targetVal row)
  | Indices targetCols =>
      fun row rowIndex => Ok (keepRowValCols targetVal targetCols row)
  end.

Definition createKeepRowValFuncs (ignoreValueRules : list Rule)
  : list KeepFunc :=
  map keepRowValFunc ignoreValueRules.

(** The loop reporting every function's answer to the combiner. *)
Fixpoint reportFuncs (ruleCombiner : RuleCombiner)
    (shouldKeepFuncs : list KeepFunc) (row : Row) (rowIndex : Z)
  : Result RuleCombiner :=
  match shouldKeepFuncs with
  | [] => Ok ruleCombiner
  | targetFunc :: rest =>
      clauseResult <- targetFunc row rowIndex ;;
      reportFuncs (reportShouldKeep ruleCombiner clauseResult) rest row rowIndex
  end.

(** The three-way choice of [shouldKeepFunc] at the end of
    [createRowKeepFunc]. *)
Definition chooseKeepFunc (hasIgnoreRules : bool)
    (shouldKeepIndex : Z -> Result bool) (shouldKeepFuncs : list KeepFunc)
    (combinedWithAnd : bool) : KeepFunc :=
  if negb hasIgnoreRules then
    fun row rowIndex =>
      let ruleCombiner := newRuleCombiner combinedWithAnd in
      ruleCombiner <- reportFuncs ruleCombiner shouldKeepFuncs row rowIndex ;;
      Ok (shouldKeep ruleCombiner)
  else if bool_decide (length shouldKeepFuncs = 0%nat) then
    fun row rowIndex => shouldKeepIndex rowIndex
  else
    fun row rowIndex =>
      let ruleCombiner := newRuleCombiner combinedWithAnd in
      indexResult <- shouldKeepIndex rowIndex ;;
      let ruleCombiner := reportShouldKeep ruleCombiner indexResult in
      ruleCombiner <- reportFuncs ruleCombiner shouldKeepFuncs row rowIndex ;;
      Ok (shouldKeep ruleCombiner).

Section row_filter.
Context `{JsHost}.

(** The body of [createRowKeepFunc], given the functions built for the
    [allOf] groups of [rules]. *)
Definition assembleRowKeepFunc (rules : list Rule) (combinedWithAnd : bool)
    (shouldKeepCombinedFuncs : Result (list KeepFunc)) : Result KeepFunc :=
  let ignoreRowRules := filter hasIndex rules in
  let hasIgnoreRules := bool_decide (0 < length ignoreRowRules)%nat in
  shouldKeepIndex <- createKeepIndexChecker rules ;;
  let ignoreValueRules := filter hasVal rules in
  let shouldKeepValueFuncs := createKeepRowValFuncs ignoreValueRules in
  shouldKeepCombinedFuncs <- shouldKeepCombinedFuncs ;;
  let shouldKeepFuncs := shouldKeepValueFuncs ++ shouldKeepCombinedFuncs in
  Ok (chooseKeepFunc hasIgnoreRules shouldKeepIndex shouldKeepFuncs
        combinedWithAnd).

(** [createRowKeepFunc(group.allOf, false)].  The recursion of
    [createRowKeepFunc] goes through the [allOf] field of a rule, so it is
    written by recursion on the rule; [createRowKeepFunc_allOf] below
    gives the equation of the source.  A rule without [allOf] would have
    [undefined.filter] raise a [TypeError]. *)
Fixpoint allOfKeepFunc (group : Rule) : Result KeepFunc :=
  match allOf group with
  | None => Throw TypeError
  | Some rules =>
      assembleRowKeepFunc rules false
        ((fix combined (rs : list Rule) : Result (list KeepFunc) :=
            match rs with
            | [] => Ok []
            | r :: rest =>
                match allOf r with
                | None => combined rest
                | Some _ =>
                    f <- allOfKeepFunc r ;;
                    fs <- combined rest ;;
                    Ok (f :: fs)
                end
            end) rules)
  end.

(** [ignoreCombinedValueRules.map(...)] over the rules that carry
    [allOf]. *)
Definition combinedKeepFuncs (rules : list Rule) : Result (list KeepFunc) :=
  mapM allOfKeepFunc (filter hasAllOf rules).

Definition createRowKeepFunc (rules : list Rule) (combinedWithAnd : bool)
  : Result KeepFunc :=
  assembleRowKeepFunc rules combinedWithAnd (combinedKeepFuncs rules).

(** The loop of [ignoreRowIf] over the rows, from [rowIndex] on. *)
Fixpoint keepRows (shouldKeepFunc : KeepFunc) (targetRows : Table)
    (rowIndex : Z) : Result Table :=
  match targetRows with
  | [] => Ok []
  | targetRow :: rest =>
      keep <- shouldKeepFunc targetRow rowIndex ;;
      retVal <- keepRows shouldKeepFunc rest (rowIndex + 1) ;;
      Ok (if keep : bool then targetRow :: retVal else retVal)
  end.

Definition ignoreRowIf (targetRows : Table) (params : list Rule)
    (onSuccess : Table -> Outcome) (onError : string -> Outcome) : Outcome :=
  match (shouldKeepFunc <- createRowKeepFunc params true ;;
         keepRows shouldKeepFunc targetRows 0) with
  | Ok retVal => onSuccess retVal
  | Throw e => Uncaught e
  end.
End row_filter.

(** ** col_filter.js *)

(** The inner loop of [checkRows] in [findColsByVal]: the columns of one row
    that hold the value, from [colIndex] on. *)
Fixpoint matchedColsOfRow (targetVal : option Value) (cells : Row)
    (colIndex : Z) : list Z :=
  match cells with
  | [] => []
  | cell :: rest =>
      if bool_decide (Some cell = targetVal)
      then colIndex :: matchedColsOfRow targetVal rest (colIndex + 1)
      else matchedColsOfRow targetVal rest (colIndex + 1)
  end.

(** [checkRows] of [findColsByVal].  A row is [None] when it was fetched
    from a position the table does not have; reading its [length] raises a
    [TypeError]. *)
Fixpoint checkRowsByVal (targetVal : option Value)
    (targetRows : list (option Row)) : Result (list Z) :=
  match targetRows with
  | [] => Ok []
  | None :: _ => Throw TypeError
  | Some targetRow :: rest =>
      more <- checkRowsByVal targetVal rest ;;
      Ok (matchedColsOfRow targetVal targetRow 0 ++ more)
  end.

Fixpoint findColsByVal (valueIndexIgnoreRules : list Rule) (targetRows : Table)
  : Result (list Z) :=
  match valueIndexIgnoreRules with
  | [] => Ok []
  | currentRule :: rest =>
      let rowIndices := prepareListOfIndices (row currentRule) in
      found <-
        match rowIndices with
        | ANY_OPT => checkRowsByVal (val currentRule) (map Some targetRows)
        | Indices rowIndices =>
            let numRows := js_length targetRows in
            let rowIndices := filter (fun i => i < numRows) rowIndices in
            let ruleRows := map (fun i => js_get targetRows i) rowIndices in
            checkRowsByVal (val currentRule) ruleRows
        end ;;
      more <- findColsByVal rest targetRows ;;
      Ok (found ++ more)
  end.

(** [checkRows] of [findColsByCombinedVals]: is the value found at
    [colIndex] in one of the rows; returns at the first hit. *)
Fixpoint checkRowsAtCol (targetRows : list (option Row))
    (targetVal : option Value) (colIndex : Z) : Result bool :=
  match targetRows with
  | [] => Ok false
  | None :: _ => Throw TypeError
  | Some targetRow :: rest =>
      if bool_decide (colIndex < js_length targetRow)
         && bool_decide (js_get targetRow colIndex = targetVal)
      then Ok true
      else checkRowsAtCol rest targetVal colIndex
  end.

(** The loop of [runValueSearchRules] over the sub-rules. *)
Fixpoint runValueSearchRules (valueSearchRules : list Rule)
    (targetRows : Table) (colIndex : Z) (matched : bool) : Result bool :=
  match valueSearchRules with
  | [] => Ok matched
  | subRule :: rest =>
      let rowIndices := prepareListOfIndices (row subRule) in
      found <-
        match rowIndices with
        | ANY_OPT => checkRowsAtCol (map Some targetRows) (val subRule) colIndex
        | Indices rowIndices =>
            let ruleRows := map (fun i => js_get targetRows i) rowIndices in
            checkRowsAtCol ruleRows (val subRule) colIndex
        end ;;
      runValueSearchRules rest targetRows colIndex
        (if negb found then false else matched)
  end.

(** [for (i = 0; i < numCols; i++) if (!indexChecker(i)) push(i)], over the
    column numbers [cols]. *)
Fixpoint colsFailingIndexCheck (indexChecker : Z -> Result bool)
    (cols : list Z) : Result (list Z) :=
  match cols with
  | [] => Ok []
  | i :: rest =>
      keep <- indexChecker i ;;
      more <- colsFailingIndexCheck indexChecker rest ;;
      Ok (if negb keep then i :: more else more)
  end.

(** [targetRows[0].length]. *)
Definition firstRowLength (targetRows : Table) : Result Z :=
  match js_get targetRows 0 with
  | None => Throw TypeError
  | Some firstRow => Ok (js_length firstRow)
  end.

(** The last loop of [findColsByCombinedVals]. *)
Fixpoint examineCols (valueSearchRules : list Rule) (targetRows : Table)
    (examineAllCols : bool) (colsToExamine : list Z) (cols : list Z)
  : Result (list Z) :=
  match cols with
  | [] => Ok []
  | colIndex :: rest =>
      if examineAllCols || bool_decide (indexOf colsToExamine colIndex <> -1)
      then
        matched <- runValueSearchRules valueSearchRules targetRows colIndex true ;;
        more <- examineCols valueSearchRules targetRows examineAllCols
                  colsToExamine rest ;;
        Ok (if matched : bool then colIndex :: more else more)
      else
        examineCols valueSearchRules targetRows examineAllCols colsToExamine rest
  end.

(** [removeCols]: the row loop keeps the cells whose position is not found
    in [cols]. *)
Fixpoint removeColsOfRow (cols : list Z) (cells : Row) (i : Z) : Row :=
  match cells with
  | [] => []
  | cell :: rest =>
      if bool_decide (indexOf cols i = -1)
      then cell :: removeColsOfRow cols rest (i + 1)
      else removeColsOfRow cols rest (i + 1)
  end.

Definition removeCols (targetRows : Table) (cols : list Z) : Table :=
  map (fun row => removeColsOfRow cols row 0) targetRows.

Section col_filter.
Context `{JsHost}.

(** The value computed first for [numCols] ([findMaxNumCols]) is
    overwritten before it is read and cannot raise; it is left out. *)
Definition findColsByCombinedVals (rules : list Rule) (targetRows : Table)
  : Result (list Z) :=
  let valueSearchRules := filter hasVal rules in
  let indexRules := filter hasIndex rules in
  numCols <- firstRowLength targetRows ;;
  indexChecker <- createKeepIndexChecker indexRules ;;
  colsToExamine <- colsFailingIndexCheck indexChecker (seqZ 0 numCols) ;;
  let examineAllCols := bool_decide (length colsToExamine = 0%nat) in
  examineCols valueSearchRules targetRows examineAllCols colsToExamine
    (seqZ 0 numCols).

(** The columns named by the index rules of [params]. *)
Definition colsByIndex (params : list Rule) (targetRows : Table)
  : Result (list Z) :=
  let colIndexIgnoreRules := filter hasIndex params in
  indexChecker <- createKeepIndexChecker colIndexIgnoreRules ;;
  numCols <- firstRowLength targetRows ;;
  colsFailingIndexCheck indexChecker (seqZ 0 numCols).

(** The columns found by the [allOf] groups of [params], group after
    group.  A rule reaches this loop only with [allOf] present. *)
Fixpoint colsByAllOf (combineRules : list Rule) (targetRows : Table)
  : Result (list Z) :=
  match combineRules with
  | [] => Ok []
  | group :: rest =>
      found <- match allOf group with
               | Some rules => findColsByCombinedVals rules targetRows
               | None => Throw TypeError
               end ;;
      more <- colsByAllOf rest targetRows ;;
      Ok (found ++ more)
  end.

Definition ignoreColIf (targetRows : Table) (params : list Rule)
    (onSuccess : Table -> Outcome) (onError : string -> Outcome) : Outcome :=
  match (byIndex <- colsByIndex params targetRows ;;
         byVal <- findColsByVal (filter hasVal params) targetRows ;;
         byAllOf <- colsByAllOf (filter hasAllOf params) targetRows ;;
         let colIndicesToIgnore := byIndex ++ byVal ++ byAllOf in
         Ok (removeCols targetRows colIndicesToIgnore)) with
  | Ok retVal => onSuccess retVal
  | Throw e => Uncaught e
  end.
End col_filter.

(** ** The refine orchestrator *)

(** The names [refineStrategies] is keyed by. *)
Definition recognizedNames : list string :=
  ["ignoreRowIf"; "ignoreColIf"; "replace"; "interpretStr"; "transpose"].

Section refine.
Context `{JsHost}.

(** The orchestrator hands [operation.param] on without looking at it.
    [asRules] reads a parameter as an array of rule objects; it is [None]
    for a parameter that is no array, on which [params.filter] raises a
    [TypeError]. *)
Context {Param : Type} (asRules : Param -> option (list Rule)).

Definition Strategy : Type :=
  Table -> Param -> (Table -> Outcome) -> (string -> Outcome) -> Outcome.

(** The strategies of str_ops.js and structure_ops.js are not the subject
    of this development. *)
Context (replace interpretStr transpose : Strategy).

(** The properties every JavaScript object inherits ([toString],
    [constructor], ...), as far as the dispatch can reach them: what
    calling the inherited property as a strategy does. *)
Context (objectPrototype : string -> option Strategy).

Definition onRules
    (f : Table -> list Rule -> (Table -> Outcome) -> (string -> Outcome)
         -> Outcome) : Strategy :=
  fun targetRows param onSuccess onError =>
    match asRules param with
    | Some rules => f targetRows rules onSuccess onError
    | None => Uncaught TypeError
    end.

Definition refineStrategies : gmap string Strategy :=
  {[ "ignoreRowIf" := onRules ignoreRowIf;
     "ignoreColIf" := onRules ignoreColIf;
     "replace" := replace;
     "interpretStr" := interpretStr;
     "transpose" := transpose ]}.

Record Operation := mkOperation {
  operation : string;
  param : Param
}.

(** [refineStrategies[operation.operation]]: an own key, else an inherited
    property, else [undefined]. *)
Definition lookupStrategy (name : string) : option Strategy :=
  match refineStrategies !! name with
  | Some strategy => Some strategy
  | None => objectPrototype name
  end.

Definition executeOperation (op : Operation) (targetRows : Table)
    (onSuccess : Table -> Outcome) (onError : string -> Outcome) : Outcome :=
  match lookupStrategy (operation op) with
  | None => Uncaught TypeError
  | Some strategy => strategy targetRows (param op) onSuccess onError
  end.

(** [async.reduce(arr, memo, iterator, callback)] of the async library:
    the elements are handed to [iterator] one after the other, each with
    the value its predecessor passed on; the first error ends the
    reduction.  A node-style [callback(err, value)] is a function on
    [string + Table]. *)
Fixpoint asyncReduce (arr : list Operation) (memo : Table)
    (iterator : Table -> Operation -> (string + Table -> Outcome) -> Outcome)
    (callback : string + Table -> Outcome) : Outcome :=
  match arr with
  | [] => callback (inr memo)
  | x :: rest =>
      iterator memo x (fun result =>
        match result with
        | inl err => callback (inl err)
        | inr v => asyncReduce rest v iterator callback
        end)
  end.

Definition genericErrorHandler (err : string) : Outcome :=
  Uncaught (Error err).

(** [refine] with a list of operations; [onError] is [None] when the
    caller passes no handler. *)
Definition refine (operations : list Operation) (targetRows : Table)
    (onSuccess : Table -> Outcome) (onError : option (string -> Outcome))
  : Outcome :=
  let onError := default genericErrorHandler onError in
  let executeOperationClosure :=
    fun targetRows op callback =>
      let innerOnError := fun err => callback (inl err) in
      let innerOnSuccess := fun newTargetRows => callback (inr newTargetRows) in
      executeOperation op targetRows innerOnSuccess innerOnError in
  asyncReduce operations targetRows executeOperationClosure
    (fun result =>
       match result with
       | inl error => onError error
       | inr newTargetRows => onSuccess newTargetRows
       end).
End refine.

(** Stand-in for the three strategies that are not modelled, in the
    concrete examples; no example dispatches to it. *)
Definition standIn {Param : Type} : @Strategy Param :=
  fun targetRows _ onSuccess _ => onSuccess targetRows.

(** The properties of [Object.prototype], called as a strategy, that is
    without a receiver (ECMAScript 5.1, 15.2.4 and annex B): [constructor]
    and [toString] return, the others fail to convert the missing receiver,
    or are no function; none of them invokes a callback. *)
Definition es5ObjectPrototype {Param : Type} (name : string)
  : option (@Strategy Param) :=
  if decide (name ∈ ["constructor"; "toString"]) then
    Some (fun _ _ _ _ => Returned)
  else if decide (name ∈ ["toLocaleString"; "valueOf"; "hasOwnProperty";
                          "isPrototypeOf"; "propertyIsEnumerable"; "__proto__";
                          "__defineGetter__"; "__defineSetter__";
                          "__lookupGetter__"; "__lookupSetter__"]) then
    Some (fun _ _ _ _ => Uncaught TypeError)
  else None.

(** ** A concrete host *)

Definition digitValue (a : Ascii.ascii) : option Z :=
  let n := Z.of_N (Ascii.N_of_ascii a) in
  if decide (48 <= n <= 57) then Some (n - 48) else None.

Fixpoint readDigits (s : string) (acc : Z) : option Z :=
  match s with
  | EmptyString => Some acc
  | String a rest =>
      match digitValue a with
      | Some d => readDigits rest (10 * acc + d)
      | None => None
      end
  end.

Definition readInteger (s : string) : JsNumber :=
  match s with
  | EmptyString => Finite 0
  | String a rest =>
      let signed (sign : Z) :=
        match rest with
        | EmptyString => NaN
        | _ => from_option (fun n => Finite (inject_Z (sign * n))) NaN
                 (readDigits rest 0)
        end in
      if decide (Ascii.N_of_ascii a = 45%N) then signed (-1)
      else if decide (Ascii.N_of_ascii a = 43%N) then signed 1
      else from_option (fun n => Finite (inject_Z n)) NaN (readDigits s 0)
  end.

(** A host whose [Number] reads the empty string and optionally signed
    decimal integer literals as the builtin does, and answers [NaN]
    elsewhere.  The examples below apply it to integer literals and to
    text without a numeric reading only. *)
Definition integerHost : JsHost := {| Number := readInteger |}.

(** ** Notions of the specification *)

(** A selector input selects a position. *)
Definition selects (input : SelectorInput) (c : Z) : Prop :=
  match input with
  | SelUndefined | SelAny => True
  | SelIndex n => c = n
  | SelList l => c ∈ l
  end.

(** A row matches a value rule: the rule's value is found at a selected
    position that the row has. *)
Definition RowMatches (rule : Rule) (row : Row) : Prop :=
  exists c v, val rule = Some v /\ selects (col rule) c /\ js_get row c = Some v.

(** A plain value rule: a value to look for and nothing else to probe. *)
Definition isValueRule (rule : Rule) : Prop :=
  index rule = None /\ allOf rule = None /\ val rule <> None.

(** An equality expression the operator table can read. *)
Definition wellFormedExpr (s : string) : Prop :=
  (3 <= String.length s)%nat
  /\ is_Some (equalityStrategies !! String.substring 0 2 s).

(** Every equality expression of a rule, and of the groups below it, is
    well formed. *)
Fixpoint wellFormedRule (rule : Rule) : Prop :=
  match index rule with
  | Some (IndexStr s) => wellFormedExpr s
  | _ => True
  end
  /\ match allOf rule with
     | None => True
     | Some rules =>
         (fix all (rs : list Rule) : Prop :=
            match rs with
            | [] => True
            | r :: rest => wellFormedRule r /\ all rest
            end) rules
     end.

(** A row without the cells at the positions in [drop]. *)
Definition omitCols (drop : gset Z) (row : Row) : Row :=
  (filter (fun p => p.1 ∉ drop) (zip (seqZ 0 (js_length row)) row)).*2.

(** The answers of a list of functions on one row, in order. *)
Definition votesOf (funcs : list KeepFunc) (row : Row) (rowIndex : Z)
  : list (Result bool) :=
  map (fun f => f row rowIndex) funcs.

(** The decision a combiner reaches on a list of votes, when every vote
    returns. *)
Definition combineVotes (combinedWithAnd : bool) (votes : list (Result bool))
  : Result bool :=
  bs <- mapM id votes ;;
  Ok (if combinedWithAnd then forallb id bs else existsb id bs).

Definition returns (vote : Result bool) : Prop := exists b, vote = Ok b.

(** The equality expression in the index field of a rule, if it has one,
    is well formed. *)
Definition wellFormedIndex (rule : Rule) : Prop :=
  match index rule with
  | Some (IndexStr s) => wellFormedExpr s
  | _ => True
  end.

(** Does [createRowKeepFunc] report the index predicate for [rules]
    ([hasIgnoreRules] in the source). *)
Definition reportsIndex (rules : list Rule) : bool :=
  bool_decide (0 < length (filter hasIndex rules))%nat.

(** A row predicate that returns on every row. *)
Definition answers (f : KeepFunc) : Prop :=
  forall row rowIndex, returns (f row rowIndex).

(** ** Example inputs *)

(** An index rule, a value rule and a group, at top level. *)
Definition mixedRules : list Rule :=
  [ indexRule (IndexNum 1);
    colValRule (SelIndex 0) (VStr "A");
    allOfRule [colValRule SelAny (VStr "B"); colValRule (SelIndex 1) (VStr "x")] ].

(** A group with an index rule and a value rule. *)
Definition indexedGroup : list Rule :=
  [indexRule (IndexNum 1); colValRule (SelIndex 0) (VStr "A")].

(** Two value rules; the second names a column no row below has. *)
Definition twoValueRules : list Rule :=
  [colValRule (SelIndex 0) (VStr "A"); colValRule (SelList [2; 7]) (VStr "B")].

(** The two value rules of the README example. *)
Definition readmeGroup : list Rule :=
  [ colValRule (SelIndex 0) (VStr "targetVal1");
    colValRule (SelIndex 2) (VStr "targetVal2") ].

(** A value rule, an empty group and a well-formed equality expression. *)
Definition rulesWithEmptyGroup : list Rule :=
  [ colValRule (SelIndex 0) (VStr "A");
    allOfRule [];
    indexRule (IndexStr ">=1") ].

(** A ragged table, and rules of the three kinds that all find column 0. *)
Definition raggedTable : Table :=
  [ [VStr "A"; VStr "B"]; [VStr "x"; VStr "A"; VStr "C"] ].

Definition columnRules : list Rule :=
  [ rowValRule SelAny (VStr "A");
    indexRule (IndexNum 0);
    allOfRule [rowValRule (SelIndex 0) (VStr "A")] ].

(** A value rule, an index rule and two groups; column 1 of [raggedTable]
    is found by the second group only. *)
Definition unionRules : list Rule :=
  [ rowValRule SelAny (VStr "x");
    indexRule (IndexNum 0);
    allOfRule [rowValRule (SelIndex 0) (VStr "A")];
    allOfRule [rowValRule (SelIndex 0) (VStr "B")] ].

(** ** Notions for the index predicate *)

(** The six operators, as the table spells them. *)
Definition operators : list string := ["=="; "> "; ">="; "< "; "<="; "!="].

(** What an operator says of an index [i] and an integer operand [n]. *)
Definition compares (operator : string) (i n : Z) : Prop :=
  if decide (operator = "==") then i = n
  else if decide (operator = "> ") then n < i
  else if decide (operator = ">=") then n <= i
  else if decide (operator = "< ") then i < n
  else if decide (operator = "<=") then i <= n
  else if decide (operator = "!=") then i <> n
  else False.

(** The indices a rule list names by number. *)
Definition listedIndices (rules : list Rule) : list Z :=
  mjoin (map (fun rule =>
                match index rule with
                | Some (IndexNum n) => [n]
                | Some (IndexList l) => l
                | _ => []
                end) rules).

(** The equality expressions of a rule list. *)
Definition indexExpressions (rules : list Rule) : list string :=
  omap (fun rule =>
          match index rule with
          | Some (IndexStr s) => Some s
          | _ => None
          end) rules.

(** An expression too short to be read, and one whose operator is not in
    the table. *)
Definition shortExpr (s : string) : Prop := (String.length s < 3)%nat.
Definition unknownOperator (s : string) : Prop :=
  (3 <= String.length s)%nat
  /\ equalityStrategies !! String.substring 0 2 s = None.

(** Does the expression [s] hold of the index [i]: the answer of the
    evaluator built for [s], when one is built. *)
Definition exprHolds `{JsHost} (s : string) (i : Z) : bool :=
  match createEqualityEvaluator s with
  | Ok (Some ev) => ev i
  | _ => false
  end.

(** The index [i] is excluded by the index rules of a list: it is named by
    number, or there are equality expressions and every one holds. *)
Definition indexExcludes `{JsHost} (rules : list Rule) (i : Z) : Prop :=
  i ∈ listedIndices rules
  \/ (indexExpressions rules <> []
      /\ Forall (fun s => exprHolds s i = true) (indexExpressions rules)).

(** The elements of an array whose position satisfies [P], in order. *)
Definition elementsAt {A} (P : Z -> Prop) `{!forall i, Decision (P i)}
    (arr : list A) : list A :=
  (filter (fun p => P p.1) (zip (seqZ 0 (js_length arr)) arr)).*2.

(** A rule that carries at most an index. *)
Definition isIndexRule (rule : Rule) : Prop :=
  val rule = None /\ allOf rule = None.

(** The column [c] holds the value of a row-value rule: the value is found
    at position [c] of a selected row that the table has. *)
Definition ColumnHolds (targetRows : Table) (rule : Rule) (c : Z) : Prop :=
  exists r cells v,
    val rule = Some v /\ selects (row rule) r
    /\ js_get targetRows r = Some cells /\ js_get cells c = Some v.

(** The row selector of a rule names no negative index. *)
Definition rowsNonNegative (rule : Rule) : Prop :=
  match prepareListOfIndices (row rule) with
  | ANY_OPT => True
  | Indices rowIndices => Forall (fun i => 0 <= i) rowIndices
  end.

(** The row selector of a rule names rows of the table only. *)
Definition rowsInRange (targetRows : Table) (rule : Rule) : Prop :=
  match prepareListOfIndices (row rule) with
  | ANY_OPT => True
  | Indices rowIndices =>
      Forall (fun i => 0 <= i < js_length targetRows) rowIndices
  end.

(** A table obtained from [targetRows] by deleting rows and deleting cells
    of the rows that stay: nothing added, nothing reordered. *)
Definition shrinksTo (targetRows retVal : Table) : Prop :=
  exists kept,
    kept `sublist_of` targetRows
    /\ Forall2 (fun newRow row => newRow `sublist_of` row) retVal kept.

(** The operations implemented by row_filter.js and col_filter.js. *)
Definition filterNames : list string := ["ignoreRowIf"; "ignoreColIf"].

(** ** refine_util.js: findMaxNumCols *)

(** [Math.max.apply(null, numCols)] over the lengths of the rows.  [None]
    stands for [-Infinity], the maximum of no numbers.  The single-file
    module simple_table_refine.js has a function of the same name and the
    same text. *)
Definition findMaxNumCols (targetRows : Table) : option Z :=
  let numCols := map js_length targetRows in
  match numCols with
  | [] => None
  | n :: rest => Some (foldl Z.max n rest)
  end.

(** ** simple_table_refine.js: transpose and the orchestrator *)

(** The single-file module simple_table_refine.js holds the whole library
    in one file: its [transpose] calls the [findMaxNumCols] of the same
    file, and its [refine] dispatches to its own five functions.  (The
    [transpose] that structure_ops.js exports calls a [findMaxNumCols]
    that its module neither defines nor requires; it is not the function
    modelled here.) *)

(** [for (i = 0; i < numCols; i++) retVal.push([])], from the empty array:
    no turn of the loop for [-Infinity]. *)
Definition emptyColumns (numCols : option Z) : Table :=
  match numCols with
  | Some n => replicate (Z.to_nat n) []
  | None => []
  end.

(** The inner loop of [transpose], [for (colIndex in targetRow)], from
    [colIndex] on: [retVal[colIndex].push(targetRow[colIndex])].  A
    [for]-[in] loop over an array visits its indices in ascending order.
    Calling [push] on [undefined] raises a [TypeError]. *)
Fixpoint pushCells (retVal : Table) (targetRow : Row) (colIndex : Z)
  : Result Table :=
  match targetRow with
  | [] => Ok retVal
  | cell :: rest =>
      match js_get retVal colIndex with
      | Some column =>
          pushCells (<[Z.to_nat colIndex := column ++ [cell]]> retVal) rest
            (colIndex + 1)
      | None => Throw TypeError
      end
  end.

(** The outer loop of [transpose], [for (var rowIndex in targetRows)]. *)
Fixpoint pushRows (retVal : Table) (targetRows : Table) : Result Table :=
  match targetRows with
  | [] => Ok retVal
  | targetRow :: rest =>
      retVal' <- pushCells retVal targetRow 0 ;;
      pushRows retVal' rest
  end.

(** [transpose] takes a parameter and an error callback and uses
    neither. *)
Definition transpose {Param : Type} (targetRows : Table) (params : Param)
    (onSuccess : Table -> Outcome) (onError : string -> Outcome) : Outcome :=
  let numCols := findMaxNumCols targetRows in
  match pushRows (emptyColumns numCols) targetRows with
  | Ok retVal => onSuccess retVal
  | Throw e => Uncaught e
  end.

(** The orchestrator of the single-file module: the text of
    [executeOperation] and [refine] is that of the orchestrator above, and
    the dispatch table holds the functions of the file itself.  The four
    other than [transpose] are taken as parameters. *)
Module simple_table_refine.
Section orchestrator.
Context {Param : Type}.
Context (ignoreRowIf ignoreColIf replace interpretStr : @Strategy Param).
Context (objectPrototype : string -> option (@Strategy Param)).

Definition refineStrategies : gmap string (@Strategy Param) :=
  {[ "ignoreRowIf" := ignoreRowIf;
     "ignoreColIf" := ignoreColIf;
     "replace" := replace;
     "interpretStr" := interpretStr;
     "transpose" := transpose ]}.

Definition lookupStrategy (name : string) : option (@Strategy Param) :=
  match refineStrategies !! name with
  | Some strategy => Some strategy
  | None => objectPrototype name
  end.

Definition executeOperation (op : @Operation Param) (targetRows : Table)
    (onSuccess : Table -> Outcome) (onError : string -> Outcome) : Outcome :=
  match lookupStrategy (operation op) with
  | None => Uncaught TypeError
  | Some strategy => strategy targetRows (param op) onSuccess onError
  end.

Definition refine (operations : list (@Operation Param)) (targetRows : Table)
    (onSuccess : Table -> Outcome) (onError : option (string -> Outcome))
  : Outcome :=
  let onError := default genericErrorHandler onError in
  let executeOperationClosure :=
    fun targetRows op callback =>
      let innerOnError := fun err => callback (inl err) in
      let innerOnSuccess := fun newTargetRows => callback (inr newTargetRows) in
      executeOperation op targetRows innerOnSuccess innerOnError in
  asyncReduce operations targetRows executeOperationClosure
    (fun result =>
       match result with
       | inl error => onError error
       | inr newTargetRows => onSuccess newTargetRows
       end).
End orchestrator.
End simple_table_refine.

(** The cells at position [c] of the rows that have one, from the first
    row to the last. *)
Definition columnOf (targetRows : Table) (c : Z) : Row :=
  omap (fun cells => js_get cells c) targetRows.

(** Every row has [n] cells. *)
Definition rectangular (n : Z) (targetRows : Table) : Prop :=
  Forall (fun cells => js_length cells = n) targetRows.

(** ** str_ops.js: replace *)

(** A rule object of [replace].  The source reads its selectors from the
    fields [row] and [col]; beside those of [Rule] the record calls them
    [forRow] and [forCol]. *)
Record ReplaceRule := mkReplaceRule {
  orig : option Value;
  new : option Value;
  forRow : SelectorInput;
  forCol : SelectorInput
}.

(** What [replace] uses of the host language:
    [target.replace(searchValue, replaceValue)] on strings [target] and
    [searchValue]. *)
Class StringHost := {
  stringReplace : string -> string -> option Value -> string
}.

Section str_ops.
Context `{StringHost}.

(** The function built for one rule by the [map] of [replace].  Where
    [rule.orig === target] holds, [rule.orig] is [target]; a number or a
    boolean has no [replace] method, and calling it raises a
    [TypeError]. *)
Definition replaceFunc (rule : ReplaceRule)
  : Value -> Z -> Z -> Result Value :=
  let rows := prepareListOfIndices (forRow rule) in
  let cols := prepareListOfIndices (forCol rule) in
  fun target rowIndex colIndex =>
    if match rows with
       | ANY_OPT => false
       | Indices rows => bool_decide (indexOf rows rowIndex = -1)
       end
    then Ok target
    else if match cols with
            | ANY_OPT => false
            | Indices cols => bool_decide (indexOf cols colIndex = -1)
            end
    then Ok target
    else if bool_decide (orig rule = Some target) then
      match target with
      | VStr s => Ok (VStr (stringReplace s s (new rule)))
      | _ => Throw TypeError
      end
    else Ok target.

(** [runReplaceFuncs]: every function in turn, each on the result of its
    predecessor. *)
Fixpoint runReplaceFuncs (replaceFuncs : list (Value -> Z -> Z -> Result Value))
    (target : Value) (rowIndex colIndex : Z) : Result Value :=
  match replaceFuncs with
  | [] => Ok target
  | func :: rest =>
      target' <- func target rowIndex colIndex ;;
      runReplaceFuncs rest target' rowIndex colIndex
  end.

(** The loop over the cells of one row, from [colIndex] on. *)
Fixpoint replaceCells (replaceFuncs : list (Value -> Z -> Z -> Result Value))
    (targetRow : Row) (rowIndex colIndex : Z) : Result Row :=
  match targetRow with
  | [] => Ok []
  | targetVal :: rest =>
      targetVal' <- runReplaceFuncs replaceFuncs targetVal rowIndex colIndex ;;
      newRow <- replaceCells replaceFuncs rest rowIndex (colIndex + 1) ;;
      Ok (targetVal' :: newRow)
  end.

(** The loop over the rows, from [rowIndex] on. *)
Fixpoint replaceRows (replaceFuncs : list (Value -> Z -> Z -> Result Value))
    (targetRows : Table) (rowIndex : Z) : Result Table :=
  match targetRows with
  | [] => Ok []
  | targetRow :: rest =>
      newRow <- replaceCells replaceFuncs targetRow rowIndex 0 ;;
      retVal <- replaceRows replaceFuncs rest (rowIndex + 1) ;;
      Ok (newRow :: retVal)
  end.

Definition replace (targetRows : Table) (params : list ReplaceRule)
    (onSuccess : Table -> Outcome) (onError : string -> Outcome) : Outcome :=
  let replaceFuncs := map replaceFunc params in
  match replaceRows replaceFuncs targetRows 0 with
  | Ok retVal => onSuccess retVal
  | Throw e => Uncaught e
  end.
End str_ops.

(** A replace rule applies to the value [v] at row [r], column [c]. *)
Definition applies (rule : ReplaceRule) (r c : Z) (v : Value) : Prop :=
  selects (forRow rule) r /\ selects (forCol rule) c /\ orig rule = Some v.

Definition isString (v : Value) : Prop := exists s, v = VStr s.

(** Some rule applies to a cell that holds a number or a boolean. *)
Definition replaceFails (params : list ReplaceRule) (targetRows : Table)
  : Prop :=
  exists r cells c v rule,
    js_get targetRows r = Some cells /\ js_get cells c = Some v
    /\ ~ isString v /\ rule ∈ params /\ applies rule r c v.

(** A cell on which [runReplaceFuncs] raises. *)
Definition cellFails (params : list ReplaceRule) (r c : Z) (v : Value)
  : Prop :=
  ~ isString v /\ Exists (fun rule => applies rule r c v) params.

(** The value a cell ends with: every rule in turn replaces the string
    reached so far, if it applies to it. *)
Definition rewriteCell `{StringHost}
    `{!forall rule r c v, Decision (applies rule r c v)}
    (params : list ReplaceRule) (r c : Z) (v : Value) : Value :=
  foldl (fun target rule =>
           match target with
           | VStr s =>
               if decide (applies rule r c target)
               then VStr (stringReplace s s (new rule)) else target
           | _ => target
           end) v params.

(** ** A concrete string host *)

(** The first occurrence of [search] in [target] replaced by [text]. *)
Fixpoint replaceFirst (target search text : string) : string :=
  if String.prefix search target
  then text +:+ String.substring (String.length search)
                  (String.length target - String.length search) target
  else match target with
       | EmptyString => EmptyString
       | String a rest => String a (replaceFirst rest search text)
       end.

(** The decimal digits of a natural number, before [acc]. *)
Fixpoint showDigits (fuel : nat) (n : Z) (acc : string) : string :=
  match fuel with
  | O => acc
  | S fuel' =>
      let acc' := String (Ascii.ascii_of_N (Z.to_N (48 + n mod 10))) acc in
      if decide (n < 10) then acc' else showDigits fuel' (n / 10) acc'
  end.

Definition showInteger (n : Z) : string :=
  if decide (n < 0) then "-" +:+ showDigits (Z.to_nat (- n)) (- n) EmptyString
  else showDigits (S (Z.to_nat n)) n EmptyString.

(** The text a replacement value is converted to. *)
Definition replacementText (newValue : option Value) : string :=
  match newValue with
  | Some (VStr s) => s
  | Some (VNum n) => showInteger n
  | Some (VBool true) => "true"
  | Some (VBool false) => "false"
  | None => "undefined"
  end.

(** A host whose [replace] puts the replacement text in the place of the
    first occurrence of the search string, as the builtin does for a text
    without the character [$].  The examples below use such texts only. *)
Definition literalHost : StringHost :=
  {| stringReplace target search newValue :=
       replaceFirst target search (replacementText newValue) |}.

(** ** Further example inputs *)

(** Index rules of the three kinds. *)
Definition indexRules : list Rule :=
  [ indexRule (IndexNum 0);
    indexRule (IndexList [2; 5]);
    indexRule (IndexStr ">=4") ].

(** A group for the column filter: a value looked for in row 0, among the
    columns from 0 on. *)
Definition columnGroup : list Rule :=
  [rowValRule (SelIndex 0) (VStr "A"); indexRule (IndexStr ">=0")].

(** A value rule whose row selector names a row before the first. *)
Definition negativeRowRule : Rule := rowValRule (SelIndex (-1)) (VStr "A").

(** Two rows of two cells. *)
Definition squareTable : Table :=
  [ [VStr "a"; VStr "b"]; [VStr "c"; VStr "d"] ].

(** A replace rule for column 0, and a row that holds its text in column 1
    only. *)
Definition replaceRules : list ReplaceRule :=
  [mkReplaceRule (Some (VStr "A")) (Some (VStr "B")) SelUndefined (SelIndex 0)].

Definition unmatchedTable : Table := [ [VStr "x"; VStr "A"] ].

(** An operation list of the two filters, with rule lists as parameters. *)
Definition filterOperations : list (@Operation (list Rule)) :=
  [ mkOperation "ignoreRowIf" twoValueRules;
    mkOperation "ignoreColIf" columnRules ].

(** ** Lemmas on the JavaScript primitives *)

Section primitives.
Context `{EqDecision A}.
Implicit Types (arr : list A) (x : A).

Lemma indexOf_lower arr x : -1 <= indexOf arr x.
Proof.
  induction arr as [|y arr IH]; simpl; [lia|].
  repeat case_decide; lia.
Qed.

Lemma indexOf_absent arr x : indexOf arr x = -1 <-> x ∉ arr.
Proof.
  induction arr as [|y arr IH]; simpl.
  - split; [intros _; apply not_elem_of_nil | done].
  - rewrite not_elem_of_cons. pose proof (indexOf_lower arr x).
    repeat case_decide; subst; split; intros; try lia; naive_solver.
Qed.

Lemma indexOf_present arr x : indexOf arr x <> -1 <-> x ∈ arr.
Proof.
  rewrite indexOf_absent. split; [|tauto].
  intros Hn. destruct (decide (x ∈ arr)); tauto.
Qed.
End primitives.

Lemma js_get_Some {A} (arr : list A) i a :
  js_get arr i = Some a <-> 0 <= i /\ arr !! Z.to_nat i = Some a.
Proof. unfold js_get. case_decide; naive_solver. Qed.

Lemma js_get_out_of_range {A} (arr : list A) i :
  js_length arr <= i -> js_get arr i = None.
Proof.
  unfold js_get, js_length. intros Hi. case_decide; [|done].
  apply lookup_ge_None. lia.
Qed.

Lemma bind_Ok {A B} (m : Result A) (k : A -> Result B) b :
  (x <- m ;; k x) = Ok b <-> exists a, m = Ok a /\ k a = Ok b.
Proof. destruct m; simpl; naive_solver. Qed.

(** ** The combiner law *)

Lemma clauseResults_reportAll rc results :
  clauseResults (reportAll rc results) = clauseResults rc ++ results.
Proof.
  revert rc. induction results as [|b results IH]; intros rc; simpl.
  - by rewrite app_nil_r.
  - unfold reportAll in IH. rewrite IH. simpl. by rewrite <- app_assoc.
Qed.

Lemma combineWithAnd_reportAll rc results :
  combineWithAnd (reportAll rc results) = combineWithAnd rc.
Proof.
  revert rc. induction results as [|b results IH]; intros rc; simpl; [done|].
  unfold reportAll in IH. by rewrite IH.
Qed.

Lemma shouldKeep_and results :
  shouldKeep (reportAll (newRuleCombiner true) results) = true
  <-> false ∉ results.
Proof.
  unfold shouldKeep.
  rewrite combineWithAnd_reportAll, clauseResults_reportAll. simpl.
  rewrite bool_decide_eq_true. apply indexOf_absent.
Qed.

Lemma shouldKeep_or results :
  shouldKeep (reportAll (newRuleCombiner false) results) = true
  <-> true ∈ results.
Proof.
  unfold shouldKeep.
  rewrite combineWithAnd_reportAll, clauseResults_reportAll. simpl.
  rewrite negb_true_iff, bool_decide_eq_false. apply indexOf_present.
Qed.

(** C1. For every finite sequence of boolean clause results reported to a
    RuleCombiner, [shouldKeep] answers, in AND mode, true exactly when no
    reported result is false, and in OR mode, true exactly when at least
    one reported result is true; in both modes the answer is the same for
    every permutation of the reported sequence. *)
Theorem rule_combiner_law (results : list bool) :
  (shouldKeep (reportAll (newRuleCombiner true) results) = true
     <-> false ∉ results)
  /\ (shouldKeep (reportAll (newRuleCombiner false) results) = true
     <-> true ∈ results)
  /\ (forall (cwa : bool) (results' : list bool),
        results ≡ₚ results' ->
        shouldKeep (reportAll (newRuleCombiner cwa) results')
        = shouldKeep (reportAll (newRuleCombiner cwa) results)).
Proof.
  split; [apply shouldKeep_and|]. split; [apply shouldKeep_or|].
  intros cwa results' Hp.
  apply eq_true_iff_eq. destruct cwa.
  - rewrite !shouldKeep_and. by rewrite Hp.
  - rewrite !shouldKeep_or. by rewrite Hp.
Qed.
(** ** Unfolding the recursion through [allOf] *)

Section row_filter_equations.
Context `{JsHost}.

(** The equation of the source: the function of a group is
    [createRowKeepFunc(group.allOf, false)]. *)
Lemma createRowKeepFunc_allOf group rules :
  allOf group = Some rules ->
  allOfKeepFunc group = createRowKeepFunc rules false.
Proof.
  destruct group as [i c r v a]; simpl. intros ->.
  unfold createRowKeepFunc, combinedKeepFuncs. f_equal.
  induction rules as [|r' rest IH]; [done|].
  rewrite filter_cons. destruct (decide (hasAllOf r')) as [Hr|Hr].
  - simpl. destruct (allOf r') eqn:E; [|by destruct Hr].
    by rewrite IH.
  - unfold hasAllOf in Hr. destruct (allOf r') eqn:E; [by destruct Hr|].
    apply IH.
Qed.

Lemma combinedKeepFuncs_map rules :
  combinedKeepFuncs rules
  = mapM (fun group => createRowKeepFunc (default [] (allOf group)) false)
      (filter hasAllOf rules).
Proof.
  unfold combinedKeepFuncs.
  induction rules as [|r rest IH]; [done|].
  rewrite filter_cons. case_decide as Hr; [|done].
  simpl. rewrite IH. unfold hasAllOf in Hr.
  destruct (allOf r) as [rules|] eqn:E; [|done].
  by rewrite (createRowKeepFunc_allOf r rules E).
Qed.
(** [createRowKeepFunc] as the source has it: the body, with the group
    functions obtained by the recursive calls
    [createRowKeepFunc(group.allOf, false)]. *)
Lemma createRowKeepFunc_unfold rules combinedWithAnd :
  createRowKeepFunc rules combinedWithAnd
  = assembleRowKeepFunc rules combinedWithAnd
      (mapM (fun group => createRowKeepFunc (default [] (allOf group)) false)
         (filter hasAllOf rules)).
Proof. unfold createRowKeepFunc at 1. by rewrite combinedKeepFuncs_map. Qed.
End row_filter_equations.

Lemma wellFormedRule_unfold rule :
  wellFormedRule rule
  <-> match index rule with
      | Some (IndexStr s) => wellFormedExpr s
      | _ => True
      end
      /\ match allOf rule with
         | None => True
         | Some rules => Forall wellFormedRule rules
         end.
Proof.
  destruct rule as [i c r v [rules|]]; simpl; [|done].
  apply and_iff_compat_l.
  induction rules as [|r' rest IH]; simpl.
  - split; [constructor | done].
  - rewrite Forall_cons. by rewrite IH.
Qed.

Lemma Rule_nested_ind (P : Rule -> Prop) :
  (forall rule, allOf rule = None -> P rule) ->
  (forall rule rules, allOf rule = Some rules -> Forall P rules -> P rule) ->
  forall rule, P rule.
Proof.
  intros Hleaf Hgroup. fix IH 1. intros [i c r v [rules|]].
  - apply (Hgroup _ rules); [done|].
    induction rules as [|r' rest IHrest]; constructor; [apply IH | apply IHrest].
  - by apply Hleaf.
Qed.

(** ** Value predicates *)

#[global] Instance selects_dec input c : Decision (selects input c).
Proof. destruct input; simpl; apply _. Defined.

Lemma RowMatches_bounded rule row :
  RowMatches rule row
  <-> Exists (fun c => selects (col rule) c /\ js_get row c = val rule
                       /\ val rule <> None)
        (seqZ 0 (js_length row)).
Proof.
  rewrite Exists_exists. split.
  - intros (c & v & Hv & Hs & Hc). exists c. rewrite Hv.
    split; [|done]. apply js_get_Some in Hc as [? Hc].
    apply lookup_lt_Some in Hc. apply elem_of_seqZ. unfold js_length. lia.
  - intros (c & _ & Hs & Hc & Hv).
    destruct (val rule) as [v|] eqn:E; [|done]. by exists c, v.
Qed.

#[global] Instance RowMatches_dec rule row : Decision (RowMatches rule row).
Proof.
  refine (cast_if (decide (Exists
    (fun c => selects (col rule) c /\ js_get row c = val rule
              /\ val rule <> None) (seqZ 0 (js_length row)))));
    by rewrite RowMatches_bounded.
Defined.

Lemma keepRowValAny_false targetVal cells :
  keepRowValAny targetVal cells = false
  <-> exists cell, cell ∈ cells /\ Some cell = targetVal.
Proof.
  induction cells as [|cell rest IH]; simpl.
  - split; [done|]. intros (? & Hin & _). by apply elem_of_nil in Hin.
  - case_bool_decide as Hc.
    + split; [|done]. intros _. exists cell. split; [left|done].
    + rewrite IH. split.
      * intros (c & Hin & Hv). exists c. split; [by right|done].
      * intros (c & Hin & Hv). apply elem_of_cons in Hin as [->|Hin]; [done|].
        by exists c.
Qed.

Lemma keepRowValCols_false targetVal targetCols row :
  keepRowValCols targetVal targetCols row = false
  <-> exists c, c ∈ targetCols /\ c < js_length row /\ js_get row c = targetVal.
Proof.
  induction targetCols as [|c rest IH]; simpl.
  - split; [done|]. intros (? & Hin & _). by apply elem_of_nil in Hin.
  - destruct (bool_decide (c < js_length row)
              && bool_decide (js_get row c = targetVal)) eqn:E.
    + apply andb_true_iff in E as [E1 E2].
      apply bool_decide_eq_true in E1, E2.
      split; [|done]. intros _. exists c. split; [left|done].
    + rewrite IH. split.
      * intros (c' & Hin & Hc). exists c'. split; [by right|done].
      * intros (c' & Hin & Hlt & Hc).
        apply elem_of_cons in Hin as [->|Hin]; [|by exists c'].
        apply andb_false_iff in E as [E|E]; apply bool_decide_eq_false in E;
          done.
Qed.

(** A value predicate answers [false] exactly on the rows that match its
    rule; positions the row does not have never count. *)
Lemma keepRowValFunc_spec rule row rowIndex :
  val rule <> None ->
  keepRowValFunc rule row rowIndex = Ok (bool_decide (~ RowMatches rule row)).
Proof.
  intros Hv. unfold keepRowValFunc.
  destruct (val rule) as [v|] eqn:Ev; [|done].
  assert (Hget : forall c, js_get row c = Some v -> c < js_length row).
  { intros c Hc. apply js_get_Some in Hc as [? Hc].
    apply lookup_lt_Some in Hc. unfold js_length. lia. }
  destruct (col rule) eqn:Ec; cbn [prepareListOfIndices]; f_equal.
  all: apply eq_true_iff_eq; rewrite bool_decide_eq_true;
    rewrite <- not_false_iff_true.
  all: apply not_iff_compat.
  1,2: rewrite keepRowValAny_false.
  3,4: rewrite keepRowValCols_false.
  all: unfold RowMatches; rewrite Ev, Ec; simpl.
  1,2: split;
    [ intros (cell & Hin & [= ->]); apply list_elem_of_lookup in Hin as [k Hk];
      exists (Z.of_nat k), v; split_and!; [done..|];
      apply js_get_Some; rewrite Nat2Z.id; split; [lia|done]
    | intros (c & v' & [= <-] & _ & Hc); exists v; split; [|done];
      apply js_get_Some in Hc as [_ Hc]; by eapply list_elem_of_lookup_2 ].
  - split.
    + intros (c & Hin & _ & Hc). apply list_elem_of_singleton in Hin as ->.
      by exists n, v.
    + intros (c & v' & [= <-] & -> & Hc). exists n.
      split_and!; [by apply list_elem_of_singleton|by apply Hget|done].
  - split.
    + intros (c & Hin & _ & Hc). by exists c, v.
    + intros (c & v' & [= <-] & Hin & Hc). exists c.
      split_and!; [done|by apply Hget|done].
Qed.

(** ** Votes and their combination *)

Lemma mapM_id_Ok {A} (votes : list (Result A)) bs :
  mapM id votes = Ok bs <-> votes = map Ok bs.
Proof.
  revert bs. induction votes as [|v votes IH]; intros [|b bs]; simpl;
    try (split; done).
  - destruct v as [b'|e]; simpl; [|split; done].
    destruct (mapM id votes); simpl; split; done.
  - destruct v as [b'|e]; simpl; [|split; done].
    specialize (IH bs). destruct (mapM id votes) as [bs'|e]; simpl.
    + split.
      * intros [= -> ->]. f_equal. by apply IH.
      * intros [= -> Hv]. apply IH in Hv as [= ->]. done.
    + split; [done|]. intros [= -> Hv]. by apply IH in Hv.
Qed.

Lemma mapM_id_returns {A} (votes : list (Result A)) :
  (exists bs, mapM id votes = Ok bs) <-> Forall (fun v => exists b, v = Ok b) votes.
Proof.
  split.
  - intros [bs Hbs]. apply mapM_id_Ok in Hbs as ->.
    apply Forall_map. apply Forall_forall. intros b _. by exists b.
  - induction 1 as [|v votes [b ->] _ [bs IH]]; simpl; [by exists []|].
    rewrite IH. simpl. by eexists.
Qed.

Lemma combineVotes_and_true votes :
  combineVotes true votes = Ok true <-> Forall (fun v => v = Ok true) votes.
Proof.
  unfold combineVotes. rewrite bind_Ok. split.
  - intros (bs & Hbs & [= Hall]). apply mapM_id_Ok in Hbs as ->.
    apply Forall_map. apply Forall_forall. intros b Hb. simpl. f_equal.
    rewrite forallb_forall in Hall. apply Hall. by apply list_elem_of_In.
  - intros Hall. exists (map (fun _ => true) votes). split.
    + apply mapM_id_Ok. rewrite map_map.
      induction Hall as [|v votes -> _ IH]; simpl; [done|]. by rewrite <- IH.
    + f_equal. apply forallb_forall. intros b Hb.
      apply in_map_iff in Hb as (? & <- & _). done.
Qed.

Lemma combineVotes_and_false votes :
  combineVotes true votes = Ok false
  <-> Forall returns votes /\ Exists (fun v => v = Ok false) votes.
Proof.
  unfold combineVotes. rewrite bind_Ok. split.
  - intros (bs & Hbs & [= Hall]). split.
    + apply mapM_id_returns. by exists bs.
    + apply mapM_id_Ok in Hbs as ->. apply Exists_exists.
      exists (Ok false). split; [|done]. apply list_elem_of_fmap.
      exists false. split; [done|].
      destruct (decide (false ∈ bs)) as [|Hn]; [done|].
      assert (forallb id bs = true) as Ht; [|congruence].
      apply forallb_forall. intros [|] Hb; [done|].
      apply list_elem_of_In in Hb. done.
  - intros [Hret Hex]. apply mapM_id_returns in Hret as [bs Hbs].
    exists bs. split; [done|]. f_equal.
    apply mapM_id_Ok in Hbs as ->.
    apply Exists_exists in Hex as (v & Hin & ->).
    apply list_elem_of_fmap in Hin as (b & [= <-] & Hin).
    apply not_true_iff_false. rewrite forallb_forall. intros Hall.
    apply list_elem_of_In in Hin. by apply Hall in Hin.
Qed.

Lemma combineVotes_or_true votes :
  combineVotes false votes = Ok true
  <-> Forall returns votes /\ Exists (fun v => v = Ok true) votes.
Proof.
  unfold combineVotes. rewrite bind_Ok. split.
  - intros (bs & Hbs & [= Hex]). split.
    + apply mapM_id_returns. by exists bs.
    + apply mapM_id_Ok in Hbs as ->. apply Exists_exists.
      apply existsb_exists in Hex as (b & Hb & Hid). simpl in Hid. subst b.
      exists (Ok true). split; [|done]. apply list_elem_of_fmap.
      exists true. split; [done|]. by apply list_elem_of_In.
  - intros [Hret Hex]. apply mapM_id_returns in Hret as [bs Hbs].
    exists bs. split; [done|]. f_equal.
    apply mapM_id_Ok in Hbs as ->.
    apply Exists_exists in Hex as (v & Hin & ->).
    apply list_elem_of_fmap in Hin as (b & [= <-] & Hin).
    apply existsb_exists. exists true. split; [|done].
    by apply list_elem_of_In.
Qed.

Lemma combineVotes_or_false votes :
  combineVotes false votes = Ok false <-> Forall (fun v => v = Ok false) votes.
Proof.
  unfold combineVotes. rewrite bind_Ok. split.
  - intros (bs & Hbs & [= Hex]). apply mapM_id_Ok in Hbs as ->.
    apply Forall_map. apply Forall_forall. intros b Hb. simpl. f_equal.
    destruct b; [|done]. apply not_true_iff_false in Hex. destruct Hex.
    apply existsb_exists. exists true. split; [|done].
    by apply list_elem_of_In.
  - intros Hall. exists (map (fun _ => false) votes). split.
    + apply mapM_id_Ok. rewrite map_map.
      induction Hall as [|v votes -> _ IH]; simpl; [done|]. by rewrite <- IH.
    + f_equal. apply not_true_iff_false. rewrite existsb_exists.
      intros (b & Hb & Hid). apply in_map_iff in Hb as (? & <- & _). done.
Qed.

Lemma combineVotes_and_cons_true votes :
  combineVotes true (Ok true :: votes) = combineVotes true votes.
Proof. unfold combineVotes. simpl. by destruct (mapM id votes). Qed.

Lemma combineVotes_single cwa vote : combineVotes cwa [vote] = vote.
Proof.
  unfold combineVotes. destruct vote as [b|e]; simpl; [|done].
  destruct cwa; simpl; f_equal; [apply andb_true_r | apply orb_false_r].
Qed.

Lemma shouldKeep_reportAll cwa bs :
  shouldKeep (reportAll (newRuleCombiner cwa) bs)
  = if cwa then forallb id bs else existsb id bs.
Proof.
  apply eq_true_iff_eq. destruct cwa.
  - rewrite shouldKeep_and, forallb_forall. split.
    + intros Hn [|] Hb; [done|]. by apply list_elem_of_In in Hb.
    + intros Hall Hin. apply list_elem_of_In in Hin. by apply Hall in Hin.
  - rewrite shouldKeep_or, existsb_exists. split.
    + intros Hin. exists true. split; [|done]. by apply list_elem_of_In.
    + intros ([|] & Hb & Hid); [|done]. by apply list_elem_of_In.
Qed.

Lemma reportFuncs_votes rc funcs row rowIndex :
  reportFuncs rc funcs row rowIndex
  = (bs <- mapM id (votesOf funcs row rowIndex) ;; Ok (reportAll rc bs)).
Proof.
  revert rc. induction funcs as [|f funcs IH]; intros rc; simpl; [done|].
  destruct (f row rowIndex) as [b|e]; simpl; [|done].
  rewrite IH. unfold votesOf. by destruct (mapM id _).
Qed.

(** Whatever branch [createRowKeepFunc] takes, the function it returns
    combines the votes it reports: the index predicate's, when the rules
    carry an index, then those of the value and group predicates. *)
Lemma chooseKeepFunc_votes hasIgnoreRules shouldKeepIndex funcs cwa row rowIndex :
  chooseKeepFunc hasIgnoreRules shouldKeepIndex funcs cwa row rowIndex
  = combineVotes cwa
      ((if hasIgnoreRules then [shouldKeepIndex rowIndex] else [])
       ++ votesOf funcs row rowIndex).
Proof.
  unfold chooseKeepFunc. destruct hasIgnoreRules; simpl.
  - case_bool_decide as Hn.
    + destruct funcs; [|done]. simpl. by rewrite combineVotes_single.
    + unfold combineVotes. simpl.
      destruct (shouldKeepIndex rowIndex) as [b|e]; simpl; [|done].
      rewrite reportFuncs_votes.
      destruct (mapM id (votesOf funcs row rowIndex)) as [bs|e]; simpl; [|done].
      f_equal. change (reportShouldKeep (newRuleCombiner cwa) b)
        with (reportAll (newRuleCombiner cwa) [b]).
      unfold reportAll. rewrite <- foldl_app.
      apply (shouldKeep_reportAll cwa ([b] ++ bs)).
  - rewrite reportFuncs_votes. unfold combineVotes.
    destruct (mapM id (votesOf funcs row rowIndex)) as [bs|e]; simpl; [|done].
    f_equal. apply shouldKeep_reportAll.
Qed.

Lemma combineVotes_Ok cwa bs :
  combineVotes cwa (map Ok bs)
  = Ok (if cwa then forallb id bs else existsb id bs).
Proof.
  unfold combineVotes.
  by rewrite (proj2 (mapM_id_Ok (map Ok bs) bs) eq_refl).
Qed.

Lemma combineVotes_returns cwa votes :
  Forall returns votes -> returns (combineVotes cwa votes).
Proof.
  intros Hret. apply mapM_id_returns in Hret as [bs Hbs].
  unfold combineVotes. rewrite Hbs. simpl. by eexists.
Qed.

(** ** The index predicate *)

Section index_checker.
Context `{JsHost}.

Lemma createKeepIndexChecker_no_index rules :
  filter hasIndex rules = [] ->
  createKeepIndexChecker rules = Ok (fun rowIndex => Ok true).
Proof. unfold createKeepIndexChecker. by intros ->. Qed.

Lemma createEqualityEvaluator_wellFormed s :
  wellFormedExpr s -> exists ev, createEqualityEvaluator s = Ok (Some ev).
Proof.
  intros [Hlen [strategy Hop]]. unfold createEqualityEvaluator.
  case_decide; [lia|]. rewrite Hop. by eexists.
Qed.

Lemma collectIndexRules_wellFormed rules ignoreRows evaluators :
  Forall wellFormedIndex rules ->
  Forall is_Some evaluators ->
  exists ignoreRows' evaluators',
    collectIndexRules rules ignoreRows evaluators
    = Ok (ignoreRows', evaluators')
    /\ Forall is_Some evaluators'.
Proof.
  intros Hwf. revert ignoreRows evaluators.
  induction Hwf as [|rule rules Hrule _ IH]; intros ignoreRows evaluators Hev;
    simpl; [by eauto|].
  unfold wellFormedIndex in Hrule.
  destruct (index rule) as [[n|l|s]|]; try by apply IH.
  destruct (createEqualityEvaluator_wellFormed s Hrule) as [ev ->]. simpl.
  apply IH. apply Forall_app. split; [done|]. by repeat constructor.
Qed.

Lemma runEvaluators_returns evaluators rowIndex passes :
  Forall is_Some evaluators ->
  returns (runEvaluators evaluators rowIndex passes).
Proof.
  revert passes.
  induction evaluators as [|[ev|] evaluators IH]; intros passes Hev; simpl.
  - by eexists.
  - apply IH. by apply Forall_cons in Hev as [_ ?].
  - apply Forall_cons in Hev as [[? [=]] _].
Qed.

Lemma createKeepIndexChecker_returns rules :
  Forall wellFormedIndex rules ->
  exists shouldKeepIndex,
    createKeepIndexChecker rules = Ok shouldKeepIndex
    /\ forall rowIndex, returns (shouldKeepIndex rowIndex).
Proof.
  intros Hwf. unfold createKeepIndexChecker.
  destruct (collectIndexRules_wellFormed (filter hasIndex rules) [] [])
    as (ignoreRows & evaluators & -> & Hev).
  - apply Forall_forall. intros rule Hin.
    apply list_elem_of_filter in Hin as [_ Hin].
    by eapply Forall_forall in Hwf.
  - constructor.
  - simpl. case_decide.
    + eexists. split; [done|]. intros rowIndex. by exists true.
    + eexists. split; [done|]. intros rowIndex. unfold keepIndexChecker.
      destruct (runEvaluators_returns evaluators rowIndex true Hev) as [b Hb].
      rewrite Hb.
      simpl. by eexists.
Qed.
End index_checker.

(** ** The row predicate as a combination of votes *)

Section row_votes.
Context `{JsHost}.

Lemma createRowKeepFunc_votes rules cwa shouldKeepIndex groupFuncs :
  createKeepIndexChecker rules = Ok shouldKeepIndex ->
  combinedKeepFuncs rules = Ok groupFuncs ->
  exists shouldKeepFunc,
    createRowKeepFunc rules cwa = Ok shouldKeepFunc
    /\ forall row rowIndex,
        shouldKeepFunc row rowIndex
        = combineVotes cwa
            ((if reportsIndex rules then [shouldKeepIndex rowIndex] else [])
             ++ votesOf (createKeepRowValFuncs (filter hasVal rules)
                         ++ groupFuncs) row rowIndex).
Proof.
  intros Hidx Hgs. unfold createRowKeepFunc, assembleRowKeepFunc.
  rewrite Hidx, Hgs. simpl. eexists. split; [done|].
  intros row rowIndex. apply chooseKeepFunc_votes.
Qed.

Lemma reportsIndex_false rules :
  reportsIndex rules = false -> filter hasIndex rules = [].
Proof.
  unfold reportsIndex. intros Hn%bool_decide_eq_false.
  destruct (filter hasIndex rules); [done|]. simpl in Hn. lia.
Qed.

Lemma votesOf_valFuncs rules row rowIndex :
  votesOf (createKeepRowValFuncs (filter hasVal rules)) row rowIndex
  = map (fun rule => Ok (bool_decide (~ RowMatches rule row)))
      (filter hasVal rules).
Proof.
  unfold votesOf, createKeepRowValFuncs. rewrite map_map.
  apply map_ext_in. intros rule Hin. apply keepRowValFunc_spec.
  apply list_elem_of_In, list_elem_of_filter in Hin as [Hv _]. done.
Qed.

Lemma keepRows_filter (P : Row -> Prop) `{!forall row, Decision (P row)}
    shouldKeepFunc targetRows rowIndex :
  (forall row i, shouldKeepFunc row i = Ok (bool_decide (P row))) ->
  keepRows shouldKeepFunc targetRows rowIndex = Ok (filter P targetRows).
Proof.
  intros Hf. revert rowIndex.
  induction targetRows as [|row rest IH]; intros rowIndex; [done|].
  rewrite filter_cons. simpl. rewrite Hf, IH. simpl.
  rewrite bool_decide_decide. by destruct (decide (P row)).
Qed.
End row_votes.

Lemma isValueRule_filters rules :
  Forall isValueRule rules ->
  filter hasIndex rules = [] /\ filter hasAllOf rules = []
  /\ filter hasVal rules = rules.
Proof.
  induction 1 as [|rule rules (Hi & Ha & Hv) _ (IHi & IHa & IHv)]; [done|].
  rewrite !filter_cons, IHi, IHa, IHv.
  repeat case_decide; unfold hasIndex, hasAllOf, hasVal in *; done.
Qed.

(** ** The top-level rule list *)

(** C2 (amended). For every top-level ignoreRowIf rule list whose
    predicates can be built, [ignoreRowIf] filters the rows with the
    function of [createRowKeepFunc(params, true)], and that function
    combines the votes in AND mode: it answers true exactly when the index
    predicate, every value predicate and every nested-group predicate voted
    true, and false exactly when all of them returned and at least one
    voted false.  A single predicate voting false removes the row. *)
Theorem top_level_keep_law `{JsHost} (rules : list Rule)
    (shouldKeepIndex : Z -> Result bool) (groupFuncs : list KeepFunc) :
  createKeepIndexChecker rules = Ok shouldKeepIndex ->
  combinedKeepFuncs rules = Ok groupFuncs ->
  exists shouldKeepFunc,
    createRowKeepFunc rules true = Ok shouldKeepFunc
    /\ (forall targetRows onSuccess onError,
          ignoreRowIf targetRows rules onSuccess onError
          = match keepRows shouldKeepFunc targetRows 0 with
            | Ok retVal => onSuccess retVal
            | Throw e => Uncaught e
            end)
    /\ forall row rowIndex,
        let votes :=
          shouldKeepIndex rowIndex
          :: votesOf (createKeepRowValFuncs (filter hasVal rules) ++ groupFuncs)
               row rowIndex in
        (shouldKeepFunc row rowIndex = Ok true
           <-> Forall (fun vote => vote = Ok true) votes)
        /\ (shouldKeepFunc row rowIndex = Ok false
           <-> Forall returns votes /\ Exists (fun vote => vote = Ok false) votes).
Proof.
  intros Hidx Hgs.
  destruct (createRowKeepFunc_votes rules true _ _ Hidx Hgs) as (f & Hf & Hvotes).
  exists f. split; [done|]. split.
  { intros targetRows onSuccess onError. unfold ignoreRowIf. by rewrite Hf. }
  intros row rowIndex votes.
  assert (f row rowIndex = combineVotes true votes) as ->.
  { rewrite Hvotes. subst votes. destruct (reportsIndex rules) eqn:Hr; [done|].
    apply reportsIndex_false in Hr.
    rewrite (createKeepIndexChecker_no_index rules Hr) in Hidx.
    injection Hidx as <-. simpl. by rewrite combineVotes_and_cons_true. }
  split; [apply combineVotes_and_true | apply combineVotes_and_false].
Qed.

(** The law at [mixedRules], on the row [[C, x]] at index 0. *)
Lemma top_level_keep_law_witness :
  exists shouldKeepIndex groupFuncs,
    @createKeepIndexChecker integerHost mixedRules = Ok shouldKeepIndex
    /\ @combinedKeepFuncs integerHost mixedRules = Ok groupFuncs
    /\ exists shouldKeepFunc,
        @createRowKeepFunc integerHost mixedRules true = Ok shouldKeepFunc
        /\ (shouldKeepFunc [VStr "C"; VStr "x"] 0 = Ok true
            <-> Forall (fun vote => vote = Ok true)
                  (shouldKeepIndex 0
                   :: votesOf (createKeepRowValFuncs (filter hasVal mixedRules)
                               ++ groupFuncs) [VStr "C"; VStr "x"] 0)).
Proof.
  eexists _, _. split; [reflexivity|]. split; [reflexivity|].
  destruct (@top_level_keep_law integerHost mixedRules _ _ eq_refl eq_refl)
    as (f & Hf & _ & Hlaw).
  exists f. split; [exact Hf|]. exact (proj1 (Hlaw [VStr "C"; VStr "x"] 0)).
Defined.

(** Two value rules at top level: the second predicate votes to keep the
    row [[A, x]], the first votes to remove it, and the row is removed. *)
Lemma top_level_keep_counterexample :
  let rules := [colValRule (SelIndex 0) (VStr "A");
                colValRule (SelIndex 1) (VStr "B")] in
  let row := [VStr "A"; VStr "x"] in
  votesOf (createKeepRowValFuncs (filter hasVal rules)) row 0
  = [Ok false; Ok true]
  /\ (exists shouldKeepFunc,
        @createRowKeepFunc integerHost rules true = Ok shouldKeepFunc
        /\ shouldKeepFunc row 0 = Ok false)
  /\ @ignoreRowIf integerHost [row] rules SuccessCalled ErrorCalled
     = SuccessCalled [].
Proof.
  split; [reflexivity|]. split; [|reflexivity].
  eexists. split; reflexivity.
Qed.

(** ** Groups that carry an index rule *)

(** C6 (amended). For every allOf rule group that contains at least one
    index rule and whose predicates can be built, the group's function
    combines in OR mode the vote of the index predicate with the votes of
    the group's value and nested-group predicates: it answers true exactly
    when all of them returned and at least one voted true, and false
    exactly when every one of them voted false.  The index predicate alone
    decides only for a group without value and nested-group rules. *)
Theorem allOf_group_index_law `{JsHost} (group : Rule) (rules : list Rule)
    (shouldKeepIndex : Z -> Result bool) (groupFuncs : list KeepFunc) :
  allOf group = Some rules ->
  Exists hasIndex rules ->
  createKeepIndexChecker rules = Ok shouldKeepIndex ->
  combinedKeepFuncs rules = Ok groupFuncs ->
  exists groupFunc,
    allOfKeepFunc group = Ok groupFunc
    /\ createRowKeepFunc rules false = Ok groupFunc
    /\ forall row rowIndex,
        let votes :=
          shouldKeepIndex rowIndex
          :: votesOf (createKeepRowValFuncs (filter hasVal rules) ++ groupFuncs)
               row rowIndex in
        (groupFunc row rowIndex = Ok true
           <-> Forall returns votes /\ Exists (fun vote => vote = Ok true) votes)
        /\ (groupFunc row rowIndex = Ok false
           <-> Forall (fun vote => vote = Ok false) votes)
        /\ (filter hasVal rules = [] -> filter hasAllOf rules = [] ->
            groupFunc row rowIndex = shouldKeepIndex rowIndex).
Proof.
  intros Hall Hex Hidx Hgs.
  destruct (createRowKeepFunc_votes rules false _ _ Hidx Hgs) as (f & Hf & Hvotes).
  exists f. rewrite (createRowKeepFunc_allOf group rules Hall).
  split; [done|]. split; [done|].
  intros row rowIndex votes.
  assert (reportsIndex rules = true) as Hr.
  { unfold reportsIndex. apply bool_decide_eq_true.
    apply Exists_exists in Hex as (rule & Hin & Hrule).
    assert (rule ∈ filter hasIndex rules) as Hin'
      by by apply list_elem_of_filter.
    destruct (filter hasIndex rules); [by apply elem_of_nil in Hin'|].
    simpl. lia. }
  assert (f row rowIndex = combineVotes false votes) as Hfv.
  { rewrite Hvotes, Hr. done. }
  rewrite Hfv.
  split; [apply combineVotes_or_true|]. split; [apply combineVotes_or_false|].
  intros Hnv Hna. subst votes. unfold combinedKeepFuncs in Hgs.
  rewrite Hna in Hgs. injection Hgs as <-. rewrite Hnv. simpl.
  apply combineVotes_single.
Qed.

(** The law at [indexedGroup], on the row [[A]] at index 1. *)
Lemma allOf_group_index_law_witness :
  allOf (allOfRule indexedGroup) = Some indexedGroup
  /\ Exists hasIndex indexedGroup
  /\ exists shouldKeepIndex groupFuncs,
      @createKeepIndexChecker integerHost indexedGroup = Ok shouldKeepIndex
      /\ @combinedKeepFuncs integerHost indexedGroup = Ok groupFuncs
      /\ exists groupFunc,
          @allOfKeepFunc integerHost (allOfRule indexedGroup) = Ok groupFunc
          /\ (groupFunc [VStr "A"] 1 = Ok false
              <-> Forall (fun vote => vote = Ok false)
                    (shouldKeepIndex 1
                     :: votesOf (createKeepRowValFuncs
                                   (filter hasVal indexedGroup) ++ groupFuncs)
                          [VStr "A"] 1)).
Proof.
  assert (Hex : Exists hasIndex indexedGroup).
  { left. unfold hasIndex. simpl. discriminate. }
  split; [reflexivity|]. split; [exact Hex|].
  eexists _, _. split; [reflexivity|]. split; [reflexivity|].
  destruct (@allOf_group_index_law integerHost (allOfRule indexedGroup)
              indexedGroup _ _ eq_refl Hex eq_refl eq_refl)
    as (g & Hg & _ & Hlaw).
  exists g. split; [exact Hg|].
  exact (proj1 (proj2 (Hlaw [VStr "A"] 1))).
Defined.

(** On row 1, which holds [B], the index predicate of the group votes to
    remove, yet the group votes to keep: the value predicate is not
    ignored. *)
Lemma allOf_group_index_counterexample :
  exists shouldKeepIndex groupFunc,
    @createKeepIndexChecker integerHost indexedGroup = Ok shouldKeepIndex
    /\ @allOfKeepFunc integerHost (allOfRule indexedGroup) = Ok groupFunc
    /\ shouldKeepIndex 1 = Ok false
    /\ groupFunc [VStr "B"] 1 = Ok true
    /\ groupFunc [VStr "B"] 1 <> shouldKeepIndex 1.
Proof.
  eexists _, _. split; [reflexivity|]. split; [reflexivity|].
  split; [reflexivity|]. split; [reflexivity|]. discriminate.
Qed.

(** ** Lists of value rules *)

Lemma combineVotes_and_valFuncs rules row :
  combineVotes true
    (map (fun rule => Ok (bool_decide (~ RowMatches rule row))) rules)
  = Ok (bool_decide (Forall (fun rule => ~ RowMatches rule row) rules)).
Proof.
  rewrite <- (map_map (fun rule => bool_decide (~ RowMatches rule row)) Ok).
  rewrite combineVotes_Ok. f_equal. apply eq_true_iff_eq.
  rewrite bool_decide_eq_true, forallb_forall, Forall_forall. split.
  - intros Hall rule Hin. apply list_elem_of_In in Hin.
    specialize (Hall _ (in_map _ _ _ Hin)). by apply bool_decide_eq_true in Hall.
  - intros Hall b Hb. apply in_map_iff in Hb as (rule & <- & Hin).
    apply bool_decide_eq_true, Hall. by apply list_elem_of_In.
Qed.

Lemma combineVotes_or_valFuncs rules row :
  combineVotes false
    (map (fun rule => Ok (bool_decide (~ RowMatches rule row))) rules)
  = Ok (bool_decide (Exists (fun rule => ~ RowMatches rule row) rules)).
Proof.
  rewrite <- (map_map (fun rule => bool_decide (~ RowMatches rule row)) Ok).
  rewrite combineVotes_Ok. f_equal. apply eq_true_iff_eq.
  rewrite bool_decide_eq_true, existsb_exists, Exists_exists. split.
  - intros (b & Hb & Hid). apply in_map_iff in Hb as (rule & <- & Hin).
    exists rule. split; [by apply list_elem_of_In|].
    by apply bool_decide_eq_true in Hid.
  - intros (rule & Hin & Hrule).
    exists (bool_decide (~ RowMatches rule row)). split.
    + apply in_map_iff. exists rule. split; [done|]. by apply list_elem_of_In.
    + by apply bool_decide_eq_true.
Qed.

(** The function built for a list of plain value rules, in either mode. *)
Lemma createRowKeepFunc_value_rules `{JsHost} rules cwa :
  Forall isValueRule rules ->
  exists shouldKeepFunc,
    createRowKeepFunc rules cwa = Ok shouldKeepFunc
    /\ forall row rowIndex,
        shouldKeepFunc row rowIndex
        = combineVotes cwa
            (map (fun rule => Ok (bool_decide (~ RowMatches rule row))) rules).
Proof.
  intros Hv. destruct (isValueRule_filters rules Hv) as (Hi & Ha & Hvs).
  destruct (createRowKeepFunc_votes rules cwa (fun _ => Ok true) [])
    as (f & Hf & Hvotes).
  { by apply createKeepIndexChecker_no_index. }
  { unfold combinedKeepFuncs. by rewrite Ha. }
  exists f. split; [done|]. intros row rowIndex.
  rewrite Hvotes. unfold reportsIndex. rewrite Hi. simpl.
  rewrite app_nil_r, votesOf_valFuncs. by rewrite Hvs.
Qed.

(** C3. For every top-level list of value rules (in particular one whose
    rules match disjoint sets of rows), [ignoreRowIf] hands to [onSuccess]
    the rows that match none of the rules, in their original order and
    unchanged: a row is removed exactly when it matches at least one rule.
    On [[A,x],[B,x],[C,x]] with the rule [{col:0, val:A}] the result is
    [[B,x],[C,x]]. *)
Theorem ignoreRowIf_value_rules `{JsHost} (rules : list Rule) :
  Forall isValueRule rules ->
  (forall targetRows onSuccess onError,
     ignoreRowIf targetRows rules onSuccess onError
     = onSuccess
         (filter (fun row => Forall (fun rule => ~ RowMatches rule row) rules)
            targetRows))
  /\ (forall onSuccess onError,
        ignoreRowIf
          [[VStr "A"; VStr "x"]; [VStr "B"; VStr "x"]; [VStr "C"; VStr "x"]]
          [colValRule (SelIndex 0) (VStr "A")] onSuccess onError
        = onSuccess [[VStr "B"; VStr "x"]; [VStr "C"; VStr "x"]]).
Proof.
  intros Hv. split; [|done].
  intros targetRows onSuccess onError.
  destruct (createRowKeepFunc_value_rules rules true Hv) as (f & Hf & Hvotes).
  unfold ignoreRowIf. rewrite Hf. simpl.
  rewrite (keepRows_filter
    (fun row => Forall (fun rule => ~ RowMatches rule row) rules)); [done|].
  intros row i. rewrite Hvotes. apply combineVotes_and_valFuncs.
Qed.

(** The law at [twoValueRules], for every table. *)
Lemma ignoreRowIf_value_rules_witness :
  Forall isValueRule twoValueRules
  /\ forall targetRows,
      @ignoreRowIf integerHost targetRows twoValueRules SuccessCalled ErrorCalled
      = SuccessCalled
          (filter (fun row =>
                     Forall (fun rule => ~ RowMatches rule row) twoValueRules)
             targetRows).
Proof.
  assert (Hv : Forall isValueRule twoValueRules).
  { repeat constructor; simpl; discriminate. }
  split; [exact Hv|]. intros targetRows.
  exact (proj1 (@ignoreRowIf_value_rules integerHost twoValueRules Hv)
           targetRows SuccessCalled ErrorCalled).
Defined.

(** ** Groups of value rules *)

Lemma mapM_Ok_elem {A B} (f : A -> Result B) xs ys x :
  mapM f xs = Ok ys -> x ∈ xs -> exists y, f x = Ok y /\ y ∈ ys.
Proof.
  revert ys. induction xs as [|x' xs IH]; intros ys Hm Hin; simpl in Hm.
  - by apply elem_of_nil in Hin.
  - apply bind_Ok in Hm as (y' & Hy' & Hm).
    apply bind_Ok in Hm as (ys' & Hys' & [= <-]).
    apply elem_of_cons in Hin as [->|Hin].
    + exists y'. split; [done|]. left.
    + destruct (IH ys' Hys' Hin) as (y & Hy & Hiny).
      exists y. split; [done|]. by right.
Qed.

Lemma Forall_matches_not_Exists rules row :
  Forall (fun rule => RowMatches rule row) rules
  <-> ~ Exists (fun rule => ~ RowMatches rule row) rules.
Proof.
  rewrite Forall_forall, Exists_exists. split.
  - intros Hall (rule & Hin & Hn). by apply Hn, Hall.
  - intros Hn rule Hin. destruct (decide (RowMatches rule row)); [done|].
    destruct Hn. by exists rule.
Qed.

(** C4. For every ignoreRowIf rule list containing an allOf group of value
    rules, the function built for the group is one of the list's group
    predicates; it votes to remove a row exactly when every sub-rule of
    the group matches the row, and votes to keep it as soon as one
    sub-rule does not match.  With the group as the only rule, the rows
    kept are those that at least one sub-rule does not match. *)
Theorem allOf_value_group_law `{JsHost} (rules : list Rule) (group : Rule)
    (subRules : list Rule) :
  group ∈ rules ->
  allOf group = Some subRules ->
  Forall isValueRule subRules ->
  exists groupFunc,
    allOfKeepFunc group = Ok groupFunc
    /\ (forall groupFuncs,
          combinedKeepFuncs rules = Ok groupFuncs -> groupFunc ∈ groupFuncs)
    /\ (forall row rowIndex,
          (groupFunc row rowIndex = Ok false
             <-> Forall (fun rule => RowMatches rule row) subRules)
          /\ (Exists (fun rule => ~ RowMatches rule row) subRules ->
              groupFunc row rowIndex = Ok true))
    /\ (forall targetRows onSuccess onError,
          ignoreRowIf targetRows [allOfRule subRules] onSuccess onError
          = onSuccess
              (filter (fun row =>
                         Exists (fun rule => ~ RowMatches rule row) subRules)
                 targetRows)).
Proof.
  intros Hin Hall Hv.
  destruct (createRowKeepFunc_value_rules subRules false Hv) as (g & Hg & Hvotes).
  assert (Hgv : forall row rowIndex,
    g row rowIndex
    = Ok (bool_decide (Exists (fun rule => ~ RowMatches rule row) subRules))).
  { intros row rowIndex. rewrite Hvotes. apply combineVotes_or_valFuncs. }
  exists g. rewrite (createRowKeepFunc_allOf group subRules Hall).
  split; [done|]. split; [|split].
  - intros groupFuncs Hgs. unfold combinedKeepFuncs in Hgs.
    destruct (mapM_Ok_elem _ _ _ group Hgs) as (g' & Hg' & Hin').
    { apply list_elem_of_filter. split; [|done]. unfold hasAllOf. by rewrite Hall. }
    rewrite (createRowKeepFunc_allOf group subRules Hall), Hg in Hg'.
    by injection Hg' as <-.
  - intros row rowIndex. rewrite Hgv. split.
    + rewrite Forall_matches_not_Exists. split.
      * intros [= Hb]. by apply bool_decide_eq_false in Hb.
      * intros Hn. f_equal. by apply bool_decide_eq_false.
    + intros Hex. f_equal. by apply bool_decide_eq_true.
  - intros targetRows onSuccess onError.
    destruct (createRowKeepFunc_votes [allOfRule subRules] true
                (fun _ => Ok true) [g]) as (f & Hf & Hfv).
    { by apply createKeepIndexChecker_no_index. }
    { unfold combinedKeepFuncs.
      change (filter hasAllOf [allOfRule subRules]) with [allOfRule subRules].
      cbn [mapM].
      rewrite (createRowKeepFunc_allOf (allOfRule subRules) subRules eq_refl).
      by rewrite Hg. }
    unfold ignoreRowIf. rewrite Hf. simpl.
    rewrite (keepRows_filter
      (fun row => Exists (fun rule => ~ RowMatches rule row) subRules));
      [done|].
    intros row i. rewrite Hfv. simpl. by rewrite combineVotes_single.
Qed.

(** The law at the group of the README, for every table. *)
Lemma allOf_value_group_law_witness :
  allOfRule readmeGroup ∈ [allOfRule readmeGroup]
  /\ allOf (allOfRule readmeGroup) = Some readmeGroup
  /\ Forall isValueRule readmeGroup
  /\ forall targetRows,
      @ignoreRowIf integerHost targetRows [allOfRule readmeGroup]
        SuccessCalled ErrorCalled
      = SuccessCalled
          (filter (fun row =>
                     Exists (fun rule => ~ RowMatches rule row) readmeGroup)
             targetRows).
Proof.
  assert (Hin : allOfRule readmeGroup ∈ [allOfRule readmeGroup]) by left.
  assert (Hv : Forall isValueRule readmeGroup).
  { repeat constructor; simpl; discriminate. }
  split; [exact Hin|]. split; [reflexivity|]. split; [exact Hv|].
  intros targetRows.
  destruct (@allOf_value_group_law integerHost [allOfRule readmeGroup]
              (allOfRule readmeGroup) readmeGroup Hin eq_refl Hv)
    as (g & _ & _ & _ & Hfilter).
  apply Hfilter.
Defined.

(** The table of the README, with its group under [allOf]: only the row
    holding both values goes. *)
Example readme_allOf_example :
  @ignoreRowIf integerHost
    [ [VStr "notTargetVal1"; VStr "dont touch me"; VStr "targetVal2"];
      [VStr "targetVal1"; VStr "throw this row out"; VStr "targetVal2"];
      [VStr "notTargetVal2"; VStr "dont touch me either"; VStr "notTargetVal3"] ]
    [allOfRule readmeGroup] SuccessCalled ErrorCalled
  = SuccessCalled
      [ [VStr "notTargetVal1"; VStr "dont touch me"; VStr "targetVal2"];
        [VStr "notTargetVal2"; VStr "dont touch me either"; VStr "notTargetVal3"] ].
Proof. reflexivity. Qed.

(** ** Well-formed rule lists always answer *)

Lemma votesOf_app funcs funcs' row rowIndex :
  votesOf (funcs ++ funcs') row rowIndex
  = votesOf funcs row rowIndex ++ votesOf funcs' row rowIndex.
Proof. unfold votesOf. apply map_app. Qed.

Section totality.
Context `{JsHost}.

Lemma wellFormedRule_index rules :
  Forall wellFormedRule rules -> Forall wellFormedIndex rules.
Proof.
  intros Hall. eapply Forall_impl; [exact Hall|]. intros rule Hwf.
  apply wellFormedRule_unfold in Hwf as [Hi _]. exact Hi.
Qed.

Lemma createRowKeepFunc_answers rules cwa shouldKeepIndex groupFuncs :
  createKeepIndexChecker rules = Ok shouldKeepIndex ->
  (forall rowIndex, returns (shouldKeepIndex rowIndex)) ->
  combinedKeepFuncs rules = Ok groupFuncs ->
  Forall answers groupFuncs ->
  exists shouldKeepFunc,
    createRowKeepFunc rules cwa = Ok shouldKeepFunc /\ answers shouldKeepFunc.
Proof.
  intros Hidx Hret Hgs Htot.
  destruct (createRowKeepFunc_votes rules cwa _ _ Hidx Hgs) as (f & Hf & Hvotes).
  exists f. split; [done|]. intros row rowIndex. rewrite Hvotes.
  apply combineVotes_returns. apply Forall_app. split.
  - destruct (reportsIndex rules); repeat constructor. apply Hret.
  - rewrite votesOf_app. apply Forall_app. split.
    + rewrite votesOf_valFuncs. apply Forall_map, Forall_forall.
      intros rule _. by eexists.
    + apply Forall_map. eapply Forall_impl; [exact Htot|].
      intros g Hg. apply Hg.
Qed.

Lemma allOfKeepFunc_answers group :
  wellFormedRule group ->
  forall rules, allOf group = Some rules ->
  exists groupFunc, allOfKeepFunc group = Ok groupFunc /\ answers groupFunc.
Proof.
  induction group as [group Hnone | group rules0 Hsome IH]
    using Rule_nested_ind; intros Hwf rules Hall; [congruence|].
  rewrite Hsome in Hall. injection Hall as <-.
  rewrite (createRowKeepFunc_allOf group rules0 Hsome).
  apply wellFormedRule_unfold in Hwf as [_ Hsub]. rewrite Hsome in Hsub.
  destruct (createKeepIndexChecker_returns rules0
              (wellFormedRule_index rules0 Hsub)) as (idx & Hidx & Hret).
  assert (exists gs, combinedKeepFuncs rules0 = Ok gs /\ Forall answers gs)
    as (gs & Hgs & Htot).
  { unfold combinedKeepFuncs. clear Hidx Hsome.
    induction rules0 as [|r rest IHrest]; [by exists []|].
    apply Forall_cons in IH as [IHr IH]. apply Forall_cons in Hsub as [Hr Hsub].
    destruct (IHrest IH Hsub) as (gs & Hgs & Htot).
    rewrite filter_cons. case_decide as Hd; [|by exists gs].
    unfold hasAllOf in Hd. destruct (allOf r) as [sub|] eqn:Esub; [|done].
    destruct (IHr Hr sub eq_refl) as (g & Hg & Hgt).
    exists (g :: gs). simpl. rewrite Hg, Hgs. simpl.
    split; [done|]. by constructor. }
  by eapply createRowKeepFunc_answers.
Qed.

Lemma combinedKeepFuncs_answers rules :
  Forall wellFormedRule rules ->
  exists groupFuncs,
    combinedKeepFuncs rules = Ok groupFuncs /\ Forall answers groupFuncs.
Proof.
  unfold combinedKeepFuncs.
  induction 1 as [|r rest Hr _ (gs & Hgs & Htot)]; [by exists []|].
  rewrite filter_cons. case_decide as Hd; [|by exists gs].
  unfold hasAllOf in Hd. destruct (allOf r) as [sub|] eqn:Esub; [|done].
  destruct (allOfKeepFunc_answers r Hr sub Esub) as (g & Hg & Hgt).
  exists (g :: gs). simpl. rewrite Hg, Hgs. simpl.
  split; [done|]. by constructor.
Qed.
End totality.

Lemma createRowKeepFunc_Ok_inv `{JsHost} rules cwa shouldKeepFunc :
  createRowKeepFunc rules cwa = Ok shouldKeepFunc ->
  exists shouldKeepIndex groupFuncs,
    createKeepIndexChecker rules = Ok shouldKeepIndex
    /\ combinedKeepFuncs rules = Ok groupFuncs.
Proof.
  unfold createRowKeepFunc, assembleRowKeepFunc. intros Hf.
  apply bind_Ok in Hf as (idx & Hidx & Hf).
  apply bind_Ok in Hf as (gs & Hgs & _). by exists idx, gs.
Qed.

(** The function of an empty group answers [false] on every row, and so
    the function of a top-level list holding such a group never answers
    [true]. *)
Lemma empty_group_vote `{JsHost} rules group shouldKeepFunc :
  group ∈ rules ->
  allOf group = Some [] ->
  createRowKeepFunc rules true = Ok shouldKeepFunc ->
  forall row rowIndex, shouldKeepFunc row rowIndex <> Ok true.
Proof.
  intros Hin Hall Hf row rowIndex Htrue.
  destruct (createRowKeepFunc_Ok_inv rules true _ Hf) as (idx & gs & Hidx & Hgs).
  destruct (createRowKeepFunc_votes rules true _ _ Hidx Hgs)
    as (f & Hf' & Hvotes).
  rewrite Hf in Hf'. injection Hf' as <-.
  unfold combinedKeepFuncs in Hgs.
  destruct (mapM_Ok_elem _ _ _ group Hgs) as (g & Hg & Hing).
  { apply list_elem_of_filter. split; [|done]. unfold hasAllOf. by rewrite Hall. }
  rewrite (createRowKeepFunc_allOf group [] Hall) in Hg.
  injection Hg as <-.
  rewrite Hvotes in Htrue. apply combineVotes_and_true in Htrue.
  apply Forall_app in Htrue as [_ Hb]. rewrite votesOf_app in Hb.
  apply Forall_app in Hb as [_ Hb]. unfold votesOf in Hb.
  rewrite Forall_map, Forall_forall in Hb.
  specialize (Hb _ Hing). done.
Qed.

Lemma keepRows_none `{JsHost} shouldKeepFunc targetRows rowIndex retVal :
  (forall row i, shouldKeepFunc row i <> Ok true) ->
  keepRows shouldKeepFunc targetRows rowIndex = Ok retVal ->
  retVal = [].
Proof.
  intros Hnever. revert rowIndex retVal.
  induction targetRows as [|row rest IH]; intros rowIndex retVal; simpl.
  - by intros [= <-].
  - intros Hk. apply bind_Ok in Hk as (keep & Hkeep & Hk).
    apply bind_Ok in Hk as (out & Hout & [= <-]).
    destruct keep; [by apply Hnever in Hkeep|]. by eapply IH.
Qed.

(** C10. For every table, an ignoreRowIf rule list that contains an allOf
    group with an empty nested rule list removes every row: when the
    equality expressions of the list are well formed, the table handed to
    [onSuccess] is empty, and in any case the call either hands the empty
    table to [onSuccess] or raises.  The empty top-level rule list keeps
    every row. *)
Theorem empty_group_removes_every_row `{JsHost} (rules : list Rule)
    (group : Rule) :
  group ∈ rules ->
  allOf group = Some [] ->
  (Forall wellFormedRule rules ->
   forall targetRows onSuccess onError,
     ignoreRowIf targetRows rules onSuccess onError = onSuccess [])
  /\ (forall targetRows onSuccess onError,
        ignoreRowIf targetRows rules onSuccess onError = onSuccess []
        \/ exists e, ignoreRowIf targetRows rules onSuccess onError = Uncaught e)
  /\ (forall targetRows onSuccess onError,
        ignoreRowIf targetRows [] onSuccess onError = onSuccess targetRows).
Proof.
  intros Hin Hall. split; [|split].
  - intros Hwf targetRows onSuccess onError.
    destruct (createKeepIndexChecker_returns rules
                (wellFormedRule_index rules Hwf)) as (idx & Hidx & Hret).
    destruct (combinedKeepFuncs_answers rules Hwf) as (gs & Hgs & Htot).
    destruct (createRowKeepFunc_answers rules true _ _ Hidx Hret Hgs Htot)
      as (f & Hf & Hans).
    unfold ignoreRowIf. rewrite Hf. simpl.
    rewrite (keepRows_filter (fun _ => False)).
    + f_equal. induction targetRows as [|row rest IH]; [done|].
      by rewrite filter_cons.
    + intros row i. destruct (Hans row i) as [b Hb]. rewrite Hb. f_equal.
      destruct b; [|done]. by apply (empty_group_vote rules group f) in Hb.
  - intros targetRows onSuccess onError. unfold ignoreRowIf.
    destruct (createRowKeepFunc rules true) as [f|e] eqn:Hf; simpl;
      [|right; by eexists].
    destruct (keepRows f targetRows 0) as [retVal|e] eqn:Hk;
      [|right; by eexists].
    left. f_equal. eapply keepRows_none; [|exact Hk].
    by apply (empty_group_vote rules group).
  - intros targetRows onSuccess onError.
    unfold ignoreRowIf. simpl.
    rewrite (keepRows_filter (fun _ => True)).
    + f_equal. induction targetRows as [|row rest IH]; [done|].
      rewrite filter_cons. simpl. by rewrite IH.
    + done.
Qed.

(** The law at [rulesWithEmptyGroup], for every table. *)
Lemma empty_group_removes_every_row_witness :
  allOfRule [] ∈ rulesWithEmptyGroup
  /\ allOf (allOfRule []) = Some []
  /\ Forall wellFormedRule rulesWithEmptyGroup
  /\ forall targetRows,
      @ignoreRowIf integerHost targetRows rulesWithEmptyGroup
        SuccessCalled ErrorCalled
      = SuccessCalled [].
Proof.
  assert (Hin : allOfRule [] ∈ rulesWithEmptyGroup).
  { right. left. }
  assert (Hwf : Forall wellFormedRule rulesWithEmptyGroup).
  { repeat constructor. simpl. by eexists. }
  split; [exact Hin|]. split; [reflexivity|]. split; [exact Hwf|].
  intros targetRows.
  exact (proj1 (@empty_group_removes_every_row integerHost rulesWithEmptyGroup
                  (allOfRule []) Hin eq_refl)
           Hwf targetRows SuccessCalled ErrorCalled).
Defined.

(** ** Malformed equality expressions *)

(** C5. What the code does on the three kinds of malformed equality
    expression.  An operator that is not a key of the table raises a
    [TypeError] while the index predicate is built; an expression shorter
    than three characters yields a [null] evaluator, and the predicate
    raises a [TypeError] when it is applied; [!=] with a non-numeric operand
    compares with [NaN] and matches every index, so that every row is
    removed. *)
Theorem malformed_expression_behaviour :
  (forall (host : JsHost),
     @createKeepIndexChecker host [indexRule (IndexStr "=>3")] = Throw TypeError
     /\ @ignoreRowIf host [[VStr "a"]] [indexRule (IndexStr "=>3")]
          SuccessCalled ErrorCalled
        = Uncaught TypeError)
  /\ (forall (host : JsHost),
        (exists shouldKeepIndex,
           @createKeepIndexChecker host [indexRule (IndexStr "==")]
           = Ok shouldKeepIndex
           /\ forall rowIndex, shouldKeepIndex rowIndex = Throw TypeError)
        /\ @ignoreRowIf host [[VStr "a"]] [indexRule (IndexStr "==")]
             SuccessCalled ErrorCalled
           = Uncaught TypeError)
  /\ (exists shouldKeepIndex,
        @createKeepIndexChecker integerHost [indexRule (IndexStr "!=abc")]
        = Ok shouldKeepIndex
        /\ forall rowIndex, shouldKeepIndex rowIndex = Ok false)
  /\ @ignoreRowIf integerHost [[VStr "a"]; [VStr "b"]]
       [indexRule (IndexStr "!=abc")] SuccessCalled ErrorCalled
     = SuccessCalled [].
Proof.
  split; [|split; [|split]].
  - intros host. split; reflexivity.
  - intros host. split; [|reflexivity].
    eexists. split; [reflexivity|]. intros rowIndex. reflexivity.
  - eexists. split; [reflexivity|]. intros rowIndex. reflexivity.
  - reflexivity.
Qed.

(** ** The top-level value search of the column filter *)

Lemma js_get_cons {A} (x : A) arr i :
  0 < i -> js_get (x :: arr) i = js_get arr (i - 1).
Proof.
  intros Hi. unfold js_get. repeat case_decide; try lia.
  replace (Z.to_nat i) with (S (Z.to_nat (i - 1))) by lia. done.
Qed.

Lemma matchedColsOfRow_spec targetVal cells colIndex c :
  c ∈ matchedColsOfRow targetVal cells colIndex
  -> colIndex <= c /\ js_get cells (c - colIndex) = targetVal.
Proof.
  revert colIndex. induction cells as [|cell rest IH]; intros colIndex; simpl.
  - intros Hin. by apply elem_of_nil in Hin.
  - assert (Hrest : c ∈ matchedColsOfRow targetVal rest (colIndex + 1) ->
                    colIndex <= c /\ js_get (cell :: rest) (c - colIndex) = targetVal).
    { intros Hin. apply IH in Hin as [Hle Hget]. split; [lia|].
      rewrite js_get_cons by lia.
      by replace (c - colIndex - 1) with (c - (colIndex + 1)) by lia. }
    case_bool_decide as Hc; [|done].
    intros Hin. apply elem_of_cons in Hin as [->|Hin]; [|by apply Hrest].
    split; [lia|]. by rewrite Z.sub_diag.
Qed.

Lemma checkRowsByVal_present targetVal (rows : list Row) :
  exists cols,
    checkRowsByVal targetVal (map Some rows) = Ok cols
    /\ forall c, c ∈ cols ->
         exists cells, cells ∈ rows /\ js_get cells c = targetVal.
Proof.
  induction rows as [|cells rest (cols & Hcols & Hspec)]; simpl.
  - exists []. split; [done|]. intros c Hin. by apply elem_of_nil in Hin.
  - rewrite Hcols. simpl. eexists. split; [done|].
    intros c Hin. apply elem_of_app in Hin as [Hin|Hin].
    + apply matchedColsOfRow_spec in Hin as [_ Hget].
      rewrite Z.sub_0_r in Hget. exists cells. split; [left|done].
    + destruct (Hspec c Hin) as (cells' & Hin' & Hget).
      exists cells'. split; [by right|done].
Qed.

Lemma checkRowsByVal_fetched targetVal (targetRows : Table) rowIndices :
  Forall (fun i => 0 <= i) rowIndices ->
  exists found,
    checkRowsByVal targetVal
      (map (fun i => js_get targetRows i)
         (filter (fun i => i < js_length targetRows) rowIndices))
    = Ok found
    /\ forall c, c ∈ found ->
         exists r cells,
           r ∈ rowIndices /\ js_get targetRows r = Some cells
           /\ js_get cells c = targetVal.
Proof.
  induction 1 as [|i rowIndices Hi _ (found & Hfound & Hspec)].
  - exists []. split; [done|]. intros c Hin. by apply elem_of_nil in Hin.
  - rewrite filter_cons. case_decide as Hlt.
    + destruct (js_get targetRows i) as [cells|] eqn:Ei.
      * cbn [map checkRowsByVal]. rewrite Ei, Hfound. simpl.
        eexists. split; [done|]. intros c Hc.
        apply elem_of_app in Hc as [Hc|Hc].
        -- apply matchedColsOfRow_spec in Hc as [_ Hget].
           rewrite Z.sub_0_r in Hget. exists i, cells. split; [left|done].
        -- destruct (Hspec c Hc) as (r & cells' & Hr & Hrest).
           exists r, cells'. split; [by right|done].
      * unfold js_get, js_length in *. case_decide; [|lia].
        apply lookup_ge_None in Ei. lia.
    + exists found. split; [done|]. intros c Hc.
      destruct (Hspec c Hc) as (r & cells' & Hr & Hrest).
      exists r, cells'. split; [by right|done].
Qed.

(** At top level a row index beyond the table is dropped before the rows
    are fetched: the search returns, and every column it reports holds the
    value in a selected row that the table has. *)
Lemma findColsByVal_tolerates rules (targetRows : Table) :
  Forall (fun rule =>
            match prepareListOfIndices (row rule) with
            | ANY_OPT => True
            | Indices rowIndices => Forall (fun i => 0 <= i) rowIndices
            end) rules ->
  exists cols,
    findColsByVal rules targetRows = Ok cols
    /\ forall c, c ∈ cols ->
         exists rule r cells,
           rule ∈ rules /\ selects (row rule) r
           /\ js_get targetRows r = Some cells /\ js_get cells c = val rule.
Proof.
  induction 1 as [|rule rules Hrule _ (cols & Hcols & Hspec)].
  - exists []. split; [done|]. intros c Hin. by apply elem_of_nil in Hin.
  - cbn [findColsByVal].
    assert (exists found,
      match prepareListOfIndices (row rule) with
      | ANY_OPT => checkRowsByVal (val rule) (map Some targetRows)
      | Indices rowIndices =>
          checkRowsByVal (val rule)
            (map (fun i => js_get targetRows i)
               (filter (fun i => i < js_length targetRows) rowIndices))
      end = Ok found
      /\ forall c, c ∈ found ->
           exists r cells, selects (row rule) r
             /\ js_get targetRows r = Some cells /\ js_get cells c = val rule)
      as (found & Hfound & Hfspec).
    { destruct (prepareListOfIndices (row rule)) as [|rowIndices] eqn:Eprep.
      - destruct (checkRowsByVal_present (val rule) targetRows)
          as (found & Hfound & Hf).
        exists found. split; [done|]. intros c Hc.
        destruct (Hf c Hc) as (cells & Hin & Hget).
        apply list_elem_of_lookup in Hin as [k Hk].
        exists (Z.of_nat k), cells. split; [|split; [|done]].
        + destruct (row rule); simpl in *; done.
        + apply js_get_Some. rewrite Nat2Z.id. split; [lia|done].
      - destruct (checkRowsByVal_fetched (val rule) targetRows rowIndices Hrule)
          as (found & Hfound & Hf).
        exists found. split; [done|]. intros c Hc.
        destruct (Hf c Hc) as (r & cells & Hr & Hget).
        exists r, cells. split; [|done].
        destruct (row rule); simpl in *; try done.
        + injection Eprep as <-. by apply list_elem_of_singleton in Hr.
        + by injection Eprep as <-. }
    rewrite Hfound, Hcols. simpl. eexists. split; [done|].
    intros c Hc. apply elem_of_app in Hc as [Hc|Hc].
    + destruct (Hfspec c Hc) as (r & cells & Hsel & Hr & Hget).
      exists rule, r, cells. split; [left|done].
    + destruct (Hspec c Hc) as (rule' & r & cells & Hin & Hrest).
      exists rule', r, cells. split; [by right|done].
Qed.

(** ** Rows out of range in the column filter *)

(** C7. A value rule naming a row the table does not have: at top level
    [findColsByVal] drops the row index and [ignoreColIf] succeeds without a
    match; inside an allOf group [findColsByCombinedVals] fetches the
    missing row and [ignoreColIf] raises a [TypeError].  The row filter
    skips a missing column in both places. *)
Theorem out_of_range_row_in_group `{JsHost} :
  let table := [[VStr "a"; VStr "b"]] in
  forall onSuccess onError,
    ignoreColIf table [allOfRule [rowValRule (SelIndex 5) (VStr "a")]]
      onSuccess onError
    = Uncaught TypeError
    /\ ignoreColIf table [rowValRule (SelIndex 5) (VStr "a")]
         onSuccess onError
       = onSuccess table
    /\ ignoreRowIf table [allOfRule [colValRule (SelIndex 5) (VStr "a")]]
         onSuccess onError
       = onSuccess table
    /\ ignoreRowIf table [colValRule (SelIndex 5) (VStr "a")]
         onSuccess onError
       = onSuccess table.
Proof. intros table onSuccess onError. repeat split. Qed.

(** ** Removing columns *)

Lemma removeColsOfRow_omit cols cells i :
  removeColsOfRow cols cells i
  = (filter (fun p => p.1 ∉ (list_to_set cols : gset Z))
       (zip (seqZ i (js_length cells)) cells)).*2.
Proof.
  revert i. induction cells as [|cell rest IH]; intros i; [done|].
  unfold js_length. cbn [length removeColsOfRow].
  rewrite seqZ_cons by lia.
  replace (Z.pred (Z.of_nat (S (length rest)))) with (js_length rest)
    by (unfold js_length; lia).
  cbn [zip zip_with]. rewrite filter_cons. cbn [fst].
  rewrite IH. replace (Z.succ i) with (i + 1) by lia.
  case_bool_decide as Hi; apply indexOf_absent in Hi || apply indexOf_present in Hi;
    case_decide as Hd; rewrite elem_of_list_to_set in Hd; done.
Qed.

Lemma removeCols_omit targetRows cols :
  removeCols targetRows cols = map (omitCols (list_to_set cols)) targetRows.
Proof.
  unfold removeCols, omitCols. apply map_ext. intros row.
  apply removeColsOfRow_omit.
Qed.

Lemma omitCols_length drop row :
  (length (omitCols drop row)
   + length (filter (fun c => c ∈ drop) (seqZ 0 (js_length row))) = length row)%nat.
Proof.
  unfold omitCols. rewrite length_fmap.
  generalize 0. unfold js_length.
  induction row as [|cell rest IH]; intros i; [done|].
  rewrite seqZ_cons by (simpl; lia).
  replace (Z.pred (Z.of_nat (length (cell :: rest))))
    with (Z.of_nat (length rest)) by (simpl; lia).
  cbn [zip zip_with]. rewrite !filter_cons. cbn [fst].
  specialize (IH (Z.succ i)).
  destruct (decide (i ∈ drop)); destruct (decide (i ∉ drop)); try done;
    simpl; lia.
Qed.

(** The groups are searched one after the other, and what they find is
    put together. *)
Lemma colsByAllOf_groups `{JsHost} (combineRules : list Rule)
    (targetRows : Table) (byGroups : list (list Z)) :
  Forall2 (fun group found =>
             exists rules,
               allOf group = Some rules
               /\ findColsByCombinedVals rules targetRows = Ok found)
    combineRules byGroups ->
  colsByAllOf combineRules targetRows = Ok (mjoin byGroups).
Proof.
  induction 1 as [|group found groups byGroups (rules & Hg & Hfound) _ IH];
    [done|].
  cbn [colsByAllOf]. rewrite Hg, Hfound. cbn [bind]. by rewrite IH.
Qed.

Lemma colsByAllOf_cases `{JsHost} (combineRules : list Rule)
    (targetRows : Table) :
  Forall hasAllOf combineRules ->
  (exists e, colsByAllOf combineRules targetRows = Throw e)
  \/ (exists byGroups,
        Forall2 (fun group found =>
                   exists rules,
                     allOf group = Some rules
                     /\ findColsByCombinedVals rules targetRows = Ok found)
          combineRules byGroups).
Proof.
  induction 1 as [|group groups Hg _ IH].
  - right. exists []. constructor.
  - cbn [colsByAllOf]. unfold hasAllOf in Hg.
    destruct (allOf group) as [rules|] eqn:Eg; [|done].
    destruct (findColsByCombinedVals rules targetRows) as [found|e] eqn:Ef;
      [|left; by exists e].
    destruct IH as [[e He]|[byGroups Hall]].
    + left. exists e. by rewrite He.
    + right. exists (found :: byGroups). constructor; [|done].
      exists rules. by rewrite Eg.
Qed.

Lemma list_to_set_mjoin (ls : list (list Z)) :
  (list_to_set (mjoin ls) : gset Z) = ⋃ (list_to_set <$> ls).
Proof.
  induction ls as [|l ls IH]; [done|].
  rewrite fmap_cons, union_list_cons, <- IH.
  apply (list_to_set_app_L l (mjoin ls)).
Qed.

(** C8. For every ignoreColIf invocation, either an exception of one of
    the searches escapes, or the index rules, the value rules and each of
    the [allOf] groups produce their columns.  The table handed to
    [onSuccess] is then the input with, in every row, the cells omitted
    whose position lies in the union of the columns of the index rules, of
    the value rules and of every group.  Removal goes by membership: a
    position found several times is removed once, each row loses as many
    cells as it has positions in the union, and two lists of columns with
    the same members remove the same cells. *)
Theorem ignoreColIf_drops_union `{JsHost} (params : list Rule)
    (targetRows : Table) :
  ((exists e, forall onSuccess onError,
      ignoreColIf targetRows params onSuccess onError = Uncaught e)
   \/ (exists byIndex byVal byGroups,
         colsByIndex params targetRows = Ok byIndex
         /\ findColsByVal (filter hasVal params) targetRows = Ok byVal
         /\ Forall2 (fun group found =>
                       exists rules,
                         allOf group = Some rules
                         /\ findColsByCombinedVals rules targetRows = Ok found)
              (filter hasAllOf params) byGroups))
  /\ forall (byIndex byVal : list Z) (byGroups : list (list Z)),
       colsByIndex params targetRows = Ok byIndex ->
       findColsByVal (filter hasVal params) targetRows = Ok byVal ->
       Forall2 (fun group found =>
                  exists rules,
                    allOf group = Some rules
                    /\ findColsByCombinedVals rules targetRows = Ok found)
         (filter hasAllOf params) byGroups ->
       let drop : gset Z :=
         list_to_set byIndex ∪ list_to_set byVal
         ∪ ⋃ (list_to_set <$> byGroups) in
       (forall onSuccess onError,
          ignoreColIf targetRows params onSuccess onError
          = onSuccess (map (omitCols drop) targetRows))
       /\ (forall row,
             (length (omitCols drop row)
              + length (filter (fun c => c ∈ drop) (seqZ 0 (js_length row)))
              = length row)%nat)
       /\ (forall cols cols' : list Z,
             (forall c, c ∈ cols <-> c ∈ cols') ->
             removeCols targetRows cols = removeCols targetRows cols').
Proof.
  split.
  - unfold ignoreColIf.
    destruct (colsByIndex params targetRows) as [byIndex|e];
      [|left; by exists e].
    destruct (findColsByVal (filter hasVal params) targetRows) as [byVal|e];
      [|left; by exists e].
    destruct (colsByAllOf_cases (filter hasAllOf params) targetRows)
      as [[e He]|[byGroups Hg]].
    + apply Forall_forall. intros group Hin.
      by apply list_elem_of_filter in Hin as [? _].
    + left. exists e. intros onSuccess onError. cbn [bind]. by rewrite He.
    + right. by exists byIndex, byVal, byGroups.
  - intros byIndex byVal byGroups Hi Hv Hg drop. split; [|split].
    + intros onSuccess onError. unfold ignoreColIf.
      rewrite Hi, Hv, (colsByAllOf_groups _ _ _ Hg). cbn [bind]. f_equal.
      rewrite removeCols_omit.
      by rewrite !list_to_set_app_L, list_to_set_mjoin, (assoc_L (∪)).
    + intros row. apply omitCols_length.
    + intros cols cols' Hsame. rewrite !removeCols_omit.
      assert ((list_to_set cols : gset Z) = list_to_set cols') as ->; [|done].
      apply set_eq. intros c. by rewrite !elem_of_list_to_set.
Qed.

(** The law at [unionRules] on [raggedTable]: an index rule, a value rule
    and two groups. *)
Lemma ignoreColIf_drops_union_witness :
  @colsByIndex integerHost unionRules raggedTable = Ok [0]
  /\ findColsByVal (filter hasVal unionRules) raggedTable = Ok [0]
  /\ Forall2 (fun group found =>
                exists rules,
                  allOf group = Some rules
                  /\ @findColsByCombinedVals integerHost rules raggedTable
                     = Ok found)
       (filter hasAllOf unionRules) [[0]; [1]]
  /\ @ignoreColIf integerHost raggedTable unionRules SuccessCalled ErrorCalled
     = SuccessCalled
         (map (omitCols (list_to_set [0] ∪ list_to_set [0]
                         ∪ ⋃ (list_to_set <$> [[0]; [1]])))
            raggedTable).
Proof.
  assert (Hg : Forall2 (fun group found =>
                exists rules,
                  allOf group = Some rules
                  /\ @findColsByCombinedVals integerHost rules raggedTable
                     = Ok found)
                 (filter hasAllOf unionRules) [[0]; [1]]).
  { repeat constructor; eexists; split; reflexivity. }
  split; [reflexivity|]. split; [reflexivity|]. split; [exact Hg|].
  exact (proj1 (proj2 (@ignoreColIf_drops_union integerHost unionRules
                         raggedTable)
                  [0] [0] [[0]; [1]] eq_refl eq_refl Hg)
           SuccessCalled ErrorCalled).
Defined.

(** Column 0 is found by the index rule, by the value rule and by the
    group, and is removed once. *)
Example ignoreColIf_ragged_example :
  @ignoreColIf integerHost raggedTable columnRules SuccessCalled ErrorCalled
  = SuccessCalled [[]; [VStr "C"]].
Proof. reflexivity. Qed.

(** Two groups, the first finding column 0 and the second column 1: both
    columns are removed. *)
Example ignoreColIf_two_groups_example :
  @ignoreColIf integerHost raggedTable
    [ allOfRule [rowValRule (SelIndex 0) (VStr "A")];
      allOfRule [rowValRule (SelIndex 0) (VStr "B")] ]
    SuccessCalled ErrorCalled
  = SuccessCalled [[]; [VStr "C"]].
Proof. reflexivity. Qed.

(** ** Dispatch of operations *)

Section refine_dispatch.
Context `{JsHost} {Param : Type} (asRules : Param -> option (list Rule)).
Context (replace interpretStr transpose : @Strategy Param).
Context (objectPrototype : string -> option (@Strategy Param)).

#[local] Abbreviation strategies :=
  (refineStrategies asRules replace interpretStr transpose).
#[local] Abbreviation lookup_ :=
  (lookupStrategy asRules replace interpretStr transpose objectPrototype).
#[local] Abbreviation execute :=
  (executeOperation asRules replace interpretStr transpose objectPrototype).
#[local] Abbreviation run :=
  (refine asRules replace interpretStr transpose objectPrototype).

(** The own keys of the dispatch table are the five recognized names. *)
Lemma refineStrategies_keys name :
  is_Some (strategies !! name) <-> name ∈ recognizedNames.
Proof.
  unfold recognizedNames, refineStrategies.
  rewrite !elem_of_cons, elem_of_nil.
  rewrite !lookup_insert_is_Some, lookup_singleton_is_Some.
  naive_solver.
Qed.

Lemma lookupStrategy_unknown name :
  name ∉ recognizedNames -> objectPrototype name = None ->
  lookup_ name = None.
Proof.
  intros Hn Hp. unfold lookupStrategy.
  destruct (strategies !! name) as [strategy|] eqn:E; [|done].
  destruct Hn. apply refineStrategies_keys. by eexists.
Qed.

Lemma executeOperation_unknown bad targetRows onSuccess onError :
  operation bad ∉ recognizedNames ->
  objectPrototype (operation bad) = None ->
  execute bad targetRows onSuccess onError = Uncaught TypeError.
Proof.
  intros Hn Hp. unfold executeOperation.
  by rewrite lookupStrategy_unknown.
Qed.

(** Once the reduction reaches an unknown operation, nothing behind it
    and nothing of the final callback matters. *)
Lemma asyncReduce_unknown before bad after after' memo callback callback' :
  operation bad ∉ recognizedNames ->
  objectPrototype (operation bad) = None ->
  (forall err, callback (inl err) = callback' (inl err)) ->
  let iterator := fun targetRows op callback =>
    execute op targetRows (fun newTargetRows => callback (inr newTargetRows))
      (fun err => callback (inl err)) in
  asyncReduce (before ++ bad :: after) memo iterator callback
  = asyncReduce (before ++ bad :: after') memo iterator callback'.
Proof.
  intros Hn Hp Herr iterator. revert memo.
  induction before as [|op before IH]; intros memo; simpl.
  - unfold iterator. by rewrite !executeOperation_unknown.
  - unfold iterator at 1 3. f_equal; apply functional_extensionality.
    + intros newTargetRows. apply IH.
    + intros err. apply Herr.
Qed.

(** Where the reduction reaches an unknown operation, the exception takes
    the place of what the operations before it would pass on. *)
Lemma asyncReduce_reaches_unknown before bad after memo callback :
  operation bad ∉ recognizedNames ->
  objectPrototype (operation bad) = None ->
  let iterator := fun targetRows op callback =>
    execute op targetRows (fun newTargetRows => callback (inr newTargetRows))
      (fun err => callback (inl err)) in
  asyncReduce (before ++ bad :: after) memo iterator callback
  = asyncReduce before memo iterator
      (fun result =>
         match result with
         | inl err => callback (inl err)
         | inr _ => Uncaught TypeError
         end).
Proof.
  intros Hn Hp iterator. revert memo.
  induction before as [|op before IH]; intros memo; simpl.
  - unfold iterator. by rewrite executeOperation_unknown.
  - unfold iterator at 1 3. f_equal. apply functional_extensionality.
    intros newTargetRows. apply IH.
Qed.

(** C9. What [refine] does with an operation whose name is neither one of
    the five recognized names nor a property the dispatch table inherits:
    the dispatch calls [undefined], and the [TypeError] of that call
    escapes [refine], whether or not an error handler was supplied; the
    handler is not invoked for it.  With the unknown operation first, the
    exception is the whole outcome.  Wherever the unknown operation stands
    in the list, no operation behind it runs, the success callback is never
    invoked (the outcome does not depend on it), and the outcome is that of
    the operations before it with the exception in the place of the call
    of their success callback. *)
Theorem unknown_operation_raises (bad : Operation) :
  operation bad ∉ recognizedNames ->
  objectPrototype (operation bad) = None ->
  (forall after targetRows onSuccess onError,
     run (bad :: after) targetRows onSuccess onError = Uncaught TypeError)
  /\ (forall before after targetRows onSuccess onError,
        run (before ++ bad :: after) targetRows onSuccess onError
        = run (before ++ [bad]) targetRows onSuccess onError)
  /\ (forall before after targetRows onSuccess onSuccess' onError,
        run (before ++ bad :: after) targetRows onSuccess onError
        = run (before ++ bad :: after) targetRows onSuccess' onError)
  /\ (forall before after targetRows onSuccess onError,
        run (before ++ bad :: after) targetRows onSuccess onError
        = run before targetRows (fun _ => Uncaught TypeError) onError).
Proof.
  intros Hn Hp. split; [|split; [|split]].
  - intros after targetRows onSuccess onError. unfold refine. simpl.
    by apply executeOperation_unknown.
  - intros before after targetRows onSuccess onError. unfold refine.
    by apply asyncReduce_unknown.
  - intros before after targetRows onSuccess onSuccess' onError.
    unfold refine. by apply asyncReduce_unknown.
  - intros before after targetRows onSuccess onError. unfold refine.
    by rewrite asyncReduce_reaches_unknown.
Qed.
End refine_dispatch.

(** An unknown operation between two known ones: the operation behind it
    does not run, and the exception escapes where the first operation would
    pass its table on. *)
Lemma unknown_operation_raises_witness :
  let bogus := mkOperation "bogus" ([] : list Rule) in
  let keepAll := mkOperation "ignoreRowIf" ([] : list Rule) in
  (operation bogus ∉ recognizedNames)
  /\ (es5ObjectPrototype (Param := list Rule) (operation bogus) = None)
  /\ forall targetRows onSuccess onError,
      @refine integerHost (list Rule) Some standIn standIn standIn
        es5ObjectPrototype [keepAll; bogus; keepAll] targetRows onSuccess onError
      = @refine integerHost (list Rule) Some standIn standIn standIn
          es5ObjectPrototype [keepAll; bogus] targetRows onSuccess onError
      /\ @refine integerHost (list Rule) Some standIn standIn standIn
           es5ObjectPrototype [keepAll; bogus; keepAll] targetRows onSuccess
           onError
         = @refine integerHost (list Rule) Some standIn standIn standIn
             es5ObjectPrototype [keepAll] targetRows
             (fun _ => Uncaught TypeError) onError.
Proof.
  intros bogus keepAll.
  assert (Hn : operation bogus ∉ recognizedNames).
  { intros Hin. unfold recognizedNames in Hin.
    repeat (apply elem_of_cons in Hin as [Hin|Hin]; [discriminate|]).
    by apply elem_of_nil in Hin. }
  split; [exact Hn|]. split; [reflexivity|].
  intros targetRows onSuccess onError.
  destruct (@unknown_operation_raises integerHost (list Rule) Some
              standIn standIn standIn es5ObjectPrototype bogus Hn eq_refl)
    as (_ & Hstop & _ & Hreach).
  split.
  - exact (Hstop [keepAll] [keepAll] targetRows onSuccess onError).
  - exact (Hreach [keepAll] [keepAll] targetRows onSuccess onError).
Defined.

(** An unknown operation with an error handler supplied: the handler is not
    invoked, the [TypeError] of the dispatch escapes. *)
Lemma unknown_operation_counterexample :
  let outcome :=
    @refine integerHost (list Rule) Some standIn standIn standIn
      es5ObjectPrototype [mkOperation "bogus" []] [[VStr "a"]]
      SuccessCalled (Some ErrorCalled) in
  outcome = Uncaught TypeError /\ ~ exists msg, outcome = ErrorCalled msg.
Proof.
  intros outcome. assert (Ho : outcome = Uncaught TypeError) by reflexivity.
  split; [exact Ho|]. intros [msg Hmsg]. rewrite Ho in Hmsg. discriminate.
Qed.

(** After a known operation the same happens: the rows pass the first
    operation, the dispatch of the second raises, and neither callback is
    invoked. *)
Example unknown_operation_second_example :
  @refine integerHost (list Rule) Some standIn standIn standIn
    es5ObjectPrototype
    [mkOperation "ignoreRowIf" []; mkOperation "bogus" []] [[VStr "a"]]
    SuccessCalled (Some ErrorCalled)
  = Uncaught TypeError.
Proof. reflexivity. Qed.

(** The name of a property the dispatch table inherits: the inherited
    function is called and returns; no callback is invoked and no
    exception is raised. *)
Example inherited_operation_example :
  @refine integerHost (list Rule) Some standIn standIn standIn
    es5ObjectPrototype [mkOperation "toString" []] [[VStr "a"]]
    SuccessCalled (Some ErrorCalled)
  = Returned.
Proof. reflexivity. Qed.

(** * Further properties of the code *)

(** ** Equality expressions *)

Lemma substring_all s : String.substring 0 (String.length s) s = s.
Proof. induction s as [|a s IH]; simpl; [done|]. by rewrite IH. Qed.

Lemma substring_0_0 s : String.substring 0 0 s = EmptyString.
Proof. by destruct s. Qed.

Lemma num_eq_integer i n : num_eq i (Finite (inject_Z n)) = true <-> i = n.
Proof.
  simpl. rewrite Qeq_bool_iff. unfold Qeq. simpl. lia.
Qed.

Lemma num_le_integer i n : num_le i (Finite (inject_Z n)) = true <-> i <= n.
Proof. simpl. rewrite Qle_bool_iff. unfold Qle. simpl. lia. Qed.

Lemma num_ge_integer i n : num_ge i (Finite (inject_Z n)) = true <-> n <= i.
Proof. simpl. rewrite Qle_bool_iff. unfold Qle. simpl. lia. Qed.

Lemma num_lt_integer i n : num_lt i (Finite (inject_Z n)) = true <-> i < n.
Proof.
  simpl. rewrite negb_true_iff, <- not_true_iff_false, Qle_bool_iff.
  unfold Qle. simpl. lia.
Qed.

Lemma num_gt_integer i n : num_gt i (Finite (inject_Z n)) = true <-> n < i.
Proof.
  simpl. rewrite negb_true_iff, <- not_true_iff_false, Qle_bool_iff.
  unfold Qle. simpl. lia.
Qed.

(** How an expression of at least three characters is cut: its first two
    characters are looked up, the rest is handed to [Number]. *)
Lemma createEqualityEvaluator_cut `{JsHost} a b rest :
  rest <> EmptyString ->
  createEqualityEvaluator (String a (String b rest))
  = match equalityStrategies !! String a (String b EmptyString) with
    | None => Throw TypeError
    | Some strategy => Ok (Some (strategy (Number rest)))
    end.
Proof.
  intros Hrest. unfold createEqualityEvaluator.
  case_decide as Hlen.
  { destruct rest; [done|]. simpl in Hlen. lia. }
  replace (String.substring 0 2 (String a (String b rest)))
    with (String a (String b EmptyString)) by (simpl; by rewrite substring_0_0).
  replace (String.substring 2 (String.length (String a (String b rest)) - 2)
             (String a (String b rest)))
    with rest; [done|].
  simpl. by rewrite Nat.sub_0_r, substring_all.
Qed.

(** An expression made of an operator of the table and a non-empty
    operand is read: the evaluator is the operator's strategy at the
    number the host reads from the operand. *)
Lemma createEqualityEvaluator_operator `{JsHost} operator rest :
  operator ∈ operators -> rest <> EmptyString ->
  exists strategy,
    equalityStrategies !! operator = Some strategy
    /\ createEqualityEvaluator (operator +:+ rest)
       = Ok (Some (strategy (Number rest))).
Proof.
  intros Hop Hrest. unfold operators in Hop.
  repeat (apply elem_of_cons in Hop as [->|Hop]);
    [..|by apply elem_of_nil in Hop].
  all: eexists; split; [reflexivity|].
  all: exact (createEqualityEvaluator_cut _ _ rest Hrest).
Qed.

Lemma createEqualityEvaluator_compares `{JsHost} (operator rest : string) (n : Z) :
  operator ∈ operators ->
  rest <> EmptyString ->
  Number rest = Finite (inject_Z n) ->
  exists ev,
    createEqualityEvaluator (operator +:+ rest) = Ok (Some ev)
    /\ forall i, ev i = true <-> compares operator i n.
Proof.
  intros Hop Hrest Hn.
  destruct (createEqualityEvaluator_operator operator rest Hop Hrest)
    as (strategy & Hs & ->).
  eexists. split; [done|]. intros i. rewrite Hn.
  unfold operators in Hop.
  repeat (apply elem_of_cons in Hop as [->|Hop]);
    [..|by apply elem_of_nil in Hop].
  all: unfold compares; simpl decide.
  - assert (strategy = fun value op => num_eq op value) as ->
      by (apply (inj Some); rewrite <- Hs; reflexivity).
    apply num_eq_integer.
  - assert (strategy = fun value op => num_gt op value) as ->
      by (apply (inj Some); rewrite <- Hs; reflexivity).
    apply num_gt_integer.
  - assert (strategy = fun value op => num_ge op value) as ->
      by (apply (inj Some); rewrite <- Hs; reflexivity).
    apply num_ge_integer.
  - assert (strategy = fun value op => num_lt op value) as ->
      by (apply (inj Some); rewrite <- Hs; reflexivity).
    apply num_lt_integer.
  - assert (strategy = fun value op => num_le op value) as ->
      by (apply (inj Some); rewrite <- Hs; reflexivity).
    apply num_le_integer.
  - assert (strategy = fun value op => negb (num_eq op value)) as ->
      by (apply (inj Some); rewrite <- Hs; reflexivity).
    rewrite negb_true_iff, <- not_true_iff_false. by rewrite num_eq_integer.
Qed.

(** X1. An equality expression made of one of the six operators and of an
    operand that [Number] reads as the integer [n] yields an evaluator, and
    the evaluator accepts the index [i] exactly when [i] stands in the
    operator's relation to [n]: [i == n], [i > n], [i >= n], [i < n],
    [i <= n] or [i != n]. *)
Theorem evaluator_integer_operand `{JsHost} (operator rest : string) (n : Z) :
  operator ∈ operators ->
  rest <> EmptyString ->
  Number rest = Finite (inject_Z n) ->
  exists ev,
    createEqualityEvaluator (operator +:+ rest) = Ok (Some ev)
    /\ forall i, ev i = true <-> compares operator i n.
Proof. apply createEqualityEvaluator_compares. Qed.

(** The expression [>=2] under [integerHost]. *)
Lemma evaluator_integer_operand_witness :
  ">=" ∈ operators /\ "2" <> EmptyString
  /\ @Number integerHost "2" = Finite (inject_Z 2)
  /\ exists ev,
      @createEqualityEvaluator integerHost (">=" +:+ "2") = Ok (Some ev)
      /\ forall i, ev i = true <-> compares ">=" i 2.
Proof.
  assert (Hop : ">=" ∈ operators) by (do 2 right; left).
  assert (Hrest : "2" <> EmptyString) by discriminate.
  split; [exact Hop|]. split; [exact Hrest|]. split; [reflexivity|].
  exact (@evaluator_integer_operand integerHost ">=" "2" 2 Hop Hrest eq_refl).
Defined.

(** X2. If [Number] reads the operand of an equality expression as [NaN],
    the expression still yields an evaluator; under [==], [> ], [>=], [< ]
    and [<=] the evaluator accepts no index, under [!=] it accepts every
    index. *)
Theorem evaluator_nan_operand `{JsHost} (operator rest : string) :
  operator ∈ operators ->
  rest <> EmptyString ->
  Number rest = NaN ->
  exists ev,
    createEqualityEvaluator (operator +:+ rest) = Ok (Some ev)
    /\ forall i, ev i = true <-> operator = "!=".
Proof.
  intros Hop Hrest Hn.
  destruct (createEqualityEvaluator_operator operator rest Hop Hrest)
    as (strategy & Hs & ->).
  eexists. split; [done|]. intros i. rewrite Hn.
  unfold operators in Hop.
  repeat (apply elem_of_cons in Hop as [->|Hop]);
    [..|by apply elem_of_nil in Hop].
  - assert (strategy = fun value op => num_eq op value) as ->
      by (apply (inj Some); rewrite <- Hs; reflexivity). done.
  - assert (strategy = fun value op => num_gt op value) as ->
      by (apply (inj Some); rewrite <- Hs; reflexivity). done.
  - assert (strategy = fun value op => num_ge op value) as ->
      by (apply (inj Some); rewrite <- Hs; reflexivity). done.
  - assert (strategy = fun value op => num_lt op value) as ->
      by (apply (inj Some); rewrite <- Hs; reflexivity). done.
  - assert (strategy = fun value op => num_le op value) as ->
      by (apply (inj Some); rewrite <- Hs; reflexivity). done.
  - assert (strategy = fun value op => negb (num_eq op value)) as ->
      by (apply (inj Some); rewrite <- Hs; reflexivity). done.
Qed.

(** The expression [==abc] under [integerHost]: no index is accepted. *)
Lemma evaluator_nan_operand_witness :
  "==" ∈ operators /\ "abc" <> EmptyString
  /\ @Number integerHost "abc" = NaN
  /\ exists ev,
      @createEqualityEvaluator integerHost ("==" +:+ "abc") = Ok (Some ev)
      /\ forall i, ev i = true <-> "==" = "!=".
Proof.
  assert (Hop : "==" ∈ operators) by left.
  assert (Hrest : "abc" <> EmptyString) by discriminate.
  split; [exact Hop|]. split; [exact Hrest|]. split; [reflexivity|].
  exact (@evaluator_nan_operand integerHost "==" "abc" Hop Hrest eq_refl).
Defined.

(** ** Outcomes of the index predicate *)

(** The evaluator stored for an expression whose operator, if it is long
    enough to have one, is in the table. *)
Lemma createEqualityEvaluator_short `{JsHost} s :
  shortExpr s -> createEqualityEvaluator s = Ok None.
Proof. intros Hs. unfold createEqualityEvaluator. by case_decide. Qed.

Lemma createEqualityEvaluator_unknown `{JsHost} s :
  unknownOperator s -> createEqualityEvaluator s = Throw TypeError.
Proof.
  intros [Hlen Hop]. unfold createEqualityEvaluator.
  case_decide; [lia|]. by rewrite Hop.
Qed.

Lemma expression_cases s :
  shortExpr s \/ unknownOperator s \/ wellFormedExpr s.
Proof.
  unfold shortExpr, unknownOperator, wellFormedExpr.
  destruct (decide (String.length s < 3)%nat); [by left|right].
  destruct (equalityStrategies !! String.substring 0 2 s) eqn:E.
  - right. split; [lia|by eexists].
  - left. split; [lia|done].
Qed.

#[global] Instance shortExpr_dec s : Decision (shortExpr s).
Proof. unfold shortExpr. apply _. Defined.
#[global] Instance unknownOperator_dec s : Decision (unknownOperator s).
Proof. unfold unknownOperator. apply _. Defined.

Lemma indexExpressions_cons rule rules :
  indexExpressions (rule :: rules)
  = match index rule with
    | Some (IndexStr s) => s :: indexExpressions rules
    | _ => indexExpressions rules
    end.
Proof. unfold indexExpressions. simpl. by destruct (index rule) as [[| |]|]. Qed.

Lemma listedIndices_cons rule rules :
  listedIndices (rule :: rules)
  = match index rule with
    | Some (IndexNum n) => [n]
    | Some (IndexList l) => l
    | _ => []
    end ++ listedIndices rules.
Proof. done. Qed.

Lemma indexExpressions_filter rules :
  indexExpressions (filter hasIndex rules) = indexExpressions rules.
Proof.
  induction rules as [|rule rules IH]; [done|].
  rewrite filter_cons. case_decide as Hd.
  - by rewrite !indexExpressions_cons, IH.
  - rewrite indexExpressions_cons, IH. unfold hasIndex in Hd.
    destruct (index rule); [by destruct Hd|done].
Qed.

Lemma listedIndices_filter rules :
  listedIndices (filter hasIndex rules) = listedIndices rules.
Proof.
  induction rules as [|rule rules IH]; [done|].
  rewrite filter_cons. case_decide as Hd.
  - by rewrite !listedIndices_cons, IH.
  - rewrite listedIndices_cons, IH. unfold hasIndex in Hd.
    destruct (index rule); [by destruct Hd|done].
Qed.

(** What the accumulation of [createKeepIndexChecker] ends with. *)
Lemma collectIndexRules_result `{JsHost} rules ignoreRows evaluators :
  (Exists unknownOperator (indexExpressions rules) ->
   collectIndexRules rules ignoreRows evaluators = Throw TypeError)
  /\ (~ Exists unknownOperator (indexExpressions rules) ->
      exists evaluators',
        collectIndexRules rules ignoreRows evaluators
        = Ok (ignoreRows ++ listedIndices rules, evaluators ++ evaluators')
        /\ Forall2 (fun s ev => createEqualityEvaluator s = Ok ev)
             (indexExpressions rules) evaluators').
Proof.
  revert ignoreRows evaluators.
  induction rules as [|rule rules IH]; intros ignoreRows evaluators.
  - split; [by intros ?%Exists_nil|]. intros _. exists [].
    unfold listedIndices. simpl. by rewrite !app_nil_r.
  - rewrite indexExpressions_cons, listedIndices_cons. cbn [collectIndexRules].
    destruct (index rule) as [[n|l|s]|]; cbn [app].
    + destruct (IH (ignoreRows ++ [n]) evaluators) as [IH1 IH2].
      split; [done|]. intros Hn. destruct (IH2 Hn) as (evs & -> & Hevs).
      exists evs. by rewrite <- app_assoc.
    + destruct (IH (ignoreRows ++ l) evaluators) as [IH1 IH2].
      split; [done|]. intros Hn. destruct (IH2 Hn) as (evs & -> & Hevs).
      exists evs. by rewrite <- app_assoc.
    + destruct (expression_cases s) as [Hs|[Hs|Hs]].
      * rewrite (createEqualityEvaluator_short s Hs). simpl.
        destruct (IH ignoreRows (evaluators ++ [None])) as [IH1 IH2].
        split.
        -- intros Hex. apply Exists_cons in Hex as [[Hlen _]|Hex];
             [unfold shortExpr in Hs; lia|by apply IH1].
        -- intros Hn. destruct IH2 as (evs & -> & Hevs).
           { intros Hex. apply Hn. by right. }
           exists (None :: evs). rewrite <- app_assoc. split; [done|].
           constructor; [by apply createEqualityEvaluator_short|done].
      * rewrite (createEqualityEvaluator_unknown s Hs). simpl.
        split; [done|]. intros Hn. destruct Hn. by left.
      * destruct (createEqualityEvaluator_wellFormed s Hs) as [ev Hev].
        rewrite Hev. simpl.
        destruct (IH ignoreRows (evaluators ++ [Some ev])) as [IH1 IH2].
        split.
        -- intros Hex. apply Exists_cons in Hex as [[_ Hop]|Hex];
             [|by apply IH1].
           destruct Hs as [_ [? Hsome]]. congruence.
        -- intros Hn. destruct IH2 as (evs & -> & Hevs).
           { intros Hex. apply Hn. by right. }
           exists (Some ev :: evs). rewrite <- app_assoc. split; [done|].
           by constructor.
    + apply IH.
Qed.

Lemma runEvaluators_null `{JsHost} evaluators rowIndex passes :
  None ∈ evaluators ->
  runEvaluators evaluators rowIndex passes = Throw TypeError.
Proof.
  revert passes. induction evaluators as [|[ev|] evaluators IH];
    intros passes Hin; simpl; [by apply elem_of_nil in Hin| |done].
  apply IH. by apply elem_of_cons in Hin as [|].
Qed.

(** X3. What [createKeepIndexChecker] does with malformed equality
    expressions.  If some expression has three characters or more and its
    first two are no operator, building the checker raises a [TypeError].
    Otherwise a checker is returned; if some expression has less than three
    characters, every call of the checker raises a [TypeError], and if none
    has, every call returns. *)
Theorem createKeepIndexChecker_outcomes `{JsHost} (rules : list Rule) :
  (Exists unknownOperator (indexExpressions rules) ->
   createKeepIndexChecker rules = Throw TypeError)
  /\ (~ Exists unknownOperator (indexExpressions rules) ->
      exists shouldKeepIndex,
        createKeepIndexChecker rules = Ok shouldKeepIndex
        /\ forall rowIndex,
            (Exists shortExpr (indexExpressions rules) ->
             shouldKeepIndex rowIndex = Throw TypeError)
            /\ (~ Exists shortExpr (indexExpressions rules) ->
                returns (shouldKeepIndex rowIndex))).
Proof.
  unfold createKeepIndexChecker.
  destruct (collectIndexRules_result (filter hasIndex rules) [] []) as [H1 H2].
  rewrite indexExpressions_filter in H1, H2. split.
  - intros Hex. by rewrite (H1 Hex).
  - intros Hn. destruct (H2 Hn) as (evs & -> & Hevs). simpl.
    case_decide as Hlen.
    + eexists. split; [done|]. intros rowIndex. split.
      * intros Hex. apply length_zero_iff_nil in Hlen.
        rewrite <- indexExpressions_filter, Hlen in Hex.
        by apply Exists_nil in Hex.
      * intros _. by exists true.
    + eexists. split; [done|]. intros rowIndex. unfold keepIndexChecker. split.
      * intros Hex. rewrite runEvaluators_null; [done|].
        apply Exists_exists in Hex as (s & Hin & Hs).
        apply list_elem_of_lookup in Hin as [k Hk].
        destruct (Forall2_lookup_l _ _ _ _ _ Hevs Hk) as (ev & Hev & Hc).
        rewrite (createEqualityEvaluator_short s Hs) in Hc.
        injection Hc as <-. by eapply list_elem_of_lookup_2.
      * intros Hshort.
        destruct (runEvaluators_returns evs rowIndex true) as [b Hb].
        { apply Forall_forall. intros ev Hin.
          apply list_elem_of_lookup in Hin as [k Hk].
          destruct (Forall2_lookup_r _ _ _ _ _ Hevs Hk) as (s & Hs & Hc).
          destruct ev as [ev|]; [by eexists|].
          destruct Hshort. apply Exists_exists. exists s.
          split; [by eapply list_elem_of_lookup_2|].
          unfold shortExpr. unfold createEqualityEvaluator in Hc.
          case_decide; [done|]. by destruct (equalityStrategies !! _). }
        rewrite Hb. simpl. by eexists.
Qed.

(** ** The decision of the index predicate *)

#[global] Instance indexExcludes_dec `{JsHost} rules i :
  Decision (indexExcludes rules i).
Proof. unfold indexExcludes. apply _. Defined.

Lemma runEvaluators_holds `{JsHost} exprs evaluators rowIndex passes :
  Forall2 (fun s ev => createEqualityEvaluator s = Ok ev) exprs evaluators ->
  Forall wellFormedExpr exprs ->
  runEvaluators evaluators rowIndex passes
  = Ok (passes && forallb (fun s => exprHolds s rowIndex) exprs).
Proof.
  intros Hevs. revert passes.
  induction Hevs as [|s ev exprs evaluators Hs _ IH]; intros passes Hwf.
  - simpl. by rewrite andb_true_r.
  - apply Forall_cons in Hwf as [Hwfs Hwf].
    destruct (createEqualityEvaluator_wellFormed s Hwfs) as [ev' Hev'].
    rewrite Hev' in Hs. injection Hs as <-.
    cbn [runEvaluators forallb]. rewrite (IH _ Hwf).
    unfold exprHolds at 2. rewrite Hev'.
    f_equal. destruct (ev' rowIndex), passes; done.
Qed.

Lemma wellFormedIndex_expressions rules :
  Forall wellFormedIndex rules -> Forall wellFormedExpr (indexExpressions rules).
Proof.
  induction 1 as [|rule rules Hrule _ IH]; [constructor|].
  rewrite indexExpressions_cons. unfold wellFormedIndex in Hrule.
  destruct (index rule) as [[| |s]|]; try done. by constructor.
Qed.

Lemma wellFormedExpr_known s : wellFormedExpr s -> ~ unknownOperator s.
Proof. intros [_ [? Hs]] [_ Hn]. congruence. Qed.

Lemma createKeepIndexChecker_excludes `{JsHost} (rules : list Rule) :
  Forall wellFormedIndex rules ->
  exists shouldKeepIndex,
    createKeepIndexChecker rules = Ok shouldKeepIndex
    /\ forall rowIndex,
        shouldKeepIndex rowIndex
        = Ok (bool_decide (~ indexExcludes rules rowIndex)).
Proof.
  intros Hwf. pose proof (wellFormedIndex_expressions rules Hwf) as Hexprs.
  unfold createKeepIndexChecker.
  destruct (collectIndexRules_result (filter hasIndex rules) [] []) as [_ H2].
  rewrite indexExpressions_filter, listedIndices_filter in H2.
  destruct H2 as (evs & -> & Hevs).
  { intros Hex. apply Exists_exists in Hex as (s & Hin & Hs).
    rewrite Forall_forall in Hexprs. by apply (wellFormedExpr_known s); auto. }
  simpl. case_decide as Hlen.
  - eexists. split; [done|]. intros rowIndex.
    apply (f_equal Ok). symmetry.
    apply bool_decide_eq_true. apply length_zero_iff_nil in Hlen.
    unfold indexExcludes.
    rewrite <- listedIndices_filter, <- indexExpressions_filter, Hlen.
    intros [Hin|[Hne _]]; [by apply elem_of_nil in Hin|done].
  - eexists. split; [done|]. intros rowIndex. unfold keepIndexChecker.
    rewrite (runEvaluators_holds _ _ _ _ Hevs Hexprs). simpl. f_equal.
    apply eq_true_iff_eq. rewrite bool_decide_eq_true.
    rewrite andb_true_iff, orb_true_iff, !negb_true_iff.
    rewrite !bool_decide_eq_true, bool_decide_eq_false.
    rewrite <- not_true_iff_false, forallb_forall.
    assert (js_length evs = 0 <-> indexExpressions rules = []) as ->.
    { apply Forall2_length in Hevs. unfold js_length.
      rewrite <- Hevs. destruct (indexExpressions rules); simpl; [done|].
      split; [lia|done]. }
    unfold indexExcludes. rewrite Forall_forall.
    assert (indexOf (listedIndices rules) rowIndex <> -1
            <-> rowIndex ∈ listedIndices rules) as Hlisted
      by apply indexOf_present.
    split.
    + intros [Hn Hor] [Hin|[Hne Hall]]; [by apply Hn, Hlisted|].
      destruct Hor as [?|Hnot]; [done|]. apply Hnot.
      intros s Hs. apply Hall. by apply list_elem_of_In.
    + intros Hn. split.
      * intros Hin%Hlisted. apply Hn. by left.
      * destruct (decide (indexExpressions rules = [])) as [|Hne]; [by left|].
        right. intros Hall. apply Hn. right. split; [done|].
        intros s Hs. apply Hall. by apply list_elem_of_In.
Qed.

(** X4. For rules whose equality expressions are well formed,
    [createKeepIndexChecker] returns a checker that answers on every index,
    and answers [false] exactly on the excluded ones: the indices some
    numeric index rule lists, and the indices that every equality
    expression of the rules accepts, if there is an expression at all. *)
Theorem createKeepIndexChecker_decision `{JsHost} (rules : list Rule) :
  Forall wellFormedIndex rules ->
  exists shouldKeepIndex,
    createKeepIndexChecker rules = Ok shouldKeepIndex
    /\ forall rowIndex,
        shouldKeepIndex rowIndex
        = Ok (bool_decide (~ indexExcludes rules rowIndex)).
Proof. apply createKeepIndexChecker_excludes. Qed.

(** The checker of [indexRules]. *)
Lemma createKeepIndexChecker_decision_witness :
  Forall wellFormedIndex indexRules
  /\ exists shouldKeepIndex,
      @createKeepIndexChecker integerHost indexRules = Ok shouldKeepIndex
      /\ forall rowIndex,
          shouldKeepIndex rowIndex
          = Ok (bool_decide (~ @indexExcludes integerHost indexRules rowIndex)).
Proof.
  assert (Hwf : Forall wellFormedIndex indexRules).
  { repeat constructor. simpl. by eexists. }
  split; [exact Hwf|].
  exact (@createKeepIndexChecker_decision integerHost indexRules Hwf).
Defined.

(** ** Rows come out as they went in *)

Lemma keepRows_sublist `{JsHost} shouldKeepFunc targetRows rowIndex retVal :
  keepRows shouldKeepFunc targetRows rowIndex = Ok retVal ->
  retVal `sublist_of` targetRows.
Proof.
  revert rowIndex retVal.
  induction targetRows as [|row rest IH]; intros rowIndex retVal; simpl.
  - by intros [= <-].
  - intros Hk. apply bind_Ok in Hk as (keep & _ & Hk).
    apply bind_Ok in Hk as (out & Hout & [= <-]).
    apply IH in Hout. destruct keep.
    + by apply sublist_skip.
    + by apply sublist_cons.
Qed.

(** X5. [ignoreRowIf] only deletes rows: either it passes to [onSuccess]
    a table whose rows are rows of the input, in the order of the input, or
    an exception escapes. *)
Theorem ignoreRowIf_sublist `{JsHost} (rules : list Rule) (targetRows : Table)
    (onSuccess : Table -> Outcome) (onError : string -> Outcome) :
  (exists retVal,
     retVal `sublist_of` targetRows
     /\ ignoreRowIf targetRows rules onSuccess onError = onSuccess retVal)
  \/ (exists e, ignoreRowIf targetRows rules onSuccess onError = Uncaught e).
Proof.
  unfold ignoreRowIf.
  destruct (createRowKeepFunc rules true) as [f|e]; simpl;
    [|right; by eexists].
  destruct (keepRows f targetRows 0) as [retVal|e] eqn:Hk;
    [|right; by eexists].
  left. exists retVal. split; [by eapply keepRows_sublist|done].
Qed.

(** ** Rule lists that only carry indices *)

Lemma keepRows_positions `{JsHost} (P : Z -> Prop) `{!forall i, Decision (P i)}
    shouldKeepFunc (targetRows : Table) rowIndex :
  (forall row i, shouldKeepFunc row i = Ok (bool_decide (P i))) ->
  keepRows shouldKeepFunc targetRows rowIndex
  = Ok (filter (fun p => P p.1)
          (zip (seqZ rowIndex (js_length targetRows)) targetRows)).*2.
Proof.
  intros Hf. revert rowIndex.
  induction targetRows as [|row rest IH]; intros rowIndex; [done|].
  unfold js_length. cbn [length keepRows].
  rewrite seqZ_cons by lia.
  replace (Z.pred (Z.of_nat (S (length rest)))) with (js_length rest)
    by (unfold js_length; lia).
  cbn [zip zip_with]. rewrite filter_cons. cbn [fst].
  rewrite Hf, IH. replace (Z.succ rowIndex) with (rowIndex + 1) by lia.
  simpl. rewrite bool_decide_decide. by destruct (decide (P rowIndex)).
Qed.

Lemma isIndexRule_filters rules :
  Forall isIndexRule rules ->
  filter hasVal rules = [] /\ filter hasAllOf rules = [].
Proof.
  induction 1 as [|rule rules [Hv Ha] _ [IHv IHa]]; [done|].
  rewrite !filter_cons, IHv, IHa.
  repeat case_decide; unfold hasVal, hasAllOf in *; done.
Qed.

Lemma ignoreRowIf_positions `{JsHost} (rules : list Rule) :
  Forall isIndexRule rules ->
  Forall wellFormedIndex rules ->
  forall targetRows onSuccess onError,
    ignoreRowIf targetRows rules onSuccess onError
    = onSuccess (elementsAt (fun i => ~ indexExcludes rules i) targetRows).
Proof.
  intros Hidx Hwf targetRows onSuccess onError.
  destruct (isIndexRule_filters rules Hidx) as [Hv Ha].
  destruct (createKeepIndexChecker_excludes rules Hwf) as (chk & Hchk & Hdec).
  destruct (createRowKeepFunc_votes rules true chk []) as (f & Hf & Hvotes);
    [done| |].
  { unfold combinedKeepFuncs. by rewrite Ha. }
  unfold ignoreRowIf. rewrite Hf. simpl.
  rewrite (keepRows_positions (fun i => ~ indexExcludes rules i)); [done|].
  intros row i. rewrite Hvotes, Hv. simpl.
  destruct (reportsIndex rules) eqn:Hr; simpl.
  - by rewrite combineVotes_single.
  - apply reportsIndex_false in Hr.
    rewrite (createKeepIndexChecker_no_index rules Hr) in Hchk.
    injection Hchk as <-. by rewrite <- Hdec.
Qed.

(** X6. With rules that carry an index and nothing else, all well formed,
    [ignoreRowIf] passes to [onSuccess] the rows at the positions that are
    not excluded, in their order. *)
Theorem ignoreRowIf_index_rules `{JsHost} (rules : list Rule) :
  Forall isIndexRule rules ->
  Forall wellFormedIndex rules ->
  forall targetRows onSuccess onError,
    ignoreRowIf targetRows rules onSuccess onError
    = onSuccess (elementsAt (fun i => ~ indexExcludes rules i) targetRows).
Proof. apply ignoreRowIf_positions. Qed.

(** [indexRules] on every table. *)
Lemma ignoreRowIf_index_rules_witness :
  Forall isIndexRule indexRules /\ Forall wellFormedIndex indexRules
  /\ forall targetRows,
      @ignoreRowIf integerHost targetRows indexRules SuccessCalled ErrorCalled
      = SuccessCalled
          (elementsAt (fun i => ~ @indexExcludes integerHost indexRules i)
             targetRows).
Proof.
  assert (Hidx : Forall isIndexRule indexRules) by repeat constructor.
  assert (Hwf : Forall wellFormedIndex indexRules).
  { repeat constructor. simpl. by eexists. }
  split; [exact Hidx|]. split; [exact Hwf|]. intros targetRows.
  exact (@ignoreRowIf_index_rules integerHost indexRules Hidx Hwf targetRows
           SuccessCalled ErrorCalled).
Defined.

(** ** Expressions that cut a table *)

Lemma wellFormedExpr_operator operator rest :
  operator ∈ operators -> rest <> EmptyString -> wellFormedExpr (operator +:+ rest).
Proof.
  intros Hop Hrest. unfold operators in Hop.
  destruct rest as [|a rest]; [done|].
  repeat (apply elem_of_cons in Hop as [->|Hop]);
    [..|by apply elem_of_nil in Hop].
  all: split; [simpl; lia|eexists; reflexivity].
Qed.

Lemma elementsAt_below {A} (arr : list A) (n k : Z) :
  (filter (fun p : Z * A => p.1 < n) (zip (seqZ k (js_length arr)) arr)).*2
  = take (Z.to_nat (n - k)) arr.
Proof.
  revert k. induction arr as [|x arr IH]; intros k.
  - by rewrite take_nil.
  - unfold js_length. cbn [length]. rewrite seqZ_cons by lia.
    replace (Z.pred (Z.of_nat (S (length arr)))) with (js_length arr)
      by (unfold js_length; lia).
    cbn [zip zip_with]. rewrite filter_cons. cbn [fst].
    case_decide as Hk; [rewrite fmap_cons|]; rewrite IH.
    + replace (Z.to_nat (n - k)) with (S (Z.to_nat (n - Z.succ k))) by lia.
      done.
    + replace (Z.to_nat (n - k)) with 0%nat by lia.
      replace (Z.to_nat (n - Z.succ k)) with 0%nat by lia. done.
Qed.

Lemma elementsAt_from {A} (arr : list A) (n k : Z) :
  (filter (fun p : Z * A => ~ p.1 < n) (zip (seqZ k (js_length arr)) arr)).*2
  = drop (Z.to_nat (n - k)) arr.
Proof.
  revert k. induction arr as [|x arr IH]; intros k.
  - by rewrite drop_nil.
  - unfold js_length. cbn [length]. rewrite seqZ_cons by lia.
    replace (Z.pred (Z.of_nat (S (length arr)))) with (js_length arr)
      by (unfold js_length; lia).
    cbn [zip zip_with]. rewrite filter_cons. cbn [fst].
    case_decide as Hk; [rewrite fmap_cons|]; rewrite IH.
    + replace (Z.to_nat (n - k)) with 0%nat by lia.
      replace (Z.to_nat (n - Z.succ k)) with 0%nat by lia. done.
    + replace (Z.to_nat (n - k)) with (S (Z.to_nat (n - Z.succ k))) by lia.
      done.
Qed.

Lemma elementsAt_iff {A} (P Q : Z -> Prop) `{!forall i, Decision (P i)}
    `{!forall i, Decision (Q i)} (arr : list A) :
  (forall i, P i <-> Q i) -> elementsAt P arr = elementsAt Q arr.
Proof.
  intros HPQ. unfold elementsAt. f_equal.
  apply list_filter_iff. intros [i x]. apply HPQ.
Qed.

(** The index excluded by a single well-formed expression with an integer
    operand. *)
Lemma indexExcludes_single `{JsHost} operator rest n i :
  operator ∈ operators -> rest <> EmptyString -> Number rest = Finite (inject_Z n) ->
  indexExcludes [indexRule (IndexStr (operator +:+ rest))] i
  <-> compares operator i n.
Proof.
  intros Hop Hrest Hn.
  destruct (createEqualityEvaluator_compares operator rest n Hop Hrest Hn)
    as (ev & Hev & Hcmp).
  unfold indexExcludes.
  change (listedIndices [indexRule (IndexStr (operator +:+ rest))]) with (@nil Z).
  change (indexExpressions [indexRule (IndexStr (operator +:+ rest))])
    with [operator +:+ rest].
  rewrite Forall_singleton. unfold exprHolds. rewrite Hev, Hcmp.
  split; [by intros [Hin%elem_of_nil|[_ ?]]|]. intros Hc. by right.
Qed.

Lemma compares_ge i n : compares ">=" i n <-> n <= i.
Proof. unfold compares. repeat case_decide; done. Qed.

Lemma compares_lt i n : compares "< " i n <-> i < n.
Proof. unfold compares. repeat case_decide; done. Qed.

(** X7. For an operand that [Number] reads as the integer [n], the single
    index rule [>=n] keeps the first [n] rows of the table and the single
    index rule [< n] removes them. *)
Theorem ignoreRowIf_cut `{JsHost} (rest : string) (n : Z) :
  rest <> EmptyString ->
  Number rest = Finite (inject_Z n) ->
  forall targetRows onSuccess onError,
    ignoreRowIf targetRows [indexRule (IndexStr (">=" +:+ rest))]
      onSuccess onError
    = onSuccess (take (Z.to_nat n) targetRows)
    /\ ignoreRowIf targetRows [indexRule (IndexStr ("< " +:+ rest))]
         onSuccess onError
       = onSuccess (drop (Z.to_nat n) targetRows).
Proof.
  intros Hrest Hn targetRows onSuccess onError.
  assert (Hge : ">=" ∈ operators) by (unfold operators; set_solver).
  assert (Hlt : "< " ∈ operators) by (unfold operators; set_solver).
  split.
  - rewrite ignoreRowIf_positions.
    + f_equal.
      rewrite (elementsAt_iff _ (fun i => i < n)).
      * unfold elementsAt. rewrite elementsAt_below. by rewrite Z.sub_0_r.
      * intros i. rewrite (indexExcludes_single ">=" rest n i Hge Hrest Hn).
        rewrite compares_ge. lia.
    + apply Forall_singleton. by split.
    + apply Forall_singleton. unfold wellFormedIndex. simpl.
      by apply wellFormedExpr_operator.
  - rewrite ignoreRowIf_positions.
    + f_equal.
      rewrite (elementsAt_iff _ (fun i => ~ i < n)).
      * unfold elementsAt. rewrite elementsAt_from. by rewrite Z.sub_0_r.
      * intros i. rewrite (indexExcludes_single "< " rest n i Hlt Hrest Hn).
        by rewrite compares_lt.
    + apply Forall_singleton. by split.
    + apply Forall_singleton. unfold wellFormedIndex. simpl.
      by apply wellFormedExpr_operator.
Qed.

(** The cut at 2, on every table. *)
Lemma ignoreRowIf_cut_witness :
  "2" <> EmptyString /\ @Number integerHost "2" = Finite (inject_Z 2)
  /\ forall targetRows,
      @ignoreRowIf integerHost targetRows
        [indexRule (IndexStr (">=" +:+ "2"))] SuccessCalled ErrorCalled
      = SuccessCalled (take (Z.to_nat 2) targetRows)
      /\ @ignoreRowIf integerHost targetRows
           [indexRule (IndexStr ("< " +:+ "2"))] SuccessCalled ErrorCalled
         = SuccessCalled (drop (Z.to_nat 2) targetRows).
Proof.
  assert (Hrest : "2" <> EmptyString) by discriminate.
  split; [exact Hrest|]. split; [reflexivity|]. intros targetRows.
  exact (@ignoreRowIf_cut integerHost "2" 2 Hrest eq_refl targetRows
           SuccessCalled ErrorCalled).
Defined.

(** ** Lists of value rules compose *)

(** The rows a list of value rules keeps. *)
Lemma ignoreRowIf_value_filter `{JsHost} rules targetRows onSuccess onError :
  Forall isValueRule rules ->
  ignoreRowIf targetRows rules onSuccess onError
  = onSuccess
      (filter (fun row => Forall (fun rule => ~ RowMatches rule row) rules)
         targetRows).
Proof.
  intros Hv.
  destruct (createRowKeepFunc_value_rules rules true Hv) as (f & Hf & Hvotes).
  unfold ignoreRowIf. rewrite Hf. simpl.
  rewrite (keepRows_filter
    (fun row => Forall (fun rule => ~ RowMatches rule row) rules)); [done|].
  intros row i. rewrite Hvotes. apply combineVotes_and_valFuncs.
Qed.

(** X8. For plain value rules, filtering the rows with two rule lists put
    together is filtering with the first list and then filtering the result
    with the second. *)
Theorem ignoreRowIf_append_rules `{JsHost} (rules rules' : list Rule) :
  Forall isValueRule rules ->
  Forall isValueRule rules' ->
  forall targetRows onSuccess onError,
    ignoreRowIf targetRows (rules ++ rules') onSuccess onError
    = ignoreRowIf targetRows rules
        (fun retVal => ignoreRowIf retVal rules' onSuccess onError) onError.
Proof.
  intros Hv Hv' targetRows onSuccess onError.
  rewrite !ignoreRowIf_value_filter by (try apply Forall_app; done).
  f_equal. rewrite list_filter_filter.
  apply list_filter_iff. intros row. rewrite Forall_app. tauto.
Qed.

(** [twoValueRules] followed by [readmeGroup], on every table. *)
Lemma ignoreRowIf_append_rules_witness :
  Forall isValueRule twoValueRules /\ Forall isValueRule readmeGroup
  /\ forall targetRows,
      @ignoreRowIf integerHost targetRows (twoValueRules ++ readmeGroup)
        SuccessCalled ErrorCalled
      = @ignoreRowIf integerHost targetRows twoValueRules
          (fun retVal =>
             @ignoreRowIf integerHost retVal readmeGroup SuccessCalled
               ErrorCalled)
          ErrorCalled.
Proof.
  assert (Hv : Forall isValueRule twoValueRules).
  { repeat constructor; simpl; discriminate. }
  assert (Hv' : Forall isValueRule readmeGroup).
  { repeat constructor; simpl; discriminate. }
  split; [exact Hv|]. split; [exact Hv'|]. intros targetRows.
  exact (@ignoreRowIf_append_rules integerHost twoValueRules readmeGroup Hv Hv'
           targetRows SuccessCalled ErrorCalled).
Defined.

(** X9. For plain value rules the order of the rules has no effect on the
    result of [ignoreRowIf], and filtering the result once more with the
    same rules changes nothing. *)
Theorem ignoreRowIf_rule_order `{JsHost} (rules rules' : list Rule) :
  Forall isValueRule rules ->
  rules ≡ₚ rules' ->
  forall targetRows onSuccess onError,
    ignoreRowIf targetRows rules' onSuccess onError
    = ignoreRowIf targetRows rules onSuccess onError
    /\ ignoreRowIf targetRows rules
         (fun retVal => ignoreRowIf retVal rules onSuccess onError) onError
       = ignoreRowIf targetRows rules onSuccess onError.
Proof.
  intros Hv Hp targetRows onSuccess onError.
  assert (Hv' : Forall isValueRule rules') by by rewrite <- Hp.
  rewrite !ignoreRowIf_value_filter by done. split.
  - f_equal. apply list_filter_iff. intros row. by rewrite Hp.
  - f_equal. rewrite list_filter_filter.
    apply list_filter_iff. intros row. tauto.
Qed.

(** [twoValueRules] and the same rules swapped, on every table. *)
Lemma ignoreRowIf_rule_order_witness :
  let swapped := [colValRule (SelList [2; 7]) (VStr "B");
                  colValRule (SelIndex 0) (VStr "A")] in
  Forall isValueRule twoValueRules /\ twoValueRules ≡ₚ swapped
  /\ forall targetRows,
      @ignoreRowIf integerHost targetRows swapped SuccessCalled ErrorCalled
      = @ignoreRowIf integerHost targetRows twoValueRules SuccessCalled
          ErrorCalled
      /\ @ignoreRowIf integerHost targetRows twoValueRules
           (fun retVal =>
              @ignoreRowIf integerHost retVal twoValueRules SuccessCalled
                ErrorCalled)
           ErrorCalled
         = @ignoreRowIf integerHost targetRows twoValueRules SuccessCalled
             ErrorCalled.
Proof.
  intros swapped.
  assert (Hv : Forall isValueRule twoValueRules).
  { repeat constructor; simpl; discriminate. }
  assert (Hp : twoValueRules ≡ₚ swapped) by apply perm_swap.
  split; [exact Hv|]. split; [exact Hp|]. intros targetRows.
  exact (@ignoreRowIf_rule_order integerHost twoValueRules swapped Hv Hp
           targetRows SuccessCalled ErrorCalled).
Defined.

(** ** The column filter: errors and shape *)

Lemma createKeepIndexChecker_throws `{JsHost} rules e :
  createKeepIndexChecker rules = Throw e -> e = TypeError.
Proof.
  unfold createKeepIndexChecker.
  destruct (collectIndexRules_result (filter hasIndex rules) [] []) as [H1 H2].
  destruct (decide (Exists unknownOperator
                      (indexExpressions (filter hasIndex rules)))) as [Hex|Hn].
  - rewrite (H1 Hex). simpl. congruence.
  - destruct (H2 Hn) as (evs & -> & _). simpl. by case_decide.
Qed.

(** X10. On the empty table [ignoreColIf] raises a [TypeError], whatever
    the rules are: it reads the length of the first row. *)
Theorem ignoreColIf_empty_table `{JsHost} (params : list Rule)
    (onSuccess : Table -> Outcome) (onError : string -> Outcome) :
  ignoreColIf [] params onSuccess onError = Uncaught TypeError.
Proof.
  unfold ignoreColIf, colsByIndex.
  destruct (createKeepIndexChecker (filter hasIndex params)) as [chk|e] eqn:E;
    simpl; [done|].
  by rewrite (createKeepIndexChecker_throws _ e E).
Qed.

Lemma removeColsOfRow_sublist cols cells i :
  removeColsOfRow cols cells i `sublist_of` cells.
Proof.
  revert i. induction cells as [|cell rest IH]; intros i; simpl; [done|].
  case_bool_decide; [by apply sublist_skip|by apply sublist_cons].
Qed.

(** X11. [ignoreColIf] only deletes cells: either it passes to
    [onSuccess] a table with as many rows as the input, each of them made of
    cells of the row at the same position, in their order, or an exception
    escapes. *)
Theorem ignoreColIf_shape `{JsHost} (params : list Rule) (targetRows : Table)
    (onSuccess : Table -> Outcome) (onError : string -> Outcome) :
  (exists retVal,
     length retVal = length targetRows
     /\ Forall2 (fun newRow row => newRow `sublist_of` row) retVal targetRows
     /\ ignoreColIf targetRows params onSuccess onError = onSuccess retVal)
  \/ (exists e, ignoreColIf targetRows params onSuccess onError = Uncaught e).
Proof.
  unfold ignoreColIf.
  destruct (colsByIndex params targetRows) as [byIndex|e]; simpl;
    [|right; by eexists].
  destruct (findColsByVal (filter hasVal params) targetRows) as [byVal|e];
    simpl; [|right; by eexists].
  destruct (colsByAllOf (filter hasAllOf params) targetRows) as [byAllOf|e];
    simpl; [|right; by eexists].
  left. eexists. split; [|split; [|done]].
  - unfold removeCols. by rewrite length_map.
  - unfold removeCols. apply Forall2_fmap_l, Forall_Forall2_diag.
    apply Forall_forall. intros row _. apply removeColsOfRow_sublist.
Qed.

(** ** The column filter: index rules *)

Lemma indexExcludes_filter `{JsHost} rules i :
  indexExcludes (filter hasIndex rules) i <-> indexExcludes rules i.
Proof.
  unfold indexExcludes.
  by rewrite listedIndices_filter, indexExpressions_filter.
Qed.

Lemma colsFailingIndexCheck_filter (P : Z -> Prop) `{!forall i, Decision (P i)}
    indexChecker cols :
  (forall i, indexChecker i = Ok (bool_decide (~ P i))) ->
  colsFailingIndexCheck indexChecker cols = Ok (filter P cols).
Proof.
  intros Hchk. induction cols as [|i cols IH]; [done|].
  cbn [colsFailingIndexCheck]. rewrite Hchk, IH, filter_cons. simpl.
  f_equal. rewrite bool_decide_decide.
  by destruct (decide (P i)); destruct (decide (~ P i)).
Qed.

Lemma wellFormedIndex_filter rules :
  Forall wellFormedIndex rules -> Forall wellFormedIndex (filter hasIndex rules).
Proof.
  intros Hwf. apply Forall_forall. intros rule Hin.
  apply list_elem_of_filter in Hin as [_ Hin].
  by eapply Forall_forall in Hwf.
Qed.

Lemma colsByIndex_excluded `{JsHost} params firstRow (rest : Table) :
  Forall wellFormedIndex params ->
  colsByIndex params (firstRow :: rest)
  = Ok (filter (fun c => indexExcludes params c) (seqZ 0 (js_length firstRow))).
Proof.
  intros Hwf. unfold colsByIndex.
  destruct (createKeepIndexChecker_excludes (filter hasIndex params)
              (wellFormedIndex_filter params Hwf)) as (chk & -> & Hdec).
  simpl.
  rewrite (colsFailingIndexCheck_filter
             (fun c => indexExcludes (filter hasIndex params) c)); [|done].
  f_equal. apply list_filter_iff. intros c. apply indexExcludes_filter.
Qed.

(** X12. With rules that carry an index and nothing else, all well
    formed, [ignoreColIf] removes from every row the cells at the excluded
    positions below the length of the first row.  A position at or beyond
    the length of the first row is never removed, although a longer row has
    a cell there. *)
Theorem ignoreColIf_index_rules `{JsHost} (params : list Rule) (firstRow : Row)
    (rest : Table) :
  Forall isIndexRule params ->
  Forall wellFormedIndex params ->
  forall onSuccess onError,
    ignoreColIf (firstRow :: rest) params onSuccess onError
    = onSuccess
        (map (omitCols
                (list_to_set
                   (filter (fun c => indexExcludes params c)
                      (seqZ 0 (js_length firstRow)))))
           (firstRow :: rest)).
Proof.
  intros Hidx Hwf onSuccess onError.
  destruct (isIndexRule_filters params Hidx) as [Hv Ha].
  unfold ignoreColIf.
  rewrite (colsByIndex_excluded params firstRow rest Hwf), Hv, Ha.
  cbn [bind findColsByVal colsByAllOf]. rewrite !app_nil_r.
  by rewrite removeCols_omit.
Qed.

(** [indexRules] on [raggedTable]. *)
Lemma ignoreColIf_index_rules_witness :
  Forall isIndexRule indexRules /\ Forall wellFormedIndex indexRules
  /\ @ignoreColIf integerHost raggedTable indexRules SuccessCalled ErrorCalled
     = SuccessCalled
         (map (omitCols
                 (list_to_set
                    (filter (fun c => @indexExcludes integerHost indexRules c)
                       (seqZ 0 (js_length [VStr "A"; VStr "B"])))))
            raggedTable).
Proof.
  assert (Hidx : Forall isIndexRule indexRules) by repeat constructor.
  assert (Hwf : Forall wellFormedIndex indexRules).
  { repeat constructor. simpl. by eexists. }
  split; [exact Hidx|]. split; [exact Hwf|].
  exact (@ignoreColIf_index_rules integerHost indexRules
           [VStr "A"; VStr "B"] [[VStr "x"; VStr "A"; VStr "C"]] Hidx Hwf
           SuccessCalled ErrorCalled).
Defined.

(** ** The column filter: value rules at top level *)

Lemma matchedColsOfRow_iff targetVal cells colIndex c :
  c ∈ matchedColsOfRow targetVal cells colIndex
  <-> colIndex <= c
      /\ exists v, targetVal = Some v /\ js_get cells (c - colIndex) = Some v.
Proof.
  revert colIndex. induction cells as [|cell rest IH]; intros colIndex; simpl.
  - split; [by intros ?%elem_of_nil|]. intros (_ & v & _ & Hget).
    apply js_get_Some in Hget as [_ Hget]. done.
  - assert (Hrest : c ∈ matchedColsOfRow targetVal rest (colIndex + 1)
                    <-> colIndex < c
                        /\ exists v, targetVal = Some v
                             /\ js_get (cell :: rest) (c - colIndex) = Some v).
    { rewrite IH. split.
      - intros (Hle & v & Hv & Hget). split; [lia|]. exists v. split; [done|].
        rewrite js_get_cons by lia.
        by replace (c - colIndex - 1) with (c - (colIndex + 1)) by lia.
      - intros (Hlt & v & Hv & Hget). split; [lia|]. exists v. split; [done|].
        rewrite js_get_cons in Hget by lia.
        by replace (c - colIndex - 1) with (c - (colIndex + 1)) in Hget by lia. }
    assert (Hhead : js_get (cell :: rest) (c - c) = Some cell).
    { by rewrite Z.sub_diag. }
    case_bool_decide as Hc.
    + rewrite elem_of_cons, Hrest. split.
      * intros [->|[Hlt Hex]]; [|split; [lia|done]].
        split; [lia|]. exists cell. by rewrite Hhead.
      * intros (Hle & v & Hv & Hget).
        destruct (decide (c = colIndex)) as [|Hne]; [by left|].
        right. split; [lia|]. by exists v.
    + rewrite Hrest. split.
      * intros [Hlt Hex]. split; [lia|done].
      * intros (Hle & v & Hv & Hget).
        destruct (decide (c = colIndex)) as [->|Hne].
        -- rewrite Hhead in Hget. congruence.
        -- split; [lia|]. by exists v.
Qed.

Lemma checkRowsByVal_rows targetVal (fetched : list (option Row)) :
  Forall is_Some fetched ->
  exists cols,
    checkRowsByVal targetVal fetched = Ok cols
    /\ forall c,
         c ∈ cols
         <-> exists cells v,
               Some cells ∈ fetched /\ targetVal = Some v
               /\ js_get cells c = Some v.
Proof.
  induction 1 as [|row fetched [cells ->] _ (cols & Hcols & Hspec)].
  - exists []. split; [done|]. intros c. split; [by intros ?%elem_of_nil|].
    intros (cells & v & Hin & _). by apply elem_of_nil in Hin.
  - cbn [checkRowsByVal]. rewrite Hcols. simpl. eexists. split; [done|].
    intros c. rewrite elem_of_app, matchedColsOfRow_iff, Hspec, Z.sub_0_r.
    split.
    + intros [(_ & v & Hv & Hget)|(cells' & v & Hin & Hv & Hget)].
      * exists cells, v. split; [left|done].
      * exists cells', v. split; [by right|done].
    + intros (cells' & v & Hin & Hv & Hget).
      apply elem_of_cons in Hin as [[= ->]|Hin].
      * left. split; [|by exists v].
        apply js_get_Some in Hget. lia.
      * right. by exists cells', v.
Qed.

Lemma checkRowsByVal_null targetVal (fetched : list (option Row)) :
  None ∈ fetched -> checkRowsByVal targetVal fetched = Throw TypeError.
Proof.
  induction fetched as [|[cells|] fetched IH]; intros Hin; simpl;
    [by apply elem_of_nil in Hin| |done].
  apply elem_of_cons in Hin as [|Hin]; [done|]. by rewrite IH.
Qed.

Lemma checkRowsByVal_throws targetVal (fetched : list (option Row)) e :
  checkRowsByVal targetVal fetched = Throw e -> e = TypeError.
Proof.
  induction fetched as [|[cells|] fetched IH]; simpl; [done| |congruence].
  destruct (checkRowsByVal targetVal fetched); simpl; [done|].
  intros [= <-]. by apply IH.
Qed.

Lemma js_get_in_range {A} (arr : list A) i :
  0 <= i < js_length arr -> is_Some (js_get arr i).
Proof.
  intros Hi. unfold js_get, js_length in *. case_decide; [|lia].
  apply lookup_lt_is_Some. lia.
Qed.

(** The columns one rule finds, for a row selector without negative
    index. *)
Lemma findColsByVal_rule (targetRows : Table) rule :
  rowsNonNegative rule ->
  exists found,
    match prepareListOfIndices (row rule) with
    | ANY_OPT => checkRowsByVal (val rule) (map Some targetRows)
    | Indices rowIndices =>
        checkRowsByVal (val rule)
          (map (fun i => js_get targetRows i)
             (filter (fun i => i < js_length targetRows) rowIndices))
    end = Ok found
    /\ forall c, c ∈ found <-> ColumnHolds targetRows rule c.
Proof.
  unfold rowsNonNegative, ColumnHolds. intros Hnn.
  destruct (prepareListOfIndices (row rule)) as [|rowIndices] eqn:Eprep.
  - destruct (checkRowsByVal_rows (val rule) (map Some targetRows))
      as (found & Hfound & Hspec).
    { apply Forall_map, Forall_forall. intros cells _. by eexists. }
    exists found. split; [done|]. intros c. rewrite Hspec. split.
    + intros (cells & v & Hin & Hv & Hget).
      apply list_elem_of_fmap in Hin as (cells' & [= <-] & Hin).
      apply list_elem_of_lookup in Hin as [k Hk].
      exists (Z.of_nat k), cells, v. split_and!; [done| |  |done].
      * destruct (row rule); simpl in *; done.
      * apply js_get_Some. rewrite Nat2Z.id. split; [lia|done].
    + intros (r & cells & v & Hv & _ & Hr & Hget).
      exists cells, v. split_and!; [|done..].
      apply list_elem_of_fmap. exists cells. split; [done|].
      apply js_get_Some in Hr as [_ Hr]. by eapply list_elem_of_lookup_2.
  - set (kept := filter (fun i => i < js_length targetRows) rowIndices).
    destruct (checkRowsByVal_rows (val rule)
                (map (fun i => js_get targetRows i) kept))
      as (found & Hfound & Hspec).
    { apply Forall_map, Forall_forall. intros i Hi.
      apply list_elem_of_filter in Hi as [Hlt Hi].
      rewrite Forall_forall in Hnn. apply js_get_in_range. split; [auto|lia]. }
    exists found. split; [done|]. intros c. rewrite Hspec.
    assert (Hsel : forall r, selects (row rule) r <-> r ∈ rowIndices).
    { intros r. destruct (row rule); simpl in *; try done.
      - injection Eprep as <-. by rewrite list_elem_of_singleton.
      - by injection Eprep as <-. }
    split.
    + intros (cells & v & Hin & Hv & Hget).
      apply list_elem_of_fmap in Hin as (i & Hi & Hin).
      apply list_elem_of_filter in Hin as [_ Hin].
      exists i, cells, v. by rewrite Hsel.
    + intros (r & cells & v & Hv & Hr & Hrow & Hget).
      exists cells, v. split_and!; [|done..].
      apply list_elem_of_fmap. exists r. split; [done|].
      apply list_elem_of_filter. split; [|by apply Hsel].
      apply js_get_Some in Hrow as [? Hrow]. apply lookup_lt_Some in Hrow.
      unfold js_length. lia.
Qed.

Lemma findColsByVal_holds rules (targetRows : Table) :
  Forall rowsNonNegative rules ->
  exists cols,
    findColsByVal rules targetRows = Ok cols
    /\ forall c,
         c ∈ cols <-> Exists (fun rule => ColumnHolds targetRows rule c) rules.
Proof.
  induction 1 as [|rule rules Hrule _ (cols & Hcols & Hspec)].
  - exists []. split; [done|]. intros c.
    split; [by intros ?%elem_of_nil|by intros ?%Exists_nil].
  - cbn [findColsByVal].
    destruct (findColsByVal_rule targetRows rule Hrule)
      as (found & Hfound & Hfspec).
    rewrite Hfound, Hcols. simpl. eexists. split; [done|].
    intros c. by rewrite elem_of_app, Exists_cons, Hfspec, Hspec.
Qed.

(** X13. For value rules whose row selectors hold no negative index,
    [findColsByVal] returns, and the columns it returns are exactly the
    columns in which the value of some rule stands in a row that the rule
    selects and the table has. *)
Theorem findColsByVal_found (rules : list Rule) (targetRows : Table) :
  Forall rowsNonNegative rules ->
  exists cols,
    findColsByVal rules targetRows = Ok cols
    /\ forall c,
         c ∈ cols <-> Exists (fun rule => ColumnHolds targetRows rule c) rules.
Proof. apply findColsByVal_holds. Qed.

(** A rule for every row and a rule for row 0, on [raggedTable]. *)
Lemma findColsByVal_found_witness :
  let rules := [rowValRule SelAny (VStr "A");
                rowValRule (SelIndex 0) (VStr "B")] in
  Forall rowsNonNegative rules
  /\ exists cols,
      findColsByVal rules raggedTable = Ok cols
      /\ forall c,
           c ∈ cols
           <-> Exists (fun rule => ColumnHolds raggedTable rule c) rules.
Proof.
  intros rules.
  assert (Hrows : Forall rowsNonNegative rules).
  { repeat constructor; lia. }
  split; [exact Hrows|].
  exact (findColsByVal_found rules raggedTable Hrows).
Defined.

Lemma findColsByVal_throws rules (targetRows : Table) e :
  findColsByVal rules targetRows = Throw e -> e = TypeError.
Proof.
  induction rules as [|rule rules IH]; simpl; [done|].
  destruct (prepareListOfIndices (row rule)) as [|rowIndices].
  - destruct (checkRowsByVal _ _) as [found|e'] eqn:E; simpl.
    + destruct (findColsByVal rules targetRows); simpl; [done|].
      intros [= <-]. by apply IH.
    + intros [= <-]. by eapply checkRowsByVal_throws.
  - destruct (checkRowsByVal _ _) as [found|e'] eqn:E; simpl.
    + destruct (findColsByVal rules targetRows); simpl; [done|].
      intros [= <-]. by apply IH.
    + intros [= <-]. by eapply checkRowsByVal_throws.
Qed.

Lemma findColsByVal_negative rules (targetRows : Table) rule rowIndices i :
  rule ∈ rules ->
  prepareListOfIndices (row rule) = Indices rowIndices ->
  i ∈ rowIndices -> i < 0 ->
  findColsByVal rules targetRows = Throw TypeError.
Proof.
  intros Hin Hprep Hi Hneg.
  induction rules as [|rule' rules IH]; [by apply elem_of_nil in Hin|].
  cbn [findColsByVal].
  apply elem_of_cons in Hin as [<-|Hin].
  - rewrite Hprep. rewrite checkRowsByVal_null; [done|].
    apply list_elem_of_fmap. exists i. split.
    + unfold js_get. case_decide; [lia|done].
    + apply list_elem_of_filter. split; [unfold js_length; lia|done].
  - rewrite (IH Hin).
    destruct (match prepareListOfIndices (row rule') with
              | ANY_OPT => _ | Indices _ => _ end) as [found|e] eqn:E;
      simpl; [done|].
    destruct (prepareListOfIndices (row rule'));
      by rewrite (checkRowsByVal_throws _ _ _ E).
Qed.

Lemma runEvaluators_throws `{JsHost} evaluators rowIndex passes e :
  runEvaluators evaluators rowIndex passes = Throw e -> e = TypeError.
Proof.
  revert passes. induction evaluators as [|[ev|] evaluators IH];
    intros passes; simpl; [done|apply IH|congruence].
Qed.

Lemma keepIndexChecker_throws `{JsHost} rules shouldKeepIndex rowIndex e :
  createKeepIndexChecker rules = Ok shouldKeepIndex ->
  shouldKeepIndex rowIndex = Throw e -> e = TypeError.
Proof.
  unfold createKeepIndexChecker. intros Hchk.
  apply bind_Ok in Hchk as ([rows evs] & _ & Hchk).
  case_decide; injection Hchk as <-; [done|].
  unfold keepIndexChecker. simpl.
  destruct (runEvaluators evs rowIndex true) eqn:E; simpl; [done|].
  intros [= <-]. by eapply runEvaluators_throws.
Qed.

Lemma colsFailingIndexCheck_throws indexChecker cols e :
  (forall i e', indexChecker i = Throw e' -> e' = TypeError) ->
  colsFailingIndexCheck indexChecker cols = Throw e -> e = TypeError.
Proof.
  intros Hchk. induction cols as [|i cols IH]; simpl; [done|].
  destruct (indexChecker i) eqn:E; simpl.
  - destruct (colsFailingIndexCheck indexChecker cols); simpl; [done|].
    intros [= <-]. by apply IH.
  - intros [= <-]. by eapply Hchk.
Qed.

Lemma colsByIndex_throws `{JsHost} params (targetRows : Table) e :
  colsByIndex params targetRows = Throw e -> e = TypeError.
Proof.
  unfold colsByIndex.
  destruct (createKeepIndexChecker (filter hasIndex params)) as [chk|e'] eqn:E;
    simpl; [|intros [= <-]; by eapply createKeepIndexChecker_throws].
  unfold firstRowLength. destruct (js_get targetRows 0); simpl; [|congruence].
  apply colsFailingIndexCheck_throws. intros i e' He'.
  by eapply keepIndexChecker_throws.
Qed.

(** X14. A value rule at top level whose row selector holds a negative
    index makes [ignoreColIf] raise a [TypeError] on every table: the index
    passes the bound check and the row fetched with it is [undefined]. *)
Theorem ignoreColIf_negative_row `{JsHost} (params : list Rule) (rule : Rule)
    (rowIndices : list Z) (i : Z) :
  rule ∈ params ->
  val rule <> None ->
  prepareListOfIndices (row rule) = Indices rowIndices ->
  i ∈ rowIndices ->
  i < 0 ->
  forall targetRows onSuccess onError,
    ignoreColIf targetRows params onSuccess onError = Uncaught TypeError.
Proof.
  intros Hin Hval Hprep Hi Hneg targetRows onSuccess onError.
  unfold ignoreColIf.
  destruct (colsByIndex params targetRows) as [byIndex|e] eqn:E; simpl.
  - rewrite (findColsByVal_negative (filter hasVal params) targetRows rule
               rowIndices i); [done| |done..].
    by apply list_elem_of_filter.
  - by rewrite (colsByIndex_throws _ _ _ E).
Qed.

(** [negativeRowRule] on every table. *)
Lemma ignoreColIf_negative_row_witness :
  negativeRowRule ∈ [negativeRowRule] /\ val negativeRowRule <> None
  /\ prepareListOfIndices (row negativeRowRule) = Indices [-1]
  /\ -1 ∈ [-1] /\ -1 < 0
  /\ forall targetRows,
      @ignoreColIf integerHost targetRows [negativeRowRule] SuccessCalled
        ErrorCalled
      = Uncaught TypeError.
Proof.
  assert (Hin : negativeRowRule ∈ [negativeRowRule]) by left.
  assert (Hval : val negativeRowRule <> None) by discriminate.
  assert (Hi : -1 ∈ [-1]) by left.
  assert (Hneg : -1 < 0) by lia.
  split; [exact Hin|]. split; [exact Hval|]. split; [reflexivity|].
  split; [exact Hi|]. split; [exact Hneg|]. intros targetRows.
  exact (@ignoreColIf_negative_row integerHost [negativeRowRule]
           negativeRowRule [-1] (-1) Hin Hval eq_refl Hi Hneg targetRows
           SuccessCalled ErrorCalled).
Defined.

(** ** The column filter: groups *)

Lemma ColumnHolds_bounded (targetRows : Table) rule c :
  ColumnHolds targetRows rule c
  <-> Exists (fun r =>
                selects (row rule) r /\ val rule <> None
                /\ js_get targetRows r ≫= (fun cells => js_get cells c)
                   = val rule)
        (seqZ 0 (js_length targetRows)).
Proof.
  rewrite Exists_exists. unfold ColumnHolds. split.
  - intros (r & cells & v & Hv & Hsel & Hr & Hget). exists r. split.
    + apply js_get_Some in Hr as [? Hr]. apply lookup_lt_Some in Hr.
      apply elem_of_seqZ. unfold js_length. lia.
    + rewrite Hr, Hv. simpl. by rewrite Hget.
  - intros (r & _ & Hsel & Hv & Hget).
    destruct (val rule) as [v|]; [|done].
    destruct (js_get targetRows r) as [cells|] eqn:Hr; [|done].
    simpl in Hget. by exists r, cells, v.
Qed.

#[global] Instance ColumnHolds_dec (targetRows : Table) rule c :
  Decision (ColumnHolds targetRows rule c).
Proof.
  refine (cast_if (decide (Exists (fun r =>
    selects (row rule) r /\ val rule <> None
    /\ js_get targetRows r ≫= (fun cells => js_get cells c) = val rule)
    (seqZ 0 (js_length targetRows)))));
    by rewrite ColumnHolds_bounded.
Defined.

Lemma checkRowsAtCol_rows (fetched : list (option Row)) targetVal c :
  Forall is_Some fetched ->
  exists found,
    checkRowsAtCol fetched targetVal c = Ok found
    /\ (found = true
        <-> exists cells,
              Some cells ∈ fetched /\ c < js_length cells
              /\ js_get cells c = targetVal).
Proof.
  induction 1 as [|row fetched [cells ->] _ (found & Hfound & Hspec)].
  - exists false. split; [done|]. split; [done|].
    intros (cells & Hin & _). by apply elem_of_nil in Hin.
  - cbn [checkRowsAtCol].
    destruct (bool_decide (c < js_length cells)
              && bool_decide (js_get cells c = targetVal)) eqn:E.
    + exists true. split; [done|]. split; [|done]. intros _.
      apply andb_true_iff in E as [E1 E2].
      apply bool_decide_eq_true in E1, E2. exists cells. split; [left|done].
    + exists found. split; [done|]. rewrite Hspec. split.
      * intros (cells' & Hin & Hrest). exists cells'. split; [by right|done].
      * intros (cells' & Hin & Hlt & Hget).
        apply elem_of_cons in Hin as [[= ->]|Hin]; [|by exists cells'].
        apply andb_false_iff in E as [E|E]; by apply bool_decide_eq_false in E.
Qed.

(** Whether one value rule of a group finds its value in column [c]. *)
Lemma runValueSearchRules_rule (targetRows : Table) rule c :
  val rule <> None ->
  rowsInRange targetRows rule ->
  exists found,
    match prepareListOfIndices (row rule) with
    | ANY_OPT => checkRowsAtCol (map Some targetRows) (val rule) c
    | Indices rowIndices =>
        checkRowsAtCol (map (fun i => js_get targetRows i) rowIndices)
          (val rule) c
    end = Ok found
    /\ (found = true <-> ColumnHolds targetRows rule c).
Proof.
  unfold rowsInRange, ColumnHolds. intros Hval Hin.
  destruct (val rule) as [v|] eqn:Ev; [|done].
  assert (Hlen : forall cells, js_get cells c = Some v -> c < js_length cells).
  { intros cells Hc. apply js_get_Some in Hc as [? Hc].
    apply lookup_lt_Some in Hc. unfold js_length. lia. }
  destruct (prepareListOfIndices (row rule)) as [|rowIndices] eqn:Eprep.
  - destruct (checkRowsAtCol_rows (map Some targetRows) (Some v) c)
      as (found & Hfound & Hspec).
    { apply Forall_map, Forall_forall. intros cells _. by eexists. }
    exists found. split; [done|]. rewrite Hspec. split.
    + intros (cells & Hcells & _ & Hget).
      apply list_elem_of_fmap in Hcells as (cells' & [= <-] & Hcells).
      apply list_elem_of_lookup in Hcells as [k Hk].
      exists (Z.of_nat k), cells, v. split_and!; [done| | |done].
      * destruct (row rule); simpl in *; done.
      * apply js_get_Some. rewrite Nat2Z.id. split; [lia|done].
    + intros (r & cells & v' & [= <-] & _ & Hr & Hget).
      exists cells. split_and!; [|by apply Hlen|done].
      apply list_elem_of_fmap. exists cells. split; [done|].
      apply js_get_Some in Hr as [_ Hr]. by eapply list_elem_of_lookup_2.
  - destruct (checkRowsAtCol_rows
                (map (fun i => js_get targetRows i) rowIndices) (Some v) c)
      as (found & Hfound & Hspec).
    { apply Forall_map. eapply Forall_impl; [exact Hin|].
      intros i Hi. by apply js_get_in_range. }
    exists found. split; [done|]. rewrite Hspec.
    assert (Hsel : forall r, selects (row rule) r <-> r ∈ rowIndices).
    { intros r. destruct (row rule); simpl in *; try done.
      - injection Eprep as <-. by rewrite list_elem_of_singleton.
      - by injection Eprep as <-. }
    split.
    + intros (cells & Hcells & _ & Hget).
      apply list_elem_of_fmap in Hcells as (i & Hi & Hcells).
      exists i, cells, v. by rewrite Hsel.
    + intros (r & cells & v' & [= <-] & Hr & Hrow & Hget).
      exists cells. split_and!; [|by apply Hlen|done].
      apply list_elem_of_fmap. exists r. split; [done|]. by apply Hsel.
Qed.

Lemma runValueSearchRules_holds rules (targetRows : Table) c matched :
  Forall hasVal rules ->
  Forall (rowsInRange targetRows) rules ->
  runValueSearchRules rules targetRows c matched
  = Ok (matched
        && bool_decide (Forall (fun rule => ColumnHolds targetRows rule c) rules)).
Proof.
  intros Hval Hin. revert matched.
  induction rules as [|rule rules IH]; intros matched.
  - cbn [runValueSearchRules].
    rewrite (bool_decide_eq_true_2 (Forall _ [])) by constructor.
    by rewrite andb_true_r.
  - apply Forall_cons in Hval as [Hv Hval]. apply Forall_cons in Hin as [Hr Hin].
    cbn [runValueSearchRules].
    destruct (runValueSearchRules_rule targetRows rule c Hv Hr)
      as (found & Hfound & Hspec).
    rewrite Hfound. simpl. rewrite (IH Hval Hin). f_equal.
    apply eq_true_iff_eq.
    rewrite !andb_true_iff, !bool_decide_eq_true, Forall_cons, <- Hspec.
    destruct found, matched; simpl; intuition congruence.
Qed.

Lemma examineCols_filter (Q : Z -> Prop) `{!forall c, Decision (Q c)}
    valueSearchRules (targetRows : Table) examineAllCols colsToExamine cols :
  (forall c, runValueSearchRules valueSearchRules targetRows c true
             = Ok (bool_decide (Q c))) ->
  examineCols valueSearchRules targetRows examineAllCols colsToExamine cols
  = Ok (filter (fun c => (examineAllCols = true \/ c ∈ colsToExamine) /\ Q c)
          cols).
Proof.
  intros Hrun. induction cols as [|c cols IH]; [done|].
  cbn [examineCols]. rewrite filter_cons, IH.
  destruct (examineAllCols || bool_decide (indexOf colsToExamine c <> -1)) eqn:E.
  - rewrite Hrun. simpl.
    apply orb_true_iff in E.
    rewrite bool_decide_eq_true, indexOf_present in E.
    rewrite bool_decide_decide.
    destruct (decide (Q c));
      destruct (decide ((examineAllCols = true \/ c ∈ colsToExamine) /\ Q c));
      try done; tauto.
  - apply orb_false_iff in E as [-> E].
    rewrite bool_decide_eq_false, indexOf_present in E.
    destruct (decide ((false = true \/ c ∈ colsToExamine) /\ Q c)) as [Hd|];
      [|done].
    destruct Hd as [[?|?] _]; done.
Qed.

Lemma filter_iff_elem {A} (P Q : A -> Prop) `{!forall x, Decision (P x)}
    `{!forall x, Decision (Q x)} (l : list A) :
  (forall x, x ∈ l -> P x <-> Q x) -> filter P l = filter Q l.
Proof.
  induction l as [|x l IH]; intros HPQ; [done|].
  rewrite !filter_cons, IH by (intros y Hy; apply HPQ; by right).
  pose proof (HPQ x ltac:(left)).
  destruct (decide (P x)), (decide (Q x)); try done; tauto.
Qed.

Lemma findColsByCombinedVals_result `{JsHost} rules firstRow (rest : Table) :
  Forall wellFormedIndex rules ->
  Forall (rowsInRange (firstRow :: rest)) (filter hasVal rules) ->
  findColsByCombinedVals rules (firstRow :: rest)
  = Ok (filter
          (fun c =>
             (filter (fun c' => indexExcludes rules c')
                (seqZ 0 (js_length firstRow)) = []
              \/ indexExcludes rules c)
             /\ Forall (fun rule => ColumnHolds (firstRow :: rest) rule c)
                  (filter hasVal rules))
          (seqZ 0 (js_length firstRow))).
Proof.
  intros Hwf Hin. unfold findColsByCombinedVals.
  change (firstRowLength (firstRow :: rest)) with (Ok (js_length firstRow)).
  cbn [bind].
  destruct (createKeepIndexChecker_excludes (filter hasIndex rules)
              (wellFormedIndex_filter rules Hwf)) as (chk & -> & Hdec).
  cbn [bind].
  rewrite (colsFailingIndexCheck_filter
             (fun c => indexExcludes (filter hasIndex rules) c)); [|done].
  cbn [bind].
  rewrite (list_filter_iff _ (fun c => indexExcludes rules c))
    by (intros c; apply indexExcludes_filter).
  set (colsToExamine := filter (fun c => indexExcludes rules c)
                          (seqZ 0 (js_length firstRow))).
  rewrite (examineCols_filter
    (fun c => Forall (fun rule => ColumnHolds (firstRow :: rest) rule c)
                (filter hasVal rules))).
  - f_equal. apply filter_iff_elem. intros c Hc.
    rewrite bool_decide_eq_true, length_zero_iff_nil.
    unfold colsToExamine. rewrite list_elem_of_filter. tauto.
  - intros c. rewrite runValueSearchRules_holds; [done| |done].
    apply Forall_forall. intros rule Hr.
    by apply list_elem_of_filter in Hr as [? _].
Qed.

Lemma filter_none {A} (P : A -> Prop) `{!forall x, Decision (P x)} (l : list A) :
  Forall (fun x => ~ P x) l -> filter P l = [].
Proof.
  induction 1 as [|x l Hx _ IH]; [done|].
  by rewrite filter_cons_False.
Qed.

Lemma filter_all {A} (P : A -> Prop) `{!forall x, Decision (P x)} (l : list A) :
  Forall P l -> filter P l = l.
Proof.
  induction 1 as [|x l Hx _ IH]; [done|].
  by rewrite filter_cons_True, IH.
Qed.

Lemma ignoreColIf_group_result `{JsHost} rules firstRow (rest : Table)
    onSuccess onError :
  Forall wellFormedIndex rules ->
  Forall (rowsInRange (firstRow :: rest)) (filter hasVal rules) ->
  ignoreColIf (firstRow :: rest) [allOfRule rules] onSuccess onError
  = onSuccess
      (map (omitCols
              (list_to_set
                 (filter
                    (fun c =>
                       (filter (fun c' => indexExcludes rules c')
                          (seqZ 0 (js_length firstRow)) = []
                        \/ indexExcludes rules c)
                       /\ Forall
                            (fun rule => ColumnHolds (firstRow :: rest) rule c)
                            (filter hasVal rules))
                    (seqZ 0 (js_length firstRow)))))
         (firstRow :: rest)).
Proof.
  intros Hwf Hin. unfold ignoreColIf.
  rewrite (colsByIndex_excluded [allOfRule rules] firstRow rest)
    by (apply Forall_singleton; exact I).
  assert (Hnone : filter (fun c => indexExcludes [allOfRule rules] c)
                    (seqZ 0 (js_length firstRow)) = []).
  { apply filter_none. apply Forall_forall. intros c _ [Hc|[Hc _]].
    - by apply elem_of_nil in Hc.
    - by apply Hc. }
  rewrite Hnone.
  change (filter hasVal [allOfRule rules]) with (@nil Rule).
  change (filter hasAllOf [allOfRule rules]) with [allOfRule rules].
  cbn [bind findColsByVal colsByAllOf allOf allOfRule].
  rewrite (findColsByCombinedVals_result rules firstRow rest Hwf Hin).
  cbn [bind app]. rewrite app_nil_r. by rewrite removeCols_omit.
Qed.

(** X15. A single [allOf] group at top level, with well-formed index
    rules and with value rules whose row selectors stay within the table.
    [ignoreColIf] removes from every row the cells at the columns [c] below
    the length of the first row such that every value rule of the group
    finds its value at column [c] in a row it selects, and such that [c] is
    excluded by the index rules of the group; if the index rules exclude no
    column of the first row, every column is a candidate. *)
Theorem ignoreColIf_group `{JsHost} (rules : list Rule) (firstRow : Row)
    (rest : Table) :
  Forall wellFormedIndex rules ->
  Forall (rowsInRange (firstRow :: rest)) (filter hasVal rules) ->
  forall onSuccess onError,
    ignoreColIf (firstRow :: rest) [allOfRule rules] onSuccess onError
    = onSuccess
        (map (omitCols
                (list_to_set
                   (filter
                      (fun c =>
                         (filter (fun c' => indexExcludes rules c')
                            (seqZ 0 (js_length firstRow)) = []
                          \/ indexExcludes rules c)
                         /\ Forall
                              (fun rule =>
                                 ColumnHolds (firstRow :: rest) rule c)
                              (filter hasVal rules))
                      (seqZ 0 (js_length firstRow)))))
           (firstRow :: rest)).
Proof. intros. by apply ignoreColIf_group_result. Qed.

(** The group [columnGroup] on [raggedTable]. *)
Lemma ignoreColIf_group_witness :
  Forall wellFormedIndex columnGroup
  /\ Forall (rowsInRange raggedTable) (filter hasVal columnGroup)
  /\ @ignoreColIf integerHost raggedTable [allOfRule columnGroup]
       SuccessCalled ErrorCalled
     = SuccessCalled
         (map (omitCols
                 (list_to_set
                    (filter
                       (fun c =>
                          (filter
                             (fun c' =>
                                @indexExcludes integerHost columnGroup c')
                             (seqZ 0 (js_length [VStr "A"; VStr "B"])) = []
                           \/ @indexExcludes integerHost columnGroup c)
                          /\ Forall
                               (fun rule => ColumnHolds raggedTable rule c)
                               (filter hasVal columnGroup))
                       (seqZ 0 (js_length [VStr "A"; VStr "B"])))))
            raggedTable).
Proof.
  assert (Hwf : Forall wellFormedIndex columnGroup).
  { repeat constructor. simpl. by eexists. }
  assert (Hin : Forall (rowsInRange raggedTable) (filter hasVal columnGroup)).
  { repeat constructor; unfold js_length; simpl; lia. }
  split; [exact Hwf|]. split; [exact Hin|].
  exact (@ignoreColIf_group integerHost columnGroup [VStr "A"; VStr "B"]
           [[VStr "x"; VStr "A"; VStr "C"]] Hwf Hin SuccessCalled ErrorCalled).
Defined.

Lemma omitCols_prefix (n : Z) (cells : Row) :
  omitCols (list_to_set (seqZ 0 n)) cells = drop (Z.to_nat n) cells.
Proof.
  unfold omitCols. replace (Z.to_nat n) with (Z.to_nat (n - 0)) by lia.
  rewrite <- (elementsAt_from cells n 0). f_equal.
  assert (Hin : forall p : Z * Value,
            p ∈ zip (seqZ 0 (js_length cells)) cells -> 0 <= p.1).
  { intros [i x] Hp. apply elem_of_zip_l in Hp.
    apply elem_of_seqZ in Hp. simpl. lia. }
  revert Hin. generalize (zip (seqZ 0 (js_length cells)) cells).
  intros l Hin. apply filter_iff_elem. intros p Hp.
  rewrite elem_of_list_to_set, elem_of_seqZ. specialize (Hin p Hp). lia.
Qed.

(** X16. An empty [allOf] group at top level removes every column of the
    first row: [ignoreColIf] passes on each row without its first [k] cells,
    [k] being the length of the first row. *)
Theorem ignoreColIf_empty_group `{JsHost} (firstRow : Row) (rest : Table)
    (onSuccess : Table -> Outcome) (onError : string -> Outcome) :
  ignoreColIf (firstRow :: rest) [allOfRule []] onSuccess onError
  = onSuccess (map (drop (length firstRow)) (firstRow :: rest)).
Proof.
  rewrite ignoreColIf_group_result by constructor. f_equal.
  apply map_ext. intros cells.
  rewrite filter_all.
  - rewrite omitCols_prefix. unfold js_length. by rewrite Nat2Z.id.
  - apply Forall_forall. intros c _. split; [left|constructor].
    apply filter_none, Forall_forall. intros c' _ [Hc|[Hc _]].
    + by apply elem_of_nil in Hc.
    + by apply Hc.
Qed.

(** ** The orchestrator: sequencing *)

Lemma Forall2_sublist_below {A} (R : A -> A -> Prop) (l l' k : list A) :
  Forall2 R l k -> l' `sublist_of` l ->
  exists k', k' `sublist_of` k /\ Forall2 R l' k'.
Proof.
  intros HR. revert l'. induction HR as [|x y l k Hxy HR IH]; intros l' Hsub.
  - apply sublist_nil_r in Hsub as ->. by exists [].
  - apply sublist_cons_r in Hsub as [Hsub|(l'' & -> & Hsub)].
    + destruct (IH _ Hsub) as (k' & Hk' & HR'). exists k'.
      split; [by apply sublist_cons|done].
    + destruct (IH _ Hsub) as (k' & Hk' & HR'). exists (y :: k').
      split; [by apply sublist_skip|by constructor].
Qed.

Lemma shrinksTo_refl targetRows : shrinksTo targetRows targetRows.
Proof.
  exists targetRows. split; [done|].
  apply Forall_Forall2_diag, Forall_forall. by intros row _.
Qed.

Lemma shrinksTo_trans t1 t2 t3 :
  shrinksTo t1 t2 -> shrinksTo t2 t3 -> shrinksTo t1 t3.
Proof.
  intros (k1 & Hk1 & H21) (k2 & Hk2 & H32).
  destruct (Forall2_sublist_below _ _ _ _ H21 Hk2) as (k' & Hk' & H2').
  exists k'. split; [by etrans|].
  exact (transitivity (R := Forall2 sublist) H32 H2').
Qed.

Lemma ignoreRowIf_outcome `{JsHost} rules targetRows :
  (exists retVal,
     retVal `sublist_of` targetRows
     /\ forall onSuccess onError,
          ignoreRowIf targetRows rules onSuccess onError = onSuccess retVal)
  \/ (exists e, forall onSuccess onError,
        ignoreRowIf targetRows rules onSuccess onError = Uncaught e).
Proof.
  unfold ignoreRowIf.
  destruct (createRowKeepFunc rules true) as [f|e]; simpl;
    [|right; by eexists].
  destruct (keepRows f targetRows 0) as [retVal|e] eqn:Hk;
    [|right; by eexists].
  left. exists retVal. split; [by eapply keepRows_sublist|done].
Qed.

Lemma ignoreColIf_outcome `{JsHost} params targetRows :
  (exists retVal,
     Forall2 (fun newRow row => newRow `sublist_of` row) retVal targetRows
     /\ forall onSuccess onError,
          ignoreColIf targetRows params onSuccess onError = onSuccess retVal)
  \/ (exists e, forall onSuccess onError,
        ignoreColIf targetRows params onSuccess onError = Uncaught e).
Proof.
  unfold ignoreColIf.
  destruct (colsByIndex params targetRows) as [byIndex|e]; simpl;
    [|right; by eexists].
  destruct (findColsByVal (filter hasVal params) targetRows) as [byVal|e];
    simpl; [|right; by eexists].
  destruct (colsByAllOf (filter hasAllOf params) targetRows) as [byAllOf|e];
    simpl; [|right; by eexists].
  left. eexists. split; [|done].
  unfold removeCols. apply Forall2_fmap_l, Forall_Forall2_diag.
  apply Forall_forall. intros row _. apply removeColsOfRow_sublist.
Qed.

Section refine_laws.
Context `{JsHost} {Param : Type} (asRules : Param -> option (list Rule)).
Context (replace interpretStr transpose : @Strategy Param).
Context (objectPrototype : string -> option (@Strategy Param)).

#[local] Abbreviation runAll :=
  (refine asRules replace interpretStr transpose objectPrototype).
#[local] Abbreviation runOne :=
  (executeOperation asRules replace interpretStr transpose objectPrototype).

Lemma asyncReduce_app (before after : list (@Operation Param)) memo iterator
    callback :
  asyncReduce (before ++ after) memo iterator callback
  = asyncReduce before memo iterator
      (fun result =>
         match result with
         | inl err => callback (inl err)
         | inr v => asyncReduce after v iterator callback
         end).
Proof.
  revert memo. induction before as [|op before IH]; intros memo; [done|].
  cbn [app asyncReduce]. f_equal.
  apply functional_extensionality. intros [err|v]; [done|apply IH].
Qed.

Lemma refine_cons op ops targetRows onSuccess onError :
  runAll (op :: ops) targetRows onSuccess onError
  = runOne op targetRows (fun newTargetRows => runAll ops newTargetRows onSuccess onError)
      (default genericErrorHandler onError).
Proof. reflexivity. Qed.

(** X17. Running two operation lists put together is running the first
    list and then running the second on the table it produces, with the
    same error handler. *)
Theorem refine_append (ops1 ops2 : list (@Operation Param))
    (targetRows : Table) (onSuccess : Table -> Outcome)
    (onError : option (string -> Outcome)) :
  runAll (ops1 ++ ops2) targetRows onSuccess onError
  = runAll ops1 targetRows
      (fun newTargetRows => runAll ops2 newTargetRows onSuccess onError)
      onError.
Proof.
  unfold refine. by rewrite asyncReduce_app.
Qed.

Lemma executeOperation_filter op targetRows :
  operation op ∈ filterNames ->
  (exists retVal,
     shrinksTo targetRows retVal
     /\ forall onSuccess onError,
          runOne op targetRows onSuccess onError = onSuccess retVal)
  \/ (exists e, forall onSuccess onError,
        runOne op targetRows onSuccess onError = Uncaught e).
Proof.
  unfold filterNames, executeOperation, lookupStrategy, refineStrategies.
  rewrite !elem_of_cons, elem_of_nil. intros [->|[->|[]]].
  - rewrite lookup_insert_eq. unfold onRules.
    destruct (asRules (param op)) as [rules|]; [|right; by eexists].
    destruct (ignoreRowIf_outcome rules targetRows)
      as [(retVal & Hsub & Hrun)|[e Hrun]]; [left|right; by exists e].
    exists retVal. split; [|done]. exists retVal. split; [done|].
    apply Forall_Forall2_diag, Forall_forall. by intros row _.
  - rewrite lookup_insert_ne, lookup_insert_eq by done. unfold onRules.
    destruct (asRules (param op)) as [rules|]; [|right; by eexists].
    destruct (ignoreColIf_outcome rules targetRows)
      as [(retVal & Hsub & Hrun)|[e Hrun]]; [left|right; by exists e].
    exists retVal. split; [|done]. by exists targetRows.
Qed.

(** X18. For a list of [ignoreRowIf] and [ignoreColIf] operations,
    either there is one table, obtained from the input by deleting rows and
    deleting cells of the remaining rows, that [refine] passes to
    [onSuccess] whatever the two callbacks are, or there is one exception
    that escapes whatever the callbacks are.  The error handler has no part
    in the outcome. *)
Theorem refine_filters (ops : list (@Operation Param)) :
  Forall (fun op => operation op ∈ filterNames) ops ->
  forall targetRows,
    (exists retVal,
       shrinksTo targetRows retVal
       /\ forall onSuccess onError,
            runAll ops targetRows onSuccess onError = onSuccess retVal)
    \/ (exists e, forall onSuccess onError,
          runAll ops targetRows onSuccess onError = Uncaught e).
Proof.
  induction 1 as [|op ops Hop _ IH]; intros targetRows.
  - left. exists targetRows. split; [apply shrinksTo_refl|done].
  - destruct (executeOperation_filter op targetRows Hop)
      as [(mid & Hmid & Hrun)|[e Hrun]].
    + destruct (IH mid) as [(retVal & Hret & Hrest)|[e Hrest]].
      * left. exists retVal. split; [by eapply shrinksTo_trans|].
        intros onSuccess onError. by rewrite refine_cons, Hrun, Hrest.
      * right. exists e. intros onSuccess onError.
        by rewrite refine_cons, Hrun, Hrest.
    + right. exists e. intros onSuccess onError. by rewrite refine_cons, Hrun.
Qed.
End refine_laws.

(** [filterOperations] on [raggedTable]. *)
Lemma refine_filters_witness :
  Forall (fun op => operation op ∈ filterNames) filterOperations
  /\ ((exists retVal,
         shrinksTo raggedTable retVal
         /\ forall onSuccess onError,
              @refine integerHost (list Rule) Some standIn standIn standIn
                es5ObjectPrototype filterOperations raggedTable onSuccess
                onError
              = onSuccess retVal)
      \/ (exists e, forall onSuccess onError,
            @refine integerHost (list Rule) Some standIn standIn standIn
              es5ObjectPrototype filterOperations raggedTable onSuccess
              onError
            = Uncaught e)).
Proof.
  assert (Hops : Forall (fun op => operation op ∈ filterNames)
                   filterOperations).
  { repeat constructor. }
  split; [exact Hops|].
  exact (@refine_filters integerHost (list Rule) Some standIn standIn standIn
           es5ObjectPrototype filterOperations Hops raggedTable).
Defined.

(** ** Transposition *)

Lemma foldl_max_ge (n : Z) (l : list Z) :
  n <= foldl Z.max n l /\ Forall (fun m => m <= foldl Z.max n l) l.
Proof.
  revert n. induction l as [|m l IH]; intros n; simpl.
  - split; [lia|constructor].
  - destruct (IH (Z.max n m)) as [Hn Hl]. split; [lia|].
    constructor; [lia|done].
Qed.

Lemma foldl_max_elem (n : Z) (l : list Z) :
  foldl Z.max n l ∈ n :: l.
Proof.
  revert n. induction l as [|m l IH]; intros n; simpl; [left|].
  specialize (IH (Z.max n m)). apply elem_of_cons in IH as [->|IH].
  - destruct (Z.max_spec n m) as [[_ ->]|[_ ->]]; [right; left|left].
  - by do 2 right.
Qed.

Lemma findMaxNumCols_Some (targetRows : Table) n :
  findMaxNumCols targetRows = Some n
  <-> (exists cells, cells ∈ targetRows /\ js_length cells = n)
      /\ Forall (fun cells => js_length cells <= n) targetRows.
Proof.
  unfold findMaxNumCols. destruct targetRows as [|firstRow rest]; simpl.
  - split; [done|]. intros [(cells & Hin & _) _]. by apply elem_of_nil in Hin.
  - pose proof (foldl_max_ge (js_length firstRow) (map js_length rest))
      as [Hfirst Hrest].
    pose proof (foldl_max_elem (js_length firstRow) (map js_length rest))
      as Helem.
    set (m := foldl Z.max (js_length firstRow) (map js_length rest)) in *.
    assert (Hall : Forall (fun cells : Row => js_length cells <= m)
                     (firstRow :: rest)).
    { constructor; [done|]. apply Forall_forall. intros cells Hin.
      rewrite Forall_forall in Hrest. apply Hrest.
      apply list_elem_of_fmap. by exists cells. }
    assert (Hex : exists cells : Row,
               cells ∈ firstRow :: rest /\ js_length cells = m).
    { apply elem_of_cons in Helem as [Hm|Hm].
      - exists firstRow. split; [left|done].
      - apply list_elem_of_fmap in Hm as (cells & Hm & Hin).
        exists cells. split; [by right|done]. }
    split.
    + by intros [= <-].
    + intros [(cells & Hin & Hlen) Hle]. f_equal.
      destruct Hex as (cells' & Hin' & Hlen').
      rewrite Forall_forall in Hall, Hle.
      specialize (Hall cells Hin). specialize (Hle cells' Hin'). lia.
Qed.

(** X19. [findMaxNumCols] is [-Infinity] exactly on the empty table; on
    any other table it is the length of a longest row. *)
Theorem findMaxNumCols_longest (targetRows : Table) :
  (findMaxNumCols targetRows = None <-> targetRows = [])
  /\ forall n,
       findMaxNumCols targetRows = Some n
       <-> (exists cells, cells ∈ targetRows /\ js_length cells = n)
           /\ Forall (fun cells => js_length cells <= n) targetRows.
Proof.
  split; [|apply findMaxNumCols_Some].
  unfold findMaxNumCols. by destruct targetRows.
Qed.

Lemma js_get_nat {A} (arr : list A) (i : nat) :
  js_get arr (Z.of_nat i) = arr !! i.
Proof. unfold js_get. case_decide; [by rewrite Nat2Z.id|lia]. Qed.

Lemma pushCells_result retVal cells (k : nat) :
  (k + length cells <= length retVal)%nat ->
  pushCells retVal cells (Z.of_nat k)
  = Ok (imap (fun j column =>
                column ++ (if decide (k <= j)%nat
                           then option_list (cells !! (j - k)%nat) else []))
          retVal).
Proof.
  revert k retVal. induction cells as [|cell rest IH]; intros k retVal Hlen.
  - cbn [pushCells]. f_equal. apply list_eq. intros i.
    rewrite list_lookup_imap. destruct (retVal !! i) as [column|]; [|done].
    simpl. case_decide; by rewrite ?lookup_nil, ?app_nil_r.
  - cbn [pushCells]. rewrite js_get_nat.
    simpl in Hlen.
    destruct (lookup_lt_is_Some_2 retVal k ltac:(lia)) as [column Hk].
    rewrite Hk, Nat2Z.id.
    replace (Z.of_nat k + 1) with (Z.of_nat (S k)) by lia.
    rewrite IH by (rewrite length_insert; lia).
    f_equal. apply list_eq. intros i. rewrite !list_lookup_imap.
    destruct (decide (i = k)) as [->|Hik].
    + rewrite list_lookup_insert_eq by (by eapply lookup_lt_Some).
      rewrite Hk. simpl. rewrite decide_False, decide_True by lia.
      by rewrite Nat.sub_diag, app_nil_r.
    + rewrite list_lookup_insert_ne by done.
      destruct (retVal !! i) as [column'|]; [|done]. simpl.
      do 2 f_equal. destruct (decide (k <= i)%nat) as [Hle|Hgt].
      * rewrite decide_True by lia.
        by replace (i - k)%nat with (S (i - S k)) by lia.
      * by rewrite decide_False by lia.
Qed.

Lemma columnOf_cons cells (targetRows : Table) c :
  columnOf (cells :: targetRows) c
  = option_list (js_get cells c) ++ columnOf targetRows c.
Proof. unfold columnOf. simpl. by destruct (js_get cells c). Qed.

Lemma pushRows_result (targetRows retVal : Table) :
  Forall (fun cells : Row => (length cells <= length retVal)%nat) targetRows ->
  pushRows retVal targetRows
  = Ok (imap (fun j column => column ++ columnOf targetRows (Z.of_nat j))
          retVal).
Proof.
  revert retVal. induction targetRows as [|cells rest IH]; intros retVal Hall.
  - cbn [pushRows]. f_equal. apply list_eq. intros i.
    rewrite list_lookup_imap. destruct (retVal !! i); [|done].
    simpl. by rewrite app_nil_r.
  - apply Forall_cons in Hall as [Hcells Hall]. cbn [pushRows].
    change 0 with (Z.of_nat 0).
    rewrite (pushCells_result retVal cells 0) by (simpl; lia).
    cbn [bind]. rewrite IH.
    + f_equal. apply list_eq. intros i. rewrite !list_lookup_imap.
      destruct (retVal !! i) as [column|]; [|done].
      cbn [fmap option_fmap option_map].
      rewrite decide_True, Nat.sub_0_r by lia.
      by rewrite columnOf_cons, js_get_nat, app_assoc.
    + rewrite length_imap. done.
Qed.

Lemma transpose_result {Param : Type} (targetRows : Table) (params : Param)
    onSuccess onError :
  transpose targetRows params onSuccess onError
  = onSuccess (map (columnOf targetRows)
                 (seqZ 0 (default 0 (findMaxNumCols targetRows)))).
Proof.
  unfold transpose.
  assert (Hlen : Forall (fun cells : Row =>
            (length cells
             <= length (emptyColumns (findMaxNumCols targetRows)))%nat)
            targetRows).
  { destruct (findMaxNumCols targetRows) as [n|] eqn:En.
    - apply findMaxNumCols_Some in En as [_ Hle].
      eapply Forall_impl; [exact Hle|]. intros cells Hc. simpl.
      rewrite length_replicate. unfold js_length in Hc. lia.
    - unfold findMaxNumCols in En. destruct targetRows; [constructor|done]. }
  rewrite (pushRows_result targetRows _ Hlen). f_equal.
  apply list_eq. intros i. rewrite list_lookup_imap, list_lookup_fmap.
  destruct (findMaxNumCols targetRows) as [n|]; simpl.
  - destruct (decide (i < Z.to_nat n)%nat) as [Hi|Hi].
    + rewrite lookup_replicate_2 by done.
      rewrite lookup_seqZ_lt by lia. simpl. by rewrite Z.add_0_l.
    + assert (replicate (Z.to_nat n) (@nil Value) !! i = None) as ->
        by (apply lookup_replicate_None; lia).
      by rewrite lookup_seqZ_ge by lia.
  - done.
Qed.

(** X20. [transpose] of the single-file module raises no exception and
    passes to [onSuccess] the table with one row for every position [j]
    below the length of the longest row: the cells at position [j] of the
    rows that have one, from the first row to the last.  In a ragged table
    the rows without a cell at [j] are skipped, so the cells of the rows
    after them move up. *)
Theorem transpose_columns {Param : Type} (targetRows : Table) (params : Param)
    (onSuccess : Table -> Outcome) (onError : string -> Outcome) :
  transpose targetRows params onSuccess onError
  = onSuccess (map (columnOf targetRows)
                 (seqZ 0 (default 0 (findMaxNumCols targetRows)))).
Proof. apply transpose_result. Qed.

Lemma omap_lookup_total {A B} (f : A -> option B) (l : list A) (i : nat) :
  Forall (fun x => is_Some (f x)) l -> omap f l !! i = l !! i ≫= f.
Proof.
  intros Hall. revert i. induction Hall as [|x l [y Hy] _ IH]; intros i.
  - done.
  - simpl. rewrite Hy. destruct i as [|i]; simpl; [done|apply IH].
Qed.

Lemma omap_length_total {A B} (f : A -> option B) (l : list A) :
  Forall (fun x => is_Some (f x)) l -> length (omap f l) = length l.
Proof.
  induction 1 as [|x l [y Hy] _ IH]; [done|].
  simpl. rewrite Hy. simpl. by f_equal.
Qed.

Lemma rectangular_cells n (targetRows : Table) j :
  rectangular n targetRows -> 0 <= j < n ->
  Forall (fun cells : Row => is_Some (js_get cells j)) targetRows.
Proof.
  intros Hrect Hj. eapply Forall_impl; [exact Hrect|].
  intros cells Hlen. apply js_get_in_range. simpl in Hlen. lia.
Qed.

Lemma findMaxNumCols_rectangular n (targetRows : Table) :
  rectangular n targetRows -> targetRows <> [] ->
  findMaxNumCols targetRows = Some n.
Proof.
  intros Hrect Hne. apply findMaxNumCols_Some. split.
  - destruct targetRows as [|cells rest]; [done|].
    exists cells. split; [left|]. by apply Forall_cons in Hrect as [? _].
  - eapply Forall_impl; [exact Hrect|]. intros cells Hlen. simpl in *. lia.
Qed.

Lemma transpose_twice {Param : Type} n (targetRows : Table)
    (params params' : Param) onSuccess onError onError' :
  rectangular n targetRows -> 0 < n ->
  transpose targetRows params
    (fun retVal => transpose retVal params' onSuccess onError') onError
  = onSuccess targetRows.
Proof.
  intros Hrect Hn. rewrite !transpose_result. f_equal.
  destruct (decide (targetRows = [])) as [->|Hne]; [done|].
  rewrite (findMaxNumCols_rectangular n targetRows Hrect Hne). simpl.
  set (retVal := map (columnOf targetRows) (seqZ 0 n)).
  assert (Hret : rectangular (js_length targetRows) retVal).
  { apply Forall_map, Forall_forall. intros j Hj.
    apply elem_of_seqZ in Hj. unfold js_length, columnOf. f_equal.
    apply omap_length_total. apply (rectangular_cells n); [done|lia]. }
  assert (Hlen : length retVal = Z.to_nat n).
  { unfold retVal. by rewrite length_map, length_seqZ. }
  rewrite (findMaxNumCols_rectangular (js_length targetRows) retVal Hret)
    by (intros E; rewrite E in Hlen; simpl in Hlen; lia).
  simpl. apply list_eq. intros i. rewrite list_lookup_fmap.
  destruct (targetRows !! i) as [cells|] eqn:Ei.
  - pose proof (lookup_lt_Some _ _ _ Ei) as Hi.
    rewrite lookup_seqZ_lt by (unfold js_length; lia).
    cbn [fmap option_fmap option_map]. rewrite Z.add_0_l. f_equal.
    assert (Hcells : js_length cells = n).
    { unfold rectangular in Hrect. rewrite Forall_forall in Hrect.
      apply Hrect.
      by eapply list_elem_of_lookup_2. }
    apply list_eq. intros j. unfold columnOf at 1.
    rewrite omap_lookup_total
      by (apply (rectangular_cells (js_length targetRows));
          [done|unfold js_length; lia]).
    unfold retVal. rewrite list_lookup_fmap.
    destruct (decide (j < Z.to_nat n)%nat) as [Hj|Hj].
    + rewrite lookup_seqZ_lt by lia.
      cbn [fmap option_fmap option_map mbind option_bind].
      rewrite Z.add_0_l, js_get_nat. unfold columnOf.
      rewrite omap_lookup_total by (apply (rectangular_cells n); [done|lia]).
      rewrite Ei. cbn [mbind option_bind]. by rewrite js_get_nat.
    + rewrite lookup_seqZ_ge by lia. simpl. symmetry.
      apply lookup_ge_None. unfold js_length in Hcells. lia.
  - apply lookup_ge_None in Ei.
    by rewrite lookup_seqZ_ge by (unfold js_length; lia).
Qed.

(** X21. On a table whose rows all have the same number of cells, at
    least one, [transpose] of the single-file module applied twice gives
    the table back. *)
Theorem transpose_involution {Param : Type} (n : Z) (targetRows : Table)
    (params params' : Param) (onSuccess : Table -> Outcome)
    (onError onError' : string -> Outcome) :
  rectangular n targetRows -> 0 < n ->
  transpose targetRows params
    (fun retVal => transpose retVal params' onSuccess onError') onError
  = onSuccess targetRows.
Proof. apply transpose_twice. Qed.

(** [squareTable] transposed twice. *)
Lemma transpose_involution_witness :
  rectangular 2 squareTable /\ 0 < 2
  /\ transpose squareTable tt
       (fun retVal => transpose retVal tt SuccessCalled ErrorCalled)
       ErrorCalled
     = SuccessCalled squareTable.
Proof.
  assert (Hrect : rectangular 2 squareTable) by repeat constructor.
  assert (Hn : 0 < 2) by lia.
  split; [exact Hrect|]. split; [exact Hn|].
  exact (@transpose_involution unit 2 squareTable tt tt SuccessCalled
           ErrorCalled ErrorCalled Hrect Hn).
Defined.

(** ** Find and replace *)

#[global] Instance applies_dec rule r c v : Decision (applies rule r c v).
Proof. unfold applies. apply _. Defined.

#[global] Instance isString_dec v : Decision (isString v).
Proof.
  destruct v as [s| |]; [left; by exists s|right; by intros [? [=]]..].
Defined.

Section str_ops_laws.
Context `{StringHost}.

Lemma outside_selects input (i : Z) :
  match prepareListOfIndices input with
  | ANY_OPT => false
  | Indices l => bool_decide (indexOf l i = -1)
  end = bool_decide (~ selects input i).
Proof.
  destruct input as [| |n|l]; cbn [prepareListOfIndices selects].
  - symmetry. apply bool_decide_eq_false. tauto.
  - symmetry. apply bool_decide_eq_false. tauto.
  - apply bool_decide_ext. rewrite indexOf_absent, list_elem_of_singleton.
    done.
  - apply bool_decide_ext. by rewrite indexOf_absent.
Qed.

Lemma replaceFunc_unfold rule target r c :
  replaceFunc rule target r c
  = if decide (applies rule r c target)
    then match target with
         | VStr s => Ok (VStr (stringReplace s s (new rule)))
         | _ => Throw TypeError
         end
    else Ok target.
Proof.
  unfold replaceFunc, applies. rewrite !outside_selects.
  destruct (decide (selects (forRow rule) r)) as [Hr|Hr].
  - rewrite (bool_decide_eq_false_2 (~ selects (forRow rule) r)) by tauto.
    destruct (decide (selects (forCol rule) c)) as [Hc|Hc].
    + rewrite (bool_decide_eq_false_2 (~ selects (forCol rule) c)) by tauto.
      case_bool_decide; case_decide; try done; tauto.
    + rewrite (bool_decide_eq_true_2 (~ selects (forCol rule) c)) by done.
      case_decide; [tauto|done].
  - rewrite (bool_decide_eq_true_2 (~ selects (forRow rule) r)) by done.
    case_decide; [tauto|done].
Qed.

#[local] Instance cellFails_dec params r c v :
  Decision (cellFails params r c v).
Proof. unfold cellFails. apply _. Defined.

Lemma runReplaceFuncs_string params s r c :
  runReplaceFuncs (map replaceFunc params) (VStr s) r c
  = Ok (rewriteCell params r c (VStr s)).
Proof.
  unfold rewriteCell. revert s.
  induction params as [|rule params IH]; intros s; [done|].
  cbn [map runReplaceFuncs foldl]. rewrite replaceFunc_unfold.
  case_decide; cbn [bind]; apply IH.
Qed.

Lemma rewriteCell_other params r c v :
  ~ isString v -> rewriteCell params r c v = v.
Proof.
  intros Hv. unfold rewriteCell.
  induction params as [|rule params IH]; [done|].
  cbn [foldl]. destruct v as [s| |]; [by destruct Hv; exists s|done..].
Qed.

Lemma runReplaceFuncs_result params v r c :
  runReplaceFuncs (map replaceFunc params) v r c
  = if decide (cellFails params r c v) then Throw TypeError
    else Ok (rewriteCell params r c v).
Proof.
  destruct (decide (isString v)) as [[s ->]|Hv].
  - rewrite runReplaceFuncs_string.
    case_decide as Hf; [|done]. destruct Hf as [Hf _]. destruct Hf. by exists s.
  - rewrite rewriteCell_other by done.
    induction params as [|rule params IH].
    + cbn [map runReplaceFuncs]. case_decide as Hf; [|done].
      destruct Hf as [_ Hf]. by apply Exists_nil in Hf.
    + cbn [map runReplaceFuncs]. rewrite replaceFunc_unfold.
      destruct (decide (applies rule r c v)) as [Ha|Ha].
      * rewrite decide_True by (split; [done|by left]).
        destruct v as [s| |]; [by destruct Hv; exists s|done..].
      * cbn [bind]. rewrite IH. apply decide_ext. unfold cellFails.
        rewrite Exists_cons. tauto.
Qed.

Lemma replaceCells_ok params cells r c :
  (forall k v, cells !! k = Some v -> ~ cellFails params r (c + Z.of_nat k) v) ->
  replaceCells (map replaceFunc params) cells r c
  = Ok (imap (fun k v => rewriteCell params r (c + Z.of_nat k) v) cells).
Proof.
  revert c. induction cells as [|v cells IH]; intros c Hok; [done|].
  cbn [replaceCells]. rewrite runReplaceFuncs_result.
  rewrite decide_False
    by (specialize (Hok 0%nat v eq_refl); by rewrite Z.add_0_r in Hok).
  cbn [bind]. rewrite IH.
  - cbn [bind imap]. rewrite Z.add_0_r. do 2 f_equal.
    apply imap_ext. intros k v' _. simpl. f_equal. lia.
  - intros k v' Hk. specialize (Hok (S k) v' Hk).
    by replace (c + 1 + Z.of_nat k) with (c + Z.of_nat (S k)) by lia.
Qed.

Lemma replaceCells_fails params cells r c k v :
  cells !! k = Some v -> cellFails params r (c + Z.of_nat k) v ->
  replaceCells (map replaceFunc params) cells r c = Throw TypeError.
Proof.
  revert c k. induction cells as [|v' cells IH]; intros c k Hk Hf; [done|].
  cbn [replaceCells]. rewrite runReplaceFuncs_result.
  case_decide as Hhead; [done|]. cbn [bind].
  destruct k as [|k].
  - injection Hk as ->. by rewrite Z.add_0_r in Hf.
  - rewrite (IH (c + 1) k); [done|done|].
    by replace (c + 1 + Z.of_nat k) with (c + Z.of_nat (S k)) by lia.
Qed.

Lemma replaceCells_throws params cells r c e :
  replaceCells (map replaceFunc params) cells r c = Throw e -> e = TypeError.
Proof.
  revert c. induction cells as [|v cells IH]; intros c; [done|].
  cbn [replaceCells]. rewrite runReplaceFuncs_result.
  case_decide; cbn [bind]; [congruence|].
  destruct (replaceCells _ cells r (c + 1)) eqn:E; cbn [bind]; [done|].
  intros [= <-]. by eapply IH.
Qed.

Lemma replaceRows_ok params (targetRows : Table) r :
  (forall i cells k v,
     targetRows !! i = Some cells -> cells !! k = Some v ->
     ~ cellFails params (r + Z.of_nat i) (Z.of_nat k) v) ->
  replaceRows (map replaceFunc params) targetRows r
  = Ok (imap (fun i cells =>
                imap (fun k v =>
                        rewriteCell params (r + Z.of_nat i) (Z.of_nat k) v)
                  cells)
          targetRows).
Proof.
  revert r. induction targetRows as [|cells rest IH]; intros r Hok; [done|].
  cbn [replaceRows]. rewrite replaceCells_ok.
  - cbn [bind]. rewrite IH.
    + cbn [bind imap]. rewrite Z.add_0_r. do 2 f_equal.
      apply imap_ext. intros i cells' _. simpl.
      by replace (r + 1 + Z.of_nat i) with (r + Z.of_nat (S i)) by lia.
    + intros i cells' k v Hi Hk.
      replace (r + 1 + Z.of_nat i) with (r + Z.of_nat (S i)) by lia.
      by apply (Hok (S i) cells').
  - intros k v Hk. specialize (Hok 0%nat cells k v eq_refl Hk).
    by rewrite Z.add_0_r in Hok.
Qed.

Lemma replaceRows_fails params (targetRows : Table) r i cells k v :
  targetRows !! i = Some cells -> cells !! k = Some v ->
  cellFails params (r + Z.of_nat i) (Z.of_nat k) v ->
  replaceRows (map replaceFunc params) targetRows r = Throw TypeError.
Proof.
  revert r i. induction targetRows as [|cells' rest IH]; intros r i Hi Hk Hf;
    [done|].
  cbn [replaceRows].
  destruct (replaceCells _ cells' r 0) as [newRow|e] eqn:E; cbn [bind].
  - destruct i as [|i].
    + injection Hi as ->. rewrite Z.add_0_r in Hf.
      by rewrite (replaceCells_fails params cells r 0 k v Hk Hf) in E.
    + rewrite (IH (r + 1) i); [done|done|done|].
      by replace (r + 1 + Z.of_nat i) with (r + Z.of_nat (S i)) by lia.
  - by rewrite (replaceCells_throws _ _ _ _ _ E).
Qed.

Lemma replaceFails_cell params (targetRows : Table) :
  replaceFails params targetRows
  <-> exists i cells k v,
        targetRows !! i = Some cells /\ cells !! k = Some v
        /\ cellFails params (Z.of_nat i) (Z.of_nat k) v.
Proof.
  unfold replaceFails, cellFails. split.
  - intros (r & cells & c & v & rule & Hr & Hc & Hv & Hin & Ha).
    apply js_get_Some in Hr as [Hr0 Hr]. apply js_get_Some in Hc as [Hc0 Hc].
    exists (Z.to_nat r), cells, (Z.to_nat c), v. rewrite !Z2Nat.id by done.
    split_and!; [done..|]. apply Exists_exists. by exists rule.
  - intros (i & cells & k & v & Hi & Hk & Hv & Hex).
    apply Exists_exists in Hex as (rule & Hin & Ha).
    exists (Z.of_nat i), cells, (Z.of_nat k), v, rule.
    by rewrite !js_get_nat.
Qed.

Lemma replace_result params (targetRows : Table) :
  (replaceFails params targetRows ->
   forall onSuccess onError,
     replace targetRows params onSuccess onError = Uncaught TypeError)
  /\ (~ replaceFails params targetRows ->
      forall onSuccess onError,
        replace targetRows params onSuccess onError
        = onSuccess
            (imap (fun i cells =>
                     imap (fun k v =>
                             rewriteCell params (Z.of_nat i) (Z.of_nat k) v)
                       cells)
               targetRows)).
Proof.
  split.
  - intros (i & cells & k & v & Hi & Hk & Hf)%replaceFails_cell
      onSuccess onError.
    unfold replace. by rewrite (replaceRows_fails params targetRows 0 i cells k v).
  - intros Hok onSuccess onError. unfold replace.
    rewrite replaceRows_ok; [done|].
    intros i cells k v Hi Hk Hf. apply Hok, replaceFails_cell.
    by exists i, cells, k, v.
Qed.
End str_ops_laws.

(** X23. [replace] raises a [TypeError] exactly when some rule applies to
    a cell that holds a number or a boolean, that is when the rule selects
    the row and the column of the cell and its [orig] is the value of the
    cell.  Otherwise it passes to [onSuccess] a table of the same shape, in
    which every cell is rewritten by the rules in their order, each rule
    that applies to the text reached so far replacing it. *)
Theorem replace_outcome `{StringHost} (params : list ReplaceRule)
    (targetRows : Table) :
  (replaceFails params targetRows ->
   forall onSuccess onError,
     replace targetRows params onSuccess onError = Uncaught TypeError)
  /\ (~ replaceFails params targetRows ->
      forall onSuccess onError,
        replace targetRows params onSuccess onError
        = onSuccess
            (imap (fun i cells =>
                     imap (fun k v =>
                             rewriteCell params (Z.of_nat i) (Z.of_nat k) v)
                       cells)
               targetRows)).
Proof. apply replace_result. Qed.

Section str_ops_composition.
Context `{StringHost}.

Lemma rewriteCell_none params r c v :
  (forall rule, rule ∈ params -> ~ applies rule r c v) ->
  rewriteCell params r c v = v.
Proof.
  unfold rewriteCell. induction params as [|rule params IH]; intros Hno;
    [done|].
  cbn [foldl]. destruct v as [s| |].
  - rewrite decide_False by (apply Hno; left).
    apply IH. intros rule' Hin. apply Hno. by right.
  - apply IH. intros rule' Hin. apply Hno. by right.
  - apply IH. intros rule' Hin. apply Hno. by right.
Qed.

Lemma replace_untouched params (targetRows : Table) onSuccess onError :
  (forall r cells c v rule,
     js_get targetRows r = Some cells -> js_get cells c = Some v ->
     rule ∈ params -> ~ applies rule r c v) ->
  replace targetRows params onSuccess onError = onSuccess targetRows.
Proof.
  intros Hno. destruct (replace_result params targetRows) as [_ Hok].
  rewrite Hok.
  - f_equal. apply list_eq. intros i. rewrite list_lookup_imap.
    destruct (targetRows !! i) as [cells|] eqn:Ei; [|done].
    cbn [fmap option_fmap option_map]. f_equal.
    apply list_eq. intros k. rewrite list_lookup_imap.
    destruct (cells !! k) as [v|] eqn:Ek; [|done].
    cbn [fmap option_fmap option_map]. f_equal.
    apply rewriteCell_none. intros rule Hin.
    apply (Hno (Z.of_nat i) cells (Z.of_nat k) v rule);
      by rewrite ?js_get_nat.
  - intros (r & cells & c & v & rule & Hr & Hc & _ & Hin & Ha).
    by apply (Hno r cells c v rule).
Qed.

Lemma runReplaceFuncs_app fs1 fs2 v r c :
  runReplaceFuncs (fs1 ++ fs2) v r c
  = (v' <- runReplaceFuncs fs1 v r c ;; runReplaceFuncs fs2 v' r c).
Proof.
  revert v. induction fs1 as [|f fs1 IH]; intros v; [done|].
  cbn [app runReplaceFuncs]. destruct (f v r c); cbn [bind]; [apply IH|done].
Qed.

Lemma runReplaceFuncs_throws params v r c e :
  runReplaceFuncs (map replaceFunc params) v r c = Throw e -> e = TypeError.
Proof. rewrite runReplaceFuncs_result. case_decide; congruence. Qed.

Lemma replaceCells_app p1 p2 cells r c :
  replaceCells (map replaceFunc (p1 ++ p2)) cells r c
  = (cells' <- replaceCells (map replaceFunc p1) cells r c ;;
     replaceCells (map replaceFunc p2) cells' r c).
Proof.
  revert c. induction cells as [|v cells IH]; intros c; [done|].
  cbn [replaceCells]. rewrite IH, map_app, runReplaceFuncs_app.
  destruct (runReplaceFuncs (map replaceFunc p1) v r c) as [v1|e1];
    cbn [bind]; [|done].
  destruct (replaceCells (map replaceFunc p1) cells r (c + 1))
    as [more1|e] eqn:E1; cbn [bind replaceCells]; [done|].
  apply replaceCells_throws in E1 as ->.
  destruct (runReplaceFuncs (map replaceFunc p2) v1 r c) as [v2|e2] eqn:E2;
    cbn [bind]; [done|].
  by apply runReplaceFuncs_throws in E2 as ->.
Qed.

Lemma replaceRows_throws params (targetRows : Table) r e :
  replaceRows (map replaceFunc params) targetRows r = Throw e -> e = TypeError.
Proof.
  revert r. induction targetRows as [|cells rest IH]; intros r; [done|].
  cbn [replaceRows].
  destruct (replaceCells _ cells r 0) eqn:E; cbn [bind].
  - destruct (replaceRows _ rest (r + 1)) eqn:E'; cbn [bind]; [done|].
    intros [= <-]. by eapply IH.
  - intros [= <-]. by eapply replaceCells_throws.
Qed.

Lemma replaceRows_app p1 p2 (targetRows : Table) r :
  replaceRows (map replaceFunc (p1 ++ p2)) targetRows r
  = (retVal <- replaceRows (map replaceFunc p1) targetRows r ;;
     replaceRows (map replaceFunc p2) retVal r).
Proof.
  revert r. induction targetRows as [|cells rest IH]; intros r; [done|].
  cbn [replaceRows]. rewrite IH, replaceCells_app.
  destruct (replaceCells (map replaceFunc p1) cells r 0) as [cells1|e1];
    cbn [bind]; [|done].
  destruct (replaceRows (map replaceFunc p1) rest (r + 1))
    as [rest1|e] eqn:E1; cbn [bind replaceRows]; [done|].
  apply replaceRows_throws in E1 as ->.
  destruct (replaceCells (map replaceFunc p2) cells1 r 0) as [cells2|e2] eqn:E2;
    cbn [bind]; [done|].
  by apply replaceCells_throws in E2 as ->.
Qed.

Lemma replace_app p1 p2 (targetRows : Table) onSuccess onError :
  replace targetRows (p1 ++ p2) onSuccess onError
  = replace targetRows p1
      (fun retVal => replace retVal p2 onSuccess onError) onError.
Proof.
  unfold replace. rewrite replaceRows_app.
  by destruct (replaceRows (map replaceFunc p1) targetRows 0).
Qed.
End str_ops_composition.

(** X24. If no rule applies to any cell of the table, [replace] passes the
    table on unchanged. *)
Theorem replace_no_match `{StringHost} (params : list ReplaceRule)
    (targetRows : Table) (onSuccess : Table -> Outcome)
    (onError : string -> Outcome) :
  (forall r cells c v rule,
     js_get targetRows r = Some cells -> js_get cells c = Some v ->
     rule ∈ params -> ~ applies rule r c v) ->
  replace targetRows params onSuccess onError = onSuccess targetRows.
Proof. apply replace_untouched. Qed.

Lemma unmatchedTable_cells r cells c v rule :
  js_get unmatchedTable r = Some cells -> js_get cells c = Some v ->
  rule ∈ replaceRules -> ~ applies rule r c v.
Proof.
  intros Hr Hc Hin [_ [Hcol Horig]].
  apply list_elem_of_singleton in Hin as ->. simpl in Hcol, Horig.
  injection Horig as <-. subst c.
  apply js_get_Some in Hr as [Hr0 Hr].
  destruct (Z.to_nat r) as [|k]; simpl in Hr; [|done].
  injection Hr as <-. done.
Qed.

(** [replaceRules] on [unmatchedTable]: the text stands in column 1, the
    rule is for column 0. *)
Lemma replace_no_match_witness :
  (forall r cells c v rule,
     js_get unmatchedTable r = Some cells -> js_get cells c = Some v ->
     rule ∈ replaceRules -> ~ applies rule r c v)
  /\ @replace literalHost unmatchedTable replaceRules SuccessCalled ErrorCalled
     = SuccessCalled unmatchedTable.
Proof.
  split; [exact unmatchedTable_cells|].
  exact (@replace_no_match literalHost replaceRules unmatchedTable
           SuccessCalled ErrorCalled unmatchedTable_cells).
Defined.

(** X25. [replace] with two rule lists put together is [replace] with
    the first list followed by [replace] of its result with the second. *)
Theorem replace_append `{StringHost} (p1 p2 : list ReplaceRule)
    (targetRows : Table) (onSuccess : Table -> Outcome)
    (onError : string -> Outcome) :
  replace targetRows (p1 ++ p2) onSuccess onError
  = replace targetRows p1
      (fun retVal => replace retVal p2 onSuccess onError) onError.
Proof. apply replace_app. Qed.

(** ** Transposition through the orchestrator *)

Section refine_transpose.
Context {Param : Type}.
Context (ignoreRowIfStrategy ignoreColIfStrategy : @Strategy Param).
Context (replaceStrategy interpretStrStrategy : @Strategy Param).
Context (objectPrototype : string -> option (@Strategy Param)).

#[local] Abbreviation runSingleFile :=
  (simple_table_refine.refine ignoreRowIfStrategy ignoreColIfStrategy
     replaceStrategy interpretStrStrategy objectPrototype).
#[local] Abbreviation executeSingleFile :=
  (simple_table_refine.executeOperation ignoreRowIfStrategy
     ignoreColIfStrategy replaceStrategy interpretStrStrategy objectPrototype).

Lemma executeOperation_transpose (params : Param) targetRows onSuccess onError :
  executeSingleFile (mkOperation "transpose" params) targetRows onSuccess
    onError
  = transpose targetRows params onSuccess onError.
Proof.
  unfold simple_table_refine.executeOperation,
    simple_table_refine.lookupStrategy, simple_table_refine.refineStrategies.
  cbn [operation param].
  rewrite !lookup_insert_ne by done. by rewrite lookup_singleton_eq.
Qed.

Lemma refine_transpose_cons (params : Param) ops targetRows onSuccess onError :
  runSingleFile (mkOperation "transpose" params :: ops) targetRows onSuccess
    onError
  = transpose targetRows params
      (fun newTargetRows => runSingleFile ops newTargetRows onSuccess onError)
      (default genericErrorHandler onError).
Proof.
  rewrite <- executeOperation_transpose. reflexivity.
Qed.

(** X22. Through the orchestrator of the single-file module: two
    [transpose] operations in a row give back a table whose rows all have
    the same number of cells, at least one, whatever the parameters of the
    operations and the error handler are. *)
Theorem refine_transpose_twice (n : Z) (targetRows : Table)
    (params params' : Param) :
  rectangular n targetRows -> 0 < n ->
  forall onSuccess onError,
    runSingleFile
      [mkOperation "transpose" params; mkOperation "transpose" params']
      targetRows onSuccess onError
    = onSuccess targetRows.
Proof.
  intros Hrect Hn onSuccess onError.
  rewrite refine_transpose_cons.
  etrans; [|exact (transpose_twice n targetRows params params' onSuccess
                     (default genericErrorHandler onError)
                     (default genericErrorHandler onError) Hrect Hn)].
  reflexivity.
Qed.
End refine_transpose.

(** [squareTable] through two [transpose] operations. *)
Lemma refine_transpose_twice_witness :
  rectangular 2 squareTable /\ 0 < 2
  /\ forall onSuccess onError,
      @simple_table_refine.refine unit standIn standIn standIn standIn
        es5ObjectPrototype
        [mkOperation "transpose" tt; mkOperation "transpose" tt]
        squareTable onSuccess onError
      = onSuccess squareTable.
Proof.
  assert (Hrect : rectangular 2 squareTable) by repeat constructor.
  assert (Hn : 0 < 2) by lia.
  split; [exact Hrect|]. split; [exact Hn|].
  exact (@refine_transpose_twice unit standIn standIn standIn standIn
           es5ObjectPrototype 2 squareTable tt tt Hrect Hn).
Defined.
